(** * The pre-midnight proof worker of node/consensus/data

    A shallow embedding of [pre_midnight_proof_worker.go]: the worker
    [runPreMidnightProofWorker], which replays the locally stored pre-2.0
    data time proofs to the beacon in signed batches, and
    [GetAddressOfPreCoinProof], the content address of a pre-coin proof.

    Integers are [Z] with Go's conversions written out, byte slices are
    [list byte], the remote peer and the local stores are the fields of an
    environment record, and every observable action of the worker is an
    entry of the trace it returns. *)

From Stdlib Require Import ZArith List Bool String Lia.
From Stdlib Require Import Strings.Byte.
Import ListNotations.
Local Open Scope Z_scope.

Set Implicit Arguments.

(** ** Go integers and byte slices *)

Definition bytes := list byte.

Module GoInt.

(** Conversion to an unsigned type of [w] bits keeps the low [w] bits. *)
Definition wrapUnsigned (w z : Z) : Z := z mod 2 ^ w.

(** Conversion to a signed type of [w] bits, two's complement. *)
Definition wrapSigned (w z : Z) : Z :=
  (z + 2 ^ (w - 1)) mod 2 ^ w - 2 ^ (w - 1).

(** [int] is 64 bits wide on the targets the node is built for. *)
Definition intSize : Z := 64.

Definition uint32 (z : Z) : Z := wrapUnsigned 32 z.
Definition uint64 (z : Z) : Z := wrapUnsigned 64 z.
Definition int (z : Z) : Z := wrapSigned intSize z.

(** [byte(v)]: the low eight bits of [v]. *)
Definition byte_of (z : Z) : byte :=
  match Byte.of_N (Z.to_N (z mod 256)) with
  | Some b => b
  | None => x00
  end.

Definition Z_of_byte (b : byte) : Z := Z.of_N (Byte.to_N b).

(** [len(s)] as an [int]. *)
Definition len (A : Type) (s : list A) : Z := Z.of_nat (List.length s).

End GoInt.
Import GoInt.

(** [bytes.Equal]. *)
Fixpoint bytes_Equal (a b : bytes) : bool :=
  match a, b with
  | [], [] => true
  | x :: a', y :: b' => Byte.eqb x y && bytes_Equal a' b'
  | _, _ => false
  end.

(** [make([]byte, n)]. *)
Definition make_bytes (n : nat) : bytes := repeat x00 n.

(** [[]byte("...")]. *)
Definition bytes_of_string (s : string) : bytes := list_byte_of_string s.

(** ** encoding/binary, big endian *)

Module BigEndian.

(** [binary.BigEndian.AppendUint32(b, v)]. *)
Definition AppendUint32 (b : bytes) (v : Z) : bytes :=
  b ++ [ byte_of (Z.shiftr v 24); byte_of (Z.shiftr v 16);
         byte_of (Z.shiftr v 8); byte_of v ].

(** [binary.BigEndian.AppendUint64(b, v)]. *)
Definition AppendUint64 (b : bytes) (v : Z) : bytes :=
  b ++ [ byte_of (Z.shiftr v 56); byte_of (Z.shiftr v 48);
         byte_of (Z.shiftr v 40); byte_of (Z.shiftr v 32);
         byte_of (Z.shiftr v 24); byte_of (Z.shiftr v 16);
         byte_of (Z.shiftr v 8); byte_of v ].

(** [binary.BigEndian.Uint32(b)] on a slice of at least four bytes. *)
Definition Uint32 (b : bytes) : option Z :=
  match b with
  | b0 :: b1 :: b2 :: b3 :: _ =>
      Some (Z.lor (Z.lor (Z.lor (Z_of_byte b3) (Z.shiftl (Z_of_byte b2) 8))
                         (Z.shiftl (Z_of_byte b1) 16))
                  (Z.shiftl (Z_of_byte b0) 24))
  | _ => None
  end.

End BigEndian.

(** ** math/big: [x.FillBytes(make([]byte, n))]

    The absolute value of [x] as [n] big-endian bytes, zero extended on the
    left; the call panics ([None]) when the value does not fit. *)

Fixpoint be_bytes (n : nat) (x : Z) : bytes :=
  match n with
  | O => []
  | S k => byte_of (Z.shiftr x (8 * Z.of_nat k)) :: be_bytes k x
  end.

Definition FillBytes (x : Z) (n : nat) : option bytes :=
  if Z.abs x <? 2 ^ (8 * Z.of_nat n) then Some (be_bytes n (Z.abs x)) else None.

(** ** Results of Go calls *)

(** What a call of type [(T, error)] can do: return a value, return an
    error, or panic. *)
Inductive go_result (A : Type) : Type :=
| Ok (a : A)
| Err
| Panic.
Arguments Err {A}.
Arguments Panic {A}.

(** ** protobufs.PreCoinProof *)

(** Modelled from the spec: the message type [protobufs.AccountRef] is
    declared outside the sources at hand.  The owner of a proof is an
    account reference; the code reads the address of its implicit account
    through the getter [GetImplicitAccount], which is nil for a reference
    of the other kind. *)
Inductive AccountRef : Type :=
| ImplicitAccount (Address : bytes)
| OriginatedAccount (Address : bytes).

(** Modelled from the spec: the message type [protobufs.PreCoinProof] is
    declared outside the sources at hand.  Its fields are those of the data
    model: amount, index proof, commitment and proof are opaque byte
    sequences, index, parallelism and difficulty are 32-bit integers, and
    the owner is an account reference. *)
Record PreCoinProof : Type := {
  Amount : bytes;
  Index : Z;
  IndexProof : bytes;
  Commitment : bytes;
  Proof : bytes;
  Parallelism : Z;
  Difficulty : Z;
  Owner : option AccountRef
}.

(** [proof.Owner.GetImplicitAccount().Address]: the getter tolerates a nil
    owner and returns nil for an account that is not implicit; reading
    [Address] through that nil pointer panics ([None]). *)
Definition ownerImplicitAddress (p : PreCoinProof) : option bytes :=
  match Owner p with
  | Some (ImplicitAccount a) => Some a
  | _ => None
  end.

(** The fields of a message as the wire carries them. *)
Definition is_uint32 (z : Z) : Prop := 0 <= z < 2 ^ 32.

Record wf_PreCoinProof (p : PreCoinProof) : Prop := {
  wf_Index : is_uint32 (Index p);
  wf_Parallelism : is_uint32 (Parallelism p);
  wf_Difficulty : is_uint32 (Difficulty p);
  wf_Owner : exists a, Owner p = Some (ImplicitAccount a)
}.

(** ** Address derivation *)

Section AddressDerivation.

(** [application.TOKEN_ADDRESS], declared in the token application. *)
Variable TOKEN_ADDRESS : bytes.

(** [poseidon.HashBytes]: a field element, or an error. *)
Variable HashBytes : bytes -> option Z.

(** The byte string [eval] that [GetAddressOfPreCoinProof] hashes, given
    the owner's address. *)
Definition preCoinProofEval (p : PreCoinProof) (owner : bytes) : bytes :=
  let eval := [] in
  let eval := eval ++ TOKEN_ADDRESS in
  let eval := eval ++ Amount p in
  let eval := BigEndian.AppendUint32 eval (Index p) in
  let eval := eval ++ IndexProof p in
  let eval := eval ++ Commitment p in
  let eval := eval ++ Proof p in
  let eval := BigEndian.AppendUint32 eval (Parallelism p) in
  let eval := BigEndian.AppendUint32 eval (Difficulty p) in
  let eval := BigEndian.AppendUint32 eval 0 in
  eval ++ owner.

Definition GetAddressOfPreCoinProof (p : PreCoinProof) : go_result bytes :=
  match ownerImplicitAddress p with
  | None => Panic
  | Some owner =>
      match HashBytes (preCoinProofEval p owner) with
      | None => Err
      | Some addressBI =>
          match FillBytes addressBI 32 with
          | Some b => Ok b
          | None => Panic
          end
      end
  end.

End AddressDerivation.

(** The proof with the values of two fields exchanged. *)
Definition swapIndexProofCommitment (p : PreCoinProof) : PreCoinProof :=
  {| Amount := Amount p; Index := Index p;
     IndexProof := Commitment p; Commitment := IndexProof p;
     Proof := Proof p; Parallelism := Parallelism p;
     Difficulty := Difficulty p; Owner := Owner p |}.

Definition swapParallelismDifficulty (p : PreCoinProof) : PreCoinProof :=
  {| Amount := Amount p; Index := Index p;
     IndexProof := IndexProof p; Commitment := Commitment p;
     Proof := Proof p; Parallelism := Difficulty p;
     Difficulty := Parallelism p; Owner := Owner p |}.

(** ** The worker's surroundings *)

(** Modelled from the spec: the errors of the local stores, declared in
    the store package, as [errors.Is(err, store.ErrNotFound)] tells them
    apart: not-found, and any other failure. *)
Inductive store_error : Type :=
| ErrNotFound
| ErrOther.

(** Modelled from the spec: a stored data time proof, as the proof store
    (declared outside the sources at hand) returns it for an increment:
    parallelism, input and output. *)
Record DataTimeProof : Type := {
  dtpParallelism : Z;
  dtpInput : bytes;
  dtpOutput : bytes
}.

(** Modelled from the spec: the answer of the status operation,
    [protobufs.PreMidnightMintStatusResponse], with the resume address and
    the increment that lines 120-123 read. *)
Record MintStatus : Type := {
  statusAddress : bytes;
  statusIncrement : Z
}.

(** Modelled from the spec: the request of the mint operation,
    [protobufs.MintCoinRequest], as lines 177-185 fill it: the batch, the
    public key and the signature. *)
Record MintCoinRequest : Type := {
  reqProofs : list bytes;
  reqPublicKey : bytes;
  reqSignature : bytes
}.

(** Everything the worker reads or calls, none of it in the sources at
    hand: the engine's fields, the stores, the signer, the genesis
    configuration and the remote service.  A call that can answer
    differently each time takes the number of earlier calls. *)
Record Env : Type := {
  (** [e.pubSub.GetPeerID()] and [e.pubSub.GetPublicKey()] *)
  GetPeerID : bytes;
  GetPublicKey : bytes;
  (** [e.dataProofStore.GetLatestDataTimeProof]: the increment or an error *)
  GetLatestDataTimeProof : Z + store_error;
  (** [e.state] at each read, and [consensus.EngineStateCollecting] *)
  engineState : nat -> Z;
  EngineStateCollecting : Z;
  (** [poseidon.HashBytes] *)
  poseidonHashBytes : bytes -> option Z;
  (** [crypto.UnmarshalEd448PublicKey(config.GetGenesis().Beacon)] followed
      by [peer.IDFromPublicKey]; each may fail *)
  UnmarshalBeaconKey : option bytes;
  IDFromPublicKey : bytes -> option bytes;
  (** [len(e.GetFrameProverTries())] at each poll *)
  GetFrameProverTries : nat -> nat;
  (** [e.coinStore.GetPreCoinProofsForOwner]: the proofs and the error *)
  GetPreCoinProofsForOwner : bytes -> list PreCoinProof * option store_error;
  (** [e.pubSub.GetDirectChannel]: did the attempt succeed *)
  GetDirectChannel : nat -> bool;
  (** [client.GetPreMidnightMintStatus]: [None] is an error or a nil status *)
  GetPreMidnightMintStatus : nat -> bytes -> option MintStatus;
  (** [e.dataProofStore.GetDataTimeProof] for this peer: [None] is an error *)
  GetDataTimeProof : Z -> option DataTimeProof;
  (** [e.pubSub.SignMessage] *)
  SignMessage : bytes -> option bytes;
  (** [client.HandlePreMidnightMint]: the address of the response *)
  HandlePreMidnightMint : nat -> MintCoinRequest -> option bytes
}.

(** What the worker does, in order.  A remote call is recorded with its
    answer: [None] for an error, the status or the address otherwise. *)
Inductive event : Type :=
| EvInfo (msg : string)
| EvError (msg : string)
| EvSleep
| EvQueryOwner (addr : bytes)
| EvGetDirectChannel (peerId : bytes) (ok : bool)
| EvClose
| EvStatus (owner : bytes) (resp : option MintStatus)
| EvGetDataTimeProof (i : Z) (found : bool)
| EvSignMessage (payload : bytes)
| EvHandleMint (req : MintCoinRequest) (resp : option bytes).

Definition trace := list event.

(** Where the worker's [return] statements are. *)
Inductive outcome : Type :=
| NoLegacyProofs
| OwnerQueryFailed
| AlreadyCompleted
| MissingRecord (i : Z)
| Submitted.

(** The resume cursor, with the number of calls made so far. *)
Record State : Type := {
  resume : bytes;
  increment : Z;
  nChannel : nat;
  nStatus : nat;
  nMint : nat
}.

(** [emit evs x]: the events [evs] happen before those of [x]. *)
Definition emit (A : Type) (evs : trace) (x : trace * A) : trace * A :=
  (evs ++ fst x, snd x).

(** ** The batch loop *)

(** One framed proof, lines 142-148. *)
Definition frameProof (i : Z) (r : DataTimeProof) : bytes :=
  let p := [] in
  let p := BigEndian.AppendUint32 p (uint32 i) in
  let p := BigEndian.AppendUint32 p (dtpParallelism r) in
  let p := BigEndian.AppendUint64 p (uint64 (len (dtpInput r))) in
  let p := p ++ dtpInput r in
  let p := BigEndian.AppendUint64 p (uint64 (len (dtpOutput r))) in
  p ++ dtpOutput r.

Definition preDusk : bytes := bytes_of_string "pre-dusk".

(** A batch as it is when the loop starts, lines 129-132 and 200-203. *)
Definition freshBatch (resume : bytes) : list bytes := [preDusk; resume].

(** The payload that is signed, lines 165-168. *)
Definition mintPayload (proofs : list bytes) : bytes :=
  fold_left (fun payload i => payload ++ i) proofs (bytes_of_string "mint").

(** How the [for i := int(increment); i >= 0; i--] statement is left. *)
Inductive loop_exit : Type :=
| LoopOver                 (* the condition [i >= 0] is false *)
| LoopBreak (st : State)   (* [break], lines 195 and 213 *)
| LoopReturn (o : outcome) (* [return], lines 158 and 208 *)
| LoopPanic                (* [panic(err)], line 172 *)
| LoopNoFuel.

(** How one turn of the session loop ends. *)
Inductive turn_exit : Type :=
| TurnAgain (st : State)   (* [continue], or the end of the loop body *)
| TurnReturn (o : outcome)
| TurnPanic
| TurnNoFuel.

(** How the wait for the coin store ends. *)
Inductive gate_exit : Type :=
| GateReady
| GateReturn (o : outcome)
| GateNoFuel.

(** How the worker ends. *)
Inductive result : Type :=
| Returned (o : outcome)
| Panicked
| OutOfFuel.

Section Worker.

Variable env : Env.

(** Lines 163-213: sign the batch, submit it, adopt the answer. *)
Definition publishBatch (st : State) (i : Z) (proofs : list bytes)
  : trace * loop_exit :=
  let payload := mintPayload proofs in
  emit [EvInfo "publishing proof batch"; EvSignMessage payload]
    match SignMessage env payload with
    | None => ([EvClose], LoopPanic)
    | Some sig =>
        let req := {| reqProofs := proofs;
                      reqPublicKey := GetPublicKey env;
                      reqSignature := sig |} in
        emit [EvHandleMint req (HandlePreMidnightMint env (nMint st) req)]
          match HandlePreMidnightMint env (nMint st) req with
          | None =>
              ([EvError "got error response, waiting..."; EvClose; EvSleep],
               LoopBreak {| resume := resume st; increment := increment st;
                            nChannel := nChannel st; nStatus := nStatus st;
                            nMint := S (nMint st) |})
          | Some address =>
              if i =? 0 then
                ([EvInfo "pre-midnight proofs submitted, returning"; EvClose],
                 LoopReturn Submitted)
              else
                ([], LoopBreak {| resume := address;
                                  increment := uint32 (uint32 i - 1);
                                  nChannel := nChannel st;
                                  nStatus := nStatus st;
                                  nMint := S (nMint st) |})
          end
    end.

(** Lines 136-215, from the test of the condition on. *)
Fixpoint batchLoop (fuel : nat) (st : State) (i batchCount : Z)
         (proofs : list bytes) : trace * loop_exit :=
  match fuel with
  | O => ([], LoopNoFuel)
  | S fuel' =>
      if i >=? 0 then
        match GetDataTimeProof env (uint32 i) with
        | Some r =>
            let proofs := proofs ++ [frameProof i r] in
            let batchCount := int (batchCount + 1) in
            emit [EvGetDataTimeProof (uint32 i) true]
              (if (batchCount =? 200) || (i =? 0) then
                 publishBatch st i proofs
               else
                 batchLoop fuel' st (int (i - 1)) batchCount proofs)
        | None =>
            ([EvGetDataTimeProof (uint32 i) false;
              EvError "could not find data time proof for peer and increment, stopping worker";
              EvClose],
             LoopReturn (MissingRecord i))
        end
      else ([], LoopOver)
  end.

(** The loop counts down from [int(increment)], so this many tests of
    the condition are enough. *)
Definition loopFuel (i : Z) : nat := S (Z.to_nat (i + 1)).

(** ** One turn of the session loop, lines 88-217 *)

Definition countStatus (st : State) : State :=
  {| resume := resume st; increment := increment st;
     nChannel := nChannel st; nStatus := S (nStatus st); nMint := nMint st |}.

Definition countChannel (st : State) : State :=
  {| resume := resume st; increment := increment st;
     nChannel := S (nChannel st); nStatus := nStatus st; nMint := nMint st |}.

(** Lines 101-127: [inl] is the cursor to batch from, [inr] the
    [continue] after a failed status call. *)
Definition resolveResume (addr : bytes) (st : State)
  : trace * (State + State) :=
  if bytes_Equal (resume st) (make_bytes 32) then
    emit [EvStatus addr (GetPreMidnightMintStatus env (nStatus st) addr)]
      match GetPreMidnightMintStatus env (nStatus st) addr with
      | None =>
          ([EvError "got error response, waiting..."; EvSleep; EvClose],
           inr (countStatus st))
      | Some status =>
          ([], inl {| resume := statusAddress status;
                      increment :=
                        if negb (statusIncrement status =? 0)
                        then uint32 (statusIncrement status - 1)
                        else 0;
                      nChannel := nChannel st;
                      nStatus := S (nStatus st);
                      nMint := nMint st |})
      end
  else ([], inl st).

(** Line 216: a loop that is left normally is followed by [cc.Close()]
    and the next turn of the session loop. *)
Definition afterLoop (st : State) (x : trace * loop_exit) : trace * turn_exit :=
  match x with
  | (evs, LoopOver) => (evs ++ [EvClose], TurnAgain st)
  | (evs, LoopBreak st') => (evs ++ [EvClose], TurnAgain st')
  | (evs, LoopReturn o) => (evs, TurnReturn o)
  | (evs, LoopPanic) => (evs, TurnPanic)
  | (evs, LoopNoFuel) => (evs, TurnNoFuel)
  end.

(** Lines 129-216: build and submit one batch from the cursor. *)
Definition runBatch (st : State) : trace * turn_exit :=
  let proofs := freshBatch (resume st) in
  let batchCount := 0 in
  let i := int (increment st) in
  afterLoop st (batchLoop (loopFuel i) st i batchCount proofs).

Definition sessionTurn (peerId addr : bytes) (st : State)
  : trace * turn_exit :=
  if GetDirectChannel env (nChannel st) then
    emit [EvGetDirectChannel peerId true]
      match resolveResume addr (countChannel st) with
      | (evs, inr st') => (evs, TurnAgain st')
      | (evs, inl st') => emit evs (runBatch st')
      end
  else
    ([EvGetDirectChannel peerId false;
      EvInfo "could not establish direct channel, waiting...";
      EvSleep],
     TurnAgain (countChannel st)).

(** ** The worker *)

(** Lines 87-217. *)
Fixpoint sessionLoop (fuel : nat) (peerId addr : bytes) (st : State)
  : trace * result :=
  match fuel with
  | O => ([], OutOfFuel)
  | S fuel' =>
      match sessionTurn peerId addr st with
      | (evs, TurnAgain st') => emit evs (sessionLoop fuel' peerId addr st')
      | (evs, TurnReturn o) => (evs, Returned o)
      | (evs, TurnPanic) => (evs, Panicked)
      | (evs, TurnNoFuel) => (evs, OutOfFuel)
      end
  end.

(** Lines 37-44: wait until the engine is collecting. *)
Fixpoint waitForEngine (fuel : nat) (k : nat) : trace * bool :=
  match fuel with
  | O => ([], false)
  | S fuel' =>
      if engineState env k <? EngineStateCollecting env then
        emit [EvInfo "waiting for node to finish starting"; EvSleep]
          (waitForEngine fuel' (S k))
      else ([], true)
  end.

(** Lines 64-85: wait for prover tries, then ask the coin store. *)
Fixpoint checkAlreadyMinted (fuel : nat) (k : nat) (addr : bytes)
  : trace * gate_exit :=
  match fuel with
  | O => ([], GateNoFuel)
  | S fuel' =>
      if (GetFrameProverTries env k =? 0)%nat then
        emit [EvInfo "waiting for more frame info to appear"; EvSleep]
          (checkAlreadyMinted fuel' (S k) addr)
      else
        emit [EvQueryOwner addr]
          match GetPreCoinProofsForOwner env addr with
          | (_, Some ErrOther) =>
              ([EvError "error while fetching pre-coin proofs"],
               GateReturn OwnerQueryFailed)
          | (prfs, _) =>
              if negb (len prfs =? 0) then
                ([EvInfo "already completed pre-midnight mint"],
                 GateReturn AlreadyCompleted)
              else ([], GateReady)
          end
  end.

(** Line 87 and the increment of line 25: the cursor the session loop
    starts from. *)
Definition initialCursor (increment0 : Z) : State :=
  {| resume := make_bytes 32; increment := increment0;
     nChannel := O; nStatus := O; nMint := O |}.

(** Lines 22-218. *)
Definition runPreMidnightProofWorker (fuel : nat) : trace * result :=
  emit [EvInfo "checking for pre-2.0 proofs"]
    match GetLatestDataTimeProof env with
    | inr ErrNotFound =>
        ([EvInfo "could not find pre-2.0 proofs"], Returned NoLegacyProofs)
    | inr ErrOther => ([], Panicked)
    | inl increment0 =>
        match waitForEngine fuel O with
        | (evs, false) => (evs, OutOfFuel)
        | (evs, true) =>
            emit evs
              match poseidonHashBytes env (GetPeerID env) with
              | None => ([], Panicked)
              | Some addrBI =>
                  match FillBytes addrBI 32 with
                  | None => ([], Panicked)
                  | Some addr =>
                      match UnmarshalBeaconKey env with
                      | None => ([], Panicked)
                      | Some pub =>
                          match IDFromPublicKey env pub with
                          | None => ([], Panicked)
                          | Some peerId =>
                              match checkAlreadyMinted fuel O addr with
                              | (evs', GateNoFuel) => (evs', OutOfFuel)
                              | (evs', GateReturn o) => (evs', Returned o)
                              | (evs', GateReady) =>
                                  emit evs'
                                    (sessionLoop fuel peerId addr
                                       (initialCursor increment0))
                              end
                          end
                      end
                  end
              end
        end
    end.

End Worker.


(** ** Reading traces *)

(** The increments the worker asked the proof store for, in order. *)
Fixpoint lookups (tr : trace) : list Z :=
  match tr with
  | [] => []
  | EvGetDataTimeProof i _ :: tr' => i :: lookups tr'
  | _ :: tr' => lookups tr'
  end.

(** The requests the worker sent to the mint operation, in order. *)
Fixpoint submissions (tr : trace) : list MintCoinRequest :=
  match tr with
  | [] => []
  | EvHandleMint req _ :: tr' => req :: submissions tr'
  | _ :: tr' => submissions tr'
  end.

(** The status calls and the sessions opened. *)
Fixpoint statusCalls (tr : trace) : nat :=
  match tr with
  | [] => O
  | EvStatus _ _ :: tr' => S (statusCalls tr')
  | _ :: tr' => statusCalls tr'
  end.

Fixpoint sessionsOpened (tr : trace) : nat :=
  match tr with
  | [] => O
  | EvGetDirectChannel _ true :: tr' => S (sessionsOpened tr')
  | _ :: tr' => sessionsOpened tr'
  end.

Definition isFailedLookup (e : event) : bool :=
  match e with EvGetDataTimeProof _ false => true | _ => false end.

(** The events that touch neither the proof store nor the remote. *)
Definition quiet (e : event) : Prop :=
  match e with
  | EvInfo _ | EvError _ | EvSleep | EvQueryOwner _ => True
  | _ => False
  end.

(** The results the worker can reach before it opens a session. *)
Definition earlyResult (r : result) : Prop :=
  match r with
  | Returned NoLegacyProofs | Returned OwnerQueryFailed
  | Returned AlreadyCompleted | Panicked | OutOfFuel => True
  | _ => False
  end.

(** [i; i - 1; ...]: [k] increments counting down from [i]. *)
Fixpoint countdown (i : Z) (k : nat) : list Z :=
  match k with
  | O => []
  | S k' => i :: countdown (i - 1) k'
  end.

(** The resume token in force after a trace that started with [tok]: the
    address of the latest answer of the remote. *)
Fixpoint tokenAfter (tok : bytes) (tr : trace) : bytes :=
  match tr with
  | [] => tok
  | EvStatus _ (Some s) :: tr' => tokenAfter (statusAddress s) tr'
  | EvHandleMint _ (Some a) :: tr' => tokenAfter a tr'
  | _ :: tr' => tokenAfter tok tr'
  end.

(** The discipline of the resume cursor along a trace: the status
    operation is called only while the token in force is the all-zero
    sentinel, and every batch sent carries the token in force as its
    second entry. *)
Fixpoint followsCursor (tok : bytes) (tr : trace) : Prop :=
  match tr with
  | [] => True
  | EvStatus owner resp :: tr' =>
      tok = make_bytes 32 /\
      followsCursor (tokenAfter tok [EvStatus owner resp]) tr'
  | EvHandleMint req resp :: tr' =>
      nth_error (reqProofs req) 1 = Some tok /\
      followsCursor (tokenAfter tok [EvHandleMint req resp]) tr'
  | _ :: tr' => followsCursor tok tr'
  end.

Definition isOwnerQuery (e : event) : bool :=
  match e with EvQueryOwner _ => true | _ => false end.

(** What the answer of the coin store for [a] makes of the worker that
    ends at the gate: a failed query or an owned proof. *)
Definition gateVerdict (env : Env) (a : bytes) (tr : trace) (r : result) : Prop :=
  let owned := GetPreCoinProofsForOwner env a in
  (snd owned = Some ErrOther /\ r = Returned OwnerQueryFailed /\
   In (EvError "error while fetching pre-coin proofs") tr)
  \/ (snd owned <> Some ErrOther /\ fst owned <> [] /\
      r = Returned AlreadyCompleted).

(** Every record from [n] down to 0 is in the store. *)
Definition presentUpTo (env : Env) (n : Z) : Prop :=
  forall i, 0 <= i <= n -> GetDataTimeProof env i <> None.

(** The worker gets to the session loop: it has a latest proof, the
    engine comes to collect and prover tries appear while the fuel lasts,
    its address and the peer id of the beacon can be computed, and the
    coin store has no proof for the address. *)
Definition gatePasses (env : Env) (fuel : nat) (inc : Z)
           (peerId addr : bytes) : Prop :=
  GetLatestDataTimeProof env = inl inc /\
  (exists k, (k < fuel)%nat /\
             (forall j, (j < k)%nat ->
                        engineState env j < EngineStateCollecting env) /\
             EngineStateCollecting env <= engineState env k) /\
  (exists addrBI, poseidonHashBytes env (GetPeerID env) = Some addrBI /\
                  FillBytes addrBI 32 = Some addr) /\
  (exists pub, UnmarshalBeaconKey env = Some pub /\
               IDFromPublicKey env pub = Some peerId) /\
  (exists k, (k < fuel)%nat /\
             (forall j, (j < k)%nat -> GetFrameProverTries env j = O) /\
             GetFrameProverTries env k <> O) /\
  fst (GetPreCoinProofsForOwner env addr) = [] /\
  snd (GetPreCoinProofsForOwner env addr) <> Some ErrOther.

(** A trace without a query of the coin store. *)
Definition sessionOnly (tr : trace) : Prop :=
  Forall (fun e => isOwnerQuery e = false) tr.

(** What a session does while it is collecting a batch: a status call
    that was answered, and lookups that found their record. *)
Definition collecting (e : event) : Prop :=
  match e with
  | EvStatus _ (Some _) | EvGetDataTimeProof _ true => True
  | _ => False
  end.

Definition noFailedLookup (tr : trace) : Prop :=
  Forall (fun e => isFailedLookup e = false) tr.

(** The events that are not calls of the remote. *)
Definition isRemoteCall (e : event) : bool :=
  match e with
  | EvStatus _ _ | EvHandleMint _ _ => true
  | _ => false
  end.

(** ** The wire format, as the interface description gives it *)

Definition be32 (v : Z) : bytes :=
  [ byte_of (v / 2 ^ 24); byte_of (v / 2 ^ 16); byte_of (v / 2 ^ 8); byte_of v ].

Definition be64 (v : Z) : bytes :=
  [ byte_of (v / 2 ^ 56); byte_of (v / 2 ^ 48); byte_of (v / 2 ^ 40);
    byte_of (v / 2 ^ 32); byte_of (v / 2 ^ 24); byte_of (v / 2 ^ 16);
    byte_of (v / 2 ^ 8); byte_of v ].

(** [uint32(increment) || uint32(parallelism) || uint64(len(input)) ||
    input || uint64(len(output)) || output]. *)
Definition wireFrame (i : Z) (r : DataTimeProof) : bytes :=
  be32 i ++ be32 (dtpParallelism r)
  ++ be64 (Z.of_nat (List.length (dtpInput r))) ++ dtpInput r
  ++ be64 (Z.of_nat (List.length (dtpOutput r))) ++ dtpOutput r.

(** The frames of the records stored at [i, i - 1, ...], [k] of them. *)
Fixpoint wireFrames (store : Z -> option DataTimeProof) (i : Z) (k : nat)
  : option (list bytes) :=
  match k with
  | O => Some []
  | S k' =>
      match store i, wireFrames store (i - 1) k' with
      | Some r, Some fs => Some (wireFrame i r :: fs)
      | _, _ => None
      end
  end.

(** The tag, the token, then [k] frames counting down from [i]. *)
Definition batchOf (store : Z -> option DataTimeProof) (tok : bytes)
           (i : Z) (k : nat) (proofs : list bytes) : Prop :=
  exists fs, wireFrames store i k = Some fs /\
             proofs = bytes_of_string "pre-dusk" :: tok :: fs.

(** A batch as the worker sends it: the tag, a token that satisfies
    [tokOK], then between 1 and 200 frames counting down from an increment
    [i], closed because it is full or because it reached increment 0. *)
Definition batchWellFormed (store : Z -> option DataTimeProof)
           (tokOK : bytes -> Prop) (proofs : list bytes) : Prop :=
  exists tok i k,
    tokOK tok /\ is_uint32 i /\ (1 <= k <= 200)%nat /\
    0 <= i - Z.of_nat k + 1 /\
    (k = 200%nat \/ i - Z.of_nat k + 1 = 0) /\
    batchOf store tok i k proofs.

(** What is signed and what is sent. *)
Definition submissionOK (env : Env) (tokOK : bytes -> Prop) (e : event) : Prop :=
  match e with
  | EvSignMessage payload =>
      exists proofs,
        batchWellFormed (GetDataTimeProof env) tokOK proofs /\
        payload = bytes_of_string "mint" ++ List.concat proofs
  | EvHandleMint req _ =>
      batchWellFormed (GetDataTimeProof env) tokOK (reqProofs req) /\
      reqPublicKey req = GetPublicKey env /\
      SignMessage env (bytes_of_string "mint" ++ List.concat (reqProofs req))
      = Some (reqSignature req)
  | _ => True
  end.

(** The remote answers with addresses that satisfy [tokOK]. *)
Definition remoteAnswers (env : Env) (tokOK : bytes -> Prop) : Prop :=
  (forall k owner s,
      GetPreMidnightMintStatus env k owner = Some s -> tokOK (statusAddress s))
  /\ (forall k req a, HandlePreMidnightMint env k req = Some a -> tokOK a).

(** The increment a framed proof starts with. *)
Definition frameIncrement (p : bytes) : option Z := BigEndian.Uint32 p.

Definition batchIncrements (req : MintCoinRequest) : list (option Z) :=
  map frameIncrement (skipn 2 (reqProofs req)).

(** ** The batch loop, read as a relation *)

(** The events of successful lookups at [i, i - 1, ...]. *)
Definition foundEvents (i : Z) (k : nat) : trace :=
  map (fun j => EvGetDataTimeProof j true) (countdown i k).

(** What the loop does when the record at [i] is absent, lines 152-158. *)
Definition missingEvents (i : Z) : trace :=
  [EvGetDataTimeProof i false;
   EvError "could not find data time proof for peer and increment, stopping worker";
   EvClose].

Section BatchRelation.

Variable env : Env.

(** The request that [publishBatch] sends for a batch and its signature. *)
Definition mintRequest (proofs : list bytes) (sig : bytes) : MintCoinRequest :=
  {| reqProofs := proofs; reqPublicKey := GetPublicKey env; reqSignature := sig |}.

(** The loop without the machine integers: it reads downwards from [i]
    until a record is absent, the batch is full, or increment 0 is read. *)
Inductive BatchRun (st : State)
  : Z -> Z -> list bytes -> trace -> loop_exit -> Prop :=
| BatchMissing i c proofs :
    0 <= i ->
    GetDataTimeProof env i = None ->
    BatchRun st i c proofs (missingEvents i) (LoopReturn (MissingRecord i))
| BatchPublish i c proofs r :
    0 <= i ->
    GetDataTimeProof env i = Some r ->
    c + 1 = 200 \/ i = 0 ->
    BatchRun st i c proofs
      (EvGetDataTimeProof i true
         :: fst (publishBatch env st i (proofs ++ [frameProof i r])))
      (snd (publishBatch env st i (proofs ++ [frameProof i r])))
| BatchNext i c proofs r tr ex :
    0 < i ->
    GetDataTimeProof env i = Some r ->
    c + 1 <> 200 ->
    BatchRun st (i - 1) (c + 1) (proofs ++ [frameProof i r]) tr ex ->
    BatchRun st i c proofs (EvGetDataTimeProof i true :: tr) ex.

(** What [publishBatch] does first, lines 163-169. *)
Definition announceEvents (proofs : list bytes) : trace :=
  [EvInfo "publishing proof batch"; EvSignMessage (mintPayload proofs)].

(** A batch of [k] records counting down from [n] is closed: it is full,
    or its last record is the one at increment 0. *)
Definition closesAt (n : Z) (k : nat) : Prop :=
  Z.of_nat k = Z.min 200 (n + 1).

Definition afterMint (st : State) (tok : bytes) (inc : Z) : State :=
  {| resume := tok; increment := inc; nChannel := nChannel st;
     nStatus := nStatus st; nMint := S (nMint st) |}.

(** One pass over lines 129-216 from the cursor [st]: the five ways it
    can go. *)
Inductive BatchOutcome (st : State) : trace -> turn_exit -> Prop :=
| OutcomeMissing k fs :
    wireFrames (GetDataTimeProof env) (increment st) k = Some fs ->
    Z.of_nat k < Z.min 200 (increment st + 1) ->
    GetDataTimeProof env (increment st - Z.of_nat k) = None ->
    BatchOutcome st
      (foundEvents (increment st) k
         ++ missingEvents (increment st - Z.of_nat k))
      (TurnReturn (MissingRecord (increment st - Z.of_nat k)))
| OutcomeSignFails k fs :
    wireFrames (GetDataTimeProof env) (increment st) k = Some fs ->
    closesAt (increment st) k ->
    SignMessage env (mintPayload (freshBatch (resume st) ++ fs)) = None ->
    BatchOutcome st
      (foundEvents (increment st) k
         ++ announceEvents (freshBatch (resume st) ++ fs) ++ [EvClose])
      TurnPanic
| OutcomeMintFails k fs sig :
    wireFrames (GetDataTimeProof env) (increment st) k = Some fs ->
    closesAt (increment st) k ->
    SignMessage env (mintPayload (freshBatch (resume st) ++ fs)) = Some sig ->
    HandlePreMidnightMint env (nMint st)
      (mintRequest (freshBatch (resume st) ++ fs) sig) = None ->
    BatchOutcome st
      (foundEvents (increment st) k
         ++ announceEvents (freshBatch (resume st) ++ fs)
         ++ [EvHandleMint (mintRequest (freshBatch (resume st) ++ fs) sig) None;
             EvError "got error response, waiting..."; EvClose; EvSleep;
             EvClose])
      (TurnAgain (afterMint st (resume st) (increment st)))
| OutcomeSubmitted k fs sig a :
    wireFrames (GetDataTimeProof env) (increment st) k = Some fs ->
    closesAt (increment st) k ->
    increment st - Z.of_nat k + 1 = 0 ->
    SignMessage env (mintPayload (freshBatch (resume st) ++ fs)) = Some sig ->
    HandlePreMidnightMint env (nMint st)
      (mintRequest (freshBatch (resume st) ++ fs) sig) = Some a ->
    BatchOutcome st
      (foundEvents (increment st) k
         ++ announceEvents (freshBatch (resume st) ++ fs)
         ++ [EvHandleMint (mintRequest (freshBatch (resume st) ++ fs) sig)
               (Some a);
             EvInfo "pre-midnight proofs submitted, returning"; EvClose])
      (TurnReturn Submitted)
| OutcomeMore k fs sig a :
    wireFrames (GetDataTimeProof env) (increment st) k = Some fs ->
    closesAt (increment st) k ->
    increment st - Z.of_nat k + 1 <> 0 ->
    SignMessage env (mintPayload (freshBatch (resume st) ++ fs)) = Some sig ->
    HandlePreMidnightMint env (nMint st)
      (mintRequest (freshBatch (resume st) ++ fs) sig) = Some a ->
    BatchOutcome st
      (foundEvents (increment st) k
         ++ announceEvents (freshBatch (resume st) ++ fs)
         ++ [EvHandleMint (mintRequest (freshBatch (resume st) ++ fs) sig)
               (Some a);
             EvClose])
      (TurnAgain (afterMint st a (increment st - Z.of_nat k))).

(** The cursor after the status step, lines 101-127. *)
Definition afterStatus (st : State) (s : MintStatus) : State :=
  {| resume := statusAddress s;
     increment := if statusIncrement s =? 0 then 0
                  else uint32 (statusIncrement s - 1);
     nChannel := nChannel st; nStatus := S (nStatus st); nMint := nMint st |}.

(** One turn of the session loop, lines 88-217. *)
Inductive TurnRun (peerId addr : bytes) (st : State)
  : trace -> turn_exit -> Prop :=
| TurnNoChannel :
    GetDirectChannel env (nChannel st) = false ->
    TurnRun peerId addr st
      [EvGetDirectChannel peerId false;
       EvInfo "could not establish direct channel, waiting...";
       EvSleep]
      (TurnAgain (countChannel st))
| TurnNoStatus :
    GetDirectChannel env (nChannel st) = true ->
    resume st = make_bytes 32 ->
    GetPreMidnightMintStatus env (nStatus st) addr = None ->
    TurnRun peerId addr st
      [EvGetDirectChannel peerId true; EvStatus addr None;
       EvError "got error response, waiting..."; EvSleep; EvClose]
      (TurnAgain (countStatus (countChannel st)))
| TurnStatus s tr ex :
    GetDirectChannel env (nChannel st) = true ->
    resume st = make_bytes 32 ->
    GetPreMidnightMintStatus env (nStatus st) addr = Some s ->
    BatchOutcome (afterStatus (countChannel st) s) tr ex ->
    TurnRun peerId addr st
      (EvGetDirectChannel peerId true :: EvStatus addr (Some s) :: tr) ex
| TurnCarried tr ex :
    GetDirectChannel env (nChannel st) = true ->
    resume st <> make_bytes 32 ->
    BatchOutcome (countChannel st) tr ex ->
    TurnRun peerId addr st (EvGetDirectChannel peerId true :: tr) ex.

(** The session loop, lines 87-217, as far as the fuel reaches. *)
Inductive SessionRun (peerId addr : bytes) : State -> trace -> result -> Prop :=
| SessionStopped st :
    SessionRun peerId addr st [] OutOfFuel
| SessionAgain st tr st' tr' r :
    TurnRun peerId addr st tr (TurnAgain st') ->
    SessionRun peerId addr st' tr' r ->
    SessionRun peerId addr st (tr ++ tr') r
| SessionReturn st tr o :
    TurnRun peerId addr st tr (TurnReturn o) ->
    SessionRun peerId addr st tr (Returned o)
| SessionPanic st tr :
    TurnRun peerId addr st tr TurnPanic ->
    SessionRun peerId addr st tr Panicked.

(** A cursor the loop can batch from: the increment is a [uint32], or the
    token is the sentinel and the status step will set it. *)
Definition cursorOK (st : State) : Prop :=
  is_uint32 (increment st) \/ resume st = make_bytes 32.

End BatchRelation.

(** ** Sample surroundings, for the concrete runs below *)

Definition sampleProof (i : Z) : DataTimeProof :=
  {| dtpParallelism := 4; dtpInput := [byte_of i; x01]; dtpOutput := [x02] |}.

(** A store that holds the increments [0..top]. *)
Definition denseStore (top i : Z) : option DataTimeProof :=
  if (0 <=? i) && (i <=? top) then Some (sampleProof i) else None.

(** A 32-byte address that starts with [b]. *)
Definition tokenOf (b : byte) : bytes := b :: repeat x00 31.

Definition sampleHash (b : bytes) : option Z := Some (len b + 7).

Definition sampleEnv (store : Z -> option DataTimeProof) (latest : Z)
           (owned : list PreCoinProof * option store_error)
           (status : nat -> option MintStatus)
           (mint : nat -> option bytes) : Env :=
  {| GetPeerID := [x51]; GetPublicKey := [x50];
     GetLatestDataTimeProof := inl latest;
     engineState := fun k => Z.of_nat k; EngineStateCollecting := 1;
     poseidonHashBytes := sampleHash;
     UnmarshalBeaconKey := Some [x42];
     IDFromPublicKey := fun b => Some b;
     GetFrameProverTries := fun k => k;
     GetPreCoinProofsForOwner := fun _ => owned;
     GetDirectChannel := fun _ => true;
     GetPreMidnightMintStatus := fun k _ => status k;
     GetDataTimeProof := store;
     SignMessage := fun p => Some [x53];
     HandlePreMidnightMint := fun k _ => mint k |}.

Definition notOwned : list PreCoinProof * option store_error :=
  ([], Some ErrNotFound).

Definition sampleStatus : MintStatus :=
  {| statusAddress := tokenOf x09; statusIncrement := 3 |}.

(** A cursor in the middle of a migration. *)
Definition sampleCursor : State :=
  {| resume := tokenOf x09; increment := 3;
     nChannel := O; nStatus := O; nMint := O |}.

(** The address the sample surroundings derive for [GetPeerID]. *)
Definition sampleAddr : bytes := be_bytes 32 8.

Definition zeroStatus : MintStatus :=
  {| statusAddress := make_bytes 32; statusIncrement := 201 |}.

(** Proofs at [0..5]; the status answer carries increment 3. *)
Definition env5 : Env :=
  sampleEnv (denseStore 5) 5 notOwned
    (fun _ => Some sampleStatus)
    (fun _ => Some (tokenOf x0a)).

(** Proofs at [0..200]; the status answer carries the all-zero address and
    increment 201, the mint answers carry a proper address. *)
Definition envZeroStatus : Env :=
  sampleEnv (denseStore 200) 200 notOwned
    (fun _ => Some zeroStatus)
    (fun _ => Some (tokenOf x0a)).

(** Proofs at [0..5] except 1. *)
Definition envGap : Env :=
  sampleEnv (fun i => if i =? 1 then None else denseStore 5 i) 5 notOwned
    (fun _ => Some {| statusAddress := tokenOf x09; statusIncrement := 4 |})
    (fun _ => Some (tokenOf x0a)).

(** The coin store already holds a proof for the address. *)
Definition sampleCoin : PreCoinProof :=
  {| Amount := [x01]; Index := 0; IndexProof := []; Commitment := [];
     Proof := []; Parallelism := 1; Difficulty := 1;
     Owner := Some (ImplicitAccount (tokenOf x07)) |}.

(** A proof whose index proof and commitment differ, and join to the same
    bytes in either order. *)
Definition sampleProofFields : PreCoinProof :=
  {| Amount := [x05]; Index := 1; IndexProof := [x01];
     Commitment := [x01; x01]; Proof := [x02]; Parallelism := 4;
     Difficulty := 9; Owner := Some (ImplicitAccount (tokenOf x07)) |}.

Definition envOwned : Env :=
  sampleEnv (denseStore 5) 5 ([sampleCoin], None)
    (fun _ => None) (fun _ => None).

(** ** More readings of traces *)

(** The discipline of the session handle along a trace, [open] telling
    whether a session is open: a session is opened only while none is
    open, and the remote is called only on an open session.  Closing is
    allowed at any time. *)
Fixpoint sessionDiscipline (open : bool) (tr : trace) : Prop :=
  match tr with
  | [] => True
  | EvGetDirectChannel _ ok :: tr' =>
      open = false /\ sessionDiscipline ok tr'
  | EvClose :: tr' => sessionDiscipline false tr'
  | EvStatus _ _ :: tr' => open = true /\ sessionDiscipline open tr'
  | EvHandleMint _ _ :: tr' => open = true /\ sessionDiscipline open tr'
  | _ :: tr' => sessionDiscipline open tr'
  end.

(** Whether a session is open after a trace. *)
Fixpoint openAfter (open : bool) (tr : trace) : bool :=
  match tr with
  | [] => open
  | EvGetDirectChannel _ ok :: tr' => openAfter ok tr'
  | EvClose :: tr' => openAfter false tr'
  | _ :: tr' => openAfter open tr'
  end.

(** The events that neither open nor close a session nor call the remote. *)
Definition keepsSession (e : event) : bool :=
  match e with
  | EvGetDirectChannel _ _ | EvClose | EvStatus _ _ | EvHandleMint _ _ => false
  | _ => true
  end.

(** The surroundings [env] with another answer of
    [GetLatestDataTimeProof]. *)
Definition withLatest (env : Env) (latest : Z + store_error) : Env :=
  {| GetPeerID := GetPeerID env;
     GetPublicKey := GetPublicKey env;
     GetLatestDataTimeProof := latest;
     engineState := engineState env;
     EngineStateCollecting := EngineStateCollecting env;
     poseidonHashBytes := poseidonHashBytes env;
     UnmarshalBeaconKey := UnmarshalBeaconKey env;
     IDFromPublicKey := IDFromPublicKey env;
     GetFrameProverTries := GetFrameProverTries env;
     GetPreCoinProofsForOwner := GetPreCoinProofsForOwner env;
     GetDirectChannel := GetDirectChannel env;
     GetPreMidnightMintStatus := GetPreMidnightMintStatus env;
     GetDataTimeProof := GetDataTimeProof env;
     SignMessage := SignMessage env;
     HandlePreMidnightMint := HandlePreMidnightMint env |}.

(** The framed proofs of every batch sent, in the order they were sent:
    each batch without its tag and its token. *)
Definition sentFrames (tr : trace) : list bytes :=
  List.concat (map (fun req => skipn 2 (reqProofs req)) (submissions tr)).

(** Proofs at [0..450], and a cursor at the top of them. *)
Definition env450 : Env :=
  sampleEnv (denseStore 450) 450 notOwned
    (fun _ => Some {| statusAddress := tokenOf x09; statusIncrement := 451 |})
    (fun _ => Some (tokenOf x0a)).

Definition cursor450 : State :=
  {| resume := tokenOf x09; increment := 450;
     nChannel := O; nStatus := O; nMint := O |}.

(** Proofs at [0..5]; the first mint call fails, the later ones succeed. *)
Definition envRetry : Env :=
  sampleEnv (denseStore 5) 5 notOwned
    (fun _ => Some sampleStatus)
    (fun k => match k with O => None | S _ => Some (tokenOf x0a) end).

(** The batch for the records at 3, 2, 1, 0 under the sample token. *)
Definition sampleRequest : MintCoinRequest :=
  {| reqProofs := [bytes_of_string "pre-dusk"; tokenOf x09;
                   wireFrame 3 (sampleProof 3); wireFrame 2 (sampleProof 2);
                   wireFrame 1 (sampleProof 1); wireFrame 0 (sampleProof 0)];
     reqPublicKey := [x50];
     reqSignature := [x53] |}.

(** Whom an event is addressed to: the coin store and the status
    operation are asked about the 32-byte address derived from the peer
    id (lines 46-51), and channels are opened to the peer id of the
    genesis beacon (lines 53-62). *)
Definition addressedRight (env : Env) (e : event) : Prop :=
  match e with
  | EvQueryOwner a | EvStatus a _ =>
      exists h, poseidonHashBytes env (GetPeerID env) = Some h /\
                FillBytes h 32 = Some a /\
                List.length a = 32%nat
  | EvGetDirectChannel p _ =>
      exists pub, UnmarshalBeaconKey env = Some pub /\
                  IDFromPublicKey env pub = Some p
  | _ => True
  end.

(** The same for one session loop, run for [peerId] and [addr]. *)
Definition addressedTo (peerId addr : bytes) (e : event) : Prop :=
  match e with
  | EvQueryOwner a | EvStatus a _ => a = addr
  | EvGetDirectChannel p _ => p = peerId
  | _ => True
  end.

(** What the last events and the store say for each way the session loop
    can end. *)
Definition outcomeHolds (env : Env) (tr : trace) (r : result) : Prop :=
  match r with
  | Returned Submitted =>
      exists pre req a r0,
        tr = pre ++ [EvHandleMint req (Some a);
                     EvInfo "pre-midnight proofs submitted, returning";
                     EvClose] /\
        GetDataTimeProof env 0 = Some r0 /\
        last (reqProofs req) [] = wireFrame 0 r0
  | Returned (MissingRecord i) =>
      exists pre, tr = pre ++ missingEvents i /\ GetDataTimeProof env i = None
  | Returned _ => False
  | Panicked =>
      exists pre payload,
        tr = pre ++ [EvSignMessage payload; EvClose] /\
        SignMessage env payload = None
  | OutOfFuel => True
  end.

(** Every payload the trace signs is one the signer accepts. *)
Definition signedFine (env : Env) (tr : trace) : Prop :=
  Forall (fun e => match e with
                   | EvSignMessage p => SignMessage env p <> None
                   | _ => True
                   end) tr.

(** A record whose fields fit the fixed-width integers of its frame. *)
Definition framable (r : DataTimeProof) : Prop :=
  is_uint32 (dtpParallelism r) /\
  Z.of_nat (List.length (dtpInput r)) < 2 ^ 64 /\
  Z.of_nat (List.length (dtpOutput r)) < 2 ^ 64.

(** An increment and its record, and the frame lines 142-148 make of them. *)
Definition framableEntry (x : Z * DataTimeProof) : Prop :=
  is_uint32 (fst x) /\ framable (snd x).

Definition frameOf (x : Z * DataTimeProof) : bytes :=
  frameProof (fst x) (snd x).

(** The cursor after the first batch of 200 from [cursor450] was accepted. *)
Definition cursor250 : State :=
  {| resume := tokenOf x0a; increment := 250;
     nChannel := 1%nat; nStatus := O; nMint := 1%nat |}.

(** The surroundings [env] with another signer. *)
Definition withSignMessage (env : Env) (sign : bytes -> option bytes) : Env :=
  {| GetPeerID := GetPeerID env;
     GetPublicKey := GetPublicKey env;
     GetLatestDataTimeProof := GetLatestDataTimeProof env;
     engineState := engineState env;
     EngineStateCollecting := EngineStateCollecting env;
     poseidonHashBytes := poseidonHashBytes env;
     UnmarshalBeaconKey := UnmarshalBeaconKey env;
     IDFromPublicKey := IDFromPublicKey env;
     GetFrameProverTries := GetFrameProverTries env;
     GetPreCoinProofsForOwner := GetPreCoinProofsForOwner env;
     GetDirectChannel := GetDirectChannel env;
     GetPreMidnightMintStatus := GetPreMidnightMintStatus env;
     GetDataTimeProof := GetDataTimeProof env;
     SignMessage := sign;
     HandlePreMidnightMint := HandlePreMidnightMint env |}.

(** Proofs at [0..5] and a signer that refuses every payload. *)
Definition envNoSigner : Env := withSignMessage env5 (fun _ => None).

(** The payload of the batch for the records at 2, 1, 0 under the sample
    token. *)
Definition samplePayload : bytes :=
  mintPayload (freshBatch (tokenOf x09)
               ++ map frameOf [(2, sampleProof 2); (1, sampleProof 1);
                               (0, sampleProof 0)]).

(** [k] rounds of a wait: the log line and the 10-second sleep. *)
Definition waits (msg : string) (k : nat) : trace :=
  List.concat (repeat [EvInfo msg; EvSleep] k).

(** * The transfer command of client/cmd

    A shallow embedding of the [Run] function of [transferCmd] in
    [transfer.go].  Go strings are [list byte]; the node connection, the
    key of the configuration, the terminal and the node service are the
    fields of an environment record, and what the command does is the
    trace it returns. *)

Module Transfer.

(** ** strings *)

(** [strings.HasPrefix(s, prefix)]. *)
Fixpoint HasPrefix (s prefix : bytes) {struct prefix} : bool :=
  match prefix, s with
  | [], _ => true
  | p :: prefix', c :: s' => Byte.eqb c p && HasPrefix s' prefix'
  | _ :: _, [] => false
  end.

(** [strings.CutPrefix(s, prefix)]: [s] without the leading [prefix], and
    whether it was there. *)
Definition CutPrefix (s prefix : bytes) : bytes * bool :=
  if HasPrefix s prefix then (skipn (List.length prefix) s, true)
  else (s, false).

(** [strings.ToLower] on the bytes of a string: the letters [A] to [Z] are
    moved to [a] to [z].  Bytes outside ASCII are kept here; the command
    only compares the result with ["yes"], which neither this function nor
    Go's gives for a string that holds such a byte. *)
Definition lowerByte (c : byte) : byte :=
  let v := Z_of_byte c in
  if (65 <=? v) && (v <=? 90) then byte_of (v + 32) else c.

Definition ToLower (s : bytes) : bytes := map lowerByte s.

(** ** encoding/hex and the verb [%x] *)

(** The value of a hexadecimal digit, of either case. *)
Definition fromHexChar (c : byte) : option Z :=
  let v := Z_of_byte c in
  if (48 <=? v) && (v <=? 57) then Some (v - 48)
  else if (97 <=? v) && (v <=? 102) then Some (v - 97 + 10)
  else if (65 <=? v) && (v <=? 70) then Some (v - 65 + 10)
  else None.

(** [hex.DecodeString]: two digits give a byte; a character that is no
    digit or an odd length is an error ([None]). *)
Fixpoint DecodeString (s : bytes) : option bytes :=
  match s with
  | [] => Some []
  | [_] => None
  | p :: q :: rest =>
      match fromHexChar p, fromHexChar q with
      | Some a, Some b =>
          match DecodeString rest with
          | Some dst => Some (byte_of (Z.lor (Z.shiftl a 4) b) :: dst)
          | None => None
          end
      | _, _ => None
      end
  end.

Definition hextable : bytes := bytes_of_string "0123456789abcdef".

(** What [fmt] prints for a byte slice under [%x]: two lower-case digits
    for each byte. *)
Definition fmtHexByte (c : byte) : bytes :=
  let v := Z_of_byte c in
  [nth (Z.to_nat (Z.shiftr v 4)) hextable x00;
   nth (Z.to_nat (Z.land v 15)) hextable x00].

Definition fmtHex (b : bytes) : bytes := flat_map fmtHexByte b.

(** Whether the two digits printed for [c] decode to [c]. *)
Definition decodesBack (c : byte) : bool :=
  match fmtHexByte c with
  | [p; q] =>
      match fromHexChar p, fromHexChar q with
      | Some a, Some b => Byte.eqb (byte_of (Z.lor (Z.shiftl a 4) b)) c
      | _, _ => false
      end
  | _ => false
  end.

(** ** The surroundings of the command *)

(** The request built at lines 84-103, the nesting of the literal
    flattened: the address of [OfCoin], the account [ToAccount], and the
    signature with the key value of its public key. *)
Record TransferCoinRequest : Type := {
  OfCoin : bytes;
  ToAccount : AccountRef;
  Signature : bytes;
  PublicKey : bytes
}.

(** The key of the configuration: [key.Sign] and [key.GetPublic().Raw()],
    each may fail. *)
Record PrivKey : Type := {
  Sign : bytes -> option bytes;
  Raw : option bytes
}.

Record Env : Type := {
  (** [GetGRPCClient()]: whether a connection is returned *)
  GetGRPCClient : bool;
  (** [GetPrivKeyFromConfig(NodeConfig)] *)
  GetPrivKeyFromConfig : option PrivKey;
  (** what [fmt.Scanln(&response)] leaves in [response] *)
  Scanln : bytes;
  (** [client.SendMessage]: whether the call returns without error *)
  SendMessage : TransferCoinRequest -> bool
}.

Inductive event : Type :=
| EvGetGRPCClient (ok : bool)
| EvGetPrivKey (ok : bool)
| EvPrint (out : bytes)
| EvScanln (response : bytes)
| EvSign (payload : bytes) (sig : option bytes)
| EvRaw (pub : option bytes)
| EvSendMessage (req : TransferCoinRequest) (ok : bool)
| EvConnClose.

Definition trace := list event.

(** How [Run] ends: after the last line, at the [return] of line 69, or
    in a panic. *)
Inductive exit : Type :=
| Completed
| Cancelled
| Panicked.

Definition emit (evs : trace) (x : trace * exit) : trace * exit :=
  (evs ++ fst x, snd x).

(** [defer conn.Close()]: the call runs when the function returns and
    when it panics. *)
Definition deferClose (x : trace * exit) : trace * exit :=
  (fst x ++ [EvConnClose], snd x).

(** ** The command *)

(** The variables the loop of lines 41-55 assigns; [coinaddr] is [None]
    for the nil pointer. *)
Record vars : Type := {
  coinaddr : option bytes;
  payload : bytes;
  toaddr : bytes
}.

Definition initVars : vars :=
  {| coinaddr := None; payload := bytes_of_string "transfer"; toaddr := [] |}.

(** An argument as the loop reads it (lines 42-43). *)
Definition decodeArg (arg : bytes) : option bytes :=
  let addrHex := fst (CutPrefix arg (bytes_of_string "0x")) in
  DecodeString addrHex.

(** [for i, arg := range args], from index [i]; [None] is the panic of
    line 45. *)
Fixpoint rangeArgs (i : nat) (args : list bytes) (v : vars) : option vars :=
  match args with
  | [] => Some v
  | arg :: rest =>
      match decodeArg arg with
      | None => None
      | Some addr =>
          if Nat.eqb i 0 then
            rangeArgs (S i) rest
              {| coinaddr := coinaddr v; payload := payload v;
                 toaddr := addr |}
          else
            rangeArgs (S i) rest
              {| coinaddr := Some addr; payload := payload v ++ addr;
                 toaddr := toaddr v |}
      end
  end.

Definition newline : bytes := [x0a].

(** Lines 59-62, given the address of [coinaddr]. *)
Definition promptLines (to coin : bytes) : trace :=
  [EvPrint (newline ++ bytes_of_string "Transaction Details:" ++ newline);
   EvPrint (bytes_of_string "To Address: 0x" ++ fmtHex to ++ newline);
   EvPrint (bytes_of_string "Coin Address: 0x" ++ fmtHex coin ++ newline);
   EvPrint (newline ++ bytes_of_string
              "Do you want to proceed with this transaction? (yes/no): ")].

Definition transferRequest (coin to sig pub : bytes) : TransferCoinRequest :=
  {| OfCoin := coin; ToAccount := ImplicitAccount to;
     Signature := sig; PublicKey := pub |}.

(** Lines 72-109. *)
Definition signAndSend (env : Env) (key : PrivKey) (v : vars) (coin : bytes)
  : trace * exit :=
  match Sign key (payload v) with
  | None => ([EvSign (payload v) None], Panicked)
  | Some sig =>
      emit [EvSign (payload v) (Some sig)]
        match Raw key with
        | None => ([EvRaw None], Panicked)
        | Some pub =>
            emit [EvRaw (Some pub)]
              (let req := transferRequest coin (toaddr v) sig pub in
               if SendMessage env req then
                 ([EvSendMessage req true;
                   EvPrint (bytes_of_string
                              "Transaction completed successfully."
                            ++ newline)],
                  Completed)
               else ([EvSendMessage req false], Panicked))
        end
  end.

(** Lines 37-109. *)
Definition withKey (env : Env) (key : PrivKey) (args : list bytes)
  : trace * exit :=
  match rangeArgs 0 args initVars with
  | None => ([], Panicked)
  | Some v =>
      let v := {| coinaddr := coinaddr v; payload := payload v ++ toaddr v;
                  toaddr := toaddr v |} in
      match coinaddr v with
      | None =>
          (* [coinaddr.Address] through the nil pointer, after two lines
             were printed *)
          (firstn 2 (promptLines (toaddr v) []), Panicked)
      | Some coin =>
          emit (promptLines (toaddr v) coin ++ [EvScanln (Scanln env)])
            (if bytes_Equal (ToLower (Scanln env)) (bytes_of_string "yes")
             then signAndSend env key v coin
             else ([EvPrint (bytes_of_string "Transaction cancelled by user."
                             ++ newline)],
                   Cancelled))
      end
  end.

(** The function [Run] of [transferCmd], lines 20-110. *)
Definition Run (env : Env) (args : list bytes) : trace * exit :=
  if negb (Nat.eqb (List.length args) 2) then ([], Panicked)
  else if GetGRPCClient env then
    emit [EvGetGRPCClient true]
      (deferClose
         match GetPrivKeyFromConfig env with
         | None => ([EvGetPrivKey false], Panicked)
         | Some key => emit [EvGetPrivKey true] (withKey env key args)
         end)
  else ([EvGetGRPCClient false], Panicked).

(** ** Readings of traces *)

(** The payloads handed to [key.Sign], in order. *)
Fixpoint signed (tr : trace) : list bytes :=
  match tr with
  | [] => []
  | EvSign p _ :: tr' => p :: signed tr'
  | _ :: tr' => signed tr'
  end.

(** The events that neither obtain nor close the connection. *)
Definition keepsConn (e : event) : Prop :=
  match e with
  | EvGetGRPCClient _ | EvConnClose => False
  | _ => True
  end.

(** The address of an account reference. *)
Definition accountAddress (a : AccountRef) : bytes :=
  match a with
  | ImplicitAccount b | OriginatedAccount b => b
  end.

(** ** The shapes of a run *)

(** The payload of lines 38, 54 and 56: the tag, the coin, the recipient. *)
Definition transferPayload (coin to : bytes) : bytes :=
  bytes_of_string "transfer" ++ coin ++ to.

Definition yes : bytes := bytes_of_string "yes".

(** What follows the answer at the prompt, for the key [key], the
    recipient [to] and the coin [coin]. *)
Inductive Answered (env : Env) (key : PrivKey) (to coin : bytes)
  : trace -> exit -> Prop :=
| AnsCancelled :
    ToLower (Scanln env) <> yes ->
    Answered env key to coin
      [EvPrint (bytes_of_string "Transaction cancelled by user." ++ newline)]
      Cancelled
| AnsSignFails :
    ToLower (Scanln env) = yes ->
    Sign key (transferPayload coin to) = None ->
    Answered env key to coin [EvSign (transferPayload coin to) None] Panicked
| AnsRawFails sig :
    ToLower (Scanln env) = yes ->
    Sign key (transferPayload coin to) = Some sig ->
    Raw key = None ->
    Answered env key to coin
      [EvSign (transferPayload coin to) (Some sig); EvRaw None] Panicked
| AnsSendFails sig pub :
    ToLower (Scanln env) = yes ->
    Sign key (transferPayload coin to) = Some sig ->
    Raw key = Some pub ->
    SendMessage env (transferRequest coin to sig pub) = false ->
    Answered env key to coin
      [EvSign (transferPayload coin to) (Some sig); EvRaw (Some pub);
       EvSendMessage (transferRequest coin to sig pub) false] Panicked
| AnsCompleted sig pub :
    ToLower (Scanln env) = yes ->
    Sign key (transferPayload coin to) = Some sig ->
    Raw key = Some pub ->
    SendMessage env (transferRequest coin to sig pub) = true ->
    Answered env key to coin
      [EvSign (transferPayload coin to) (Some sig); EvRaw (Some pub);
       EvSendMessage (transferRequest coin to sig pub) true;
       EvPrint (bytes_of_string "Transaction completed successfully."
                ++ newline)]
      Completed.

(** The runs of the command on [args]. *)
Inductive RunShape (env : Env) (args : list bytes) : trace -> exit -> Prop :=
| ShapeBadArguments :
    List.length args <> 2%nat ->
    RunShape env args [] Panicked
| ShapeNoConn :
    List.length args = 2%nat ->
    GetGRPCClient env = false ->
    RunShape env args [EvGetGRPCClient false] Panicked
| ShapeNoKey :
    List.length args = 2%nat ->
    GetGRPCClient env = true ->
    GetPrivKeyFromConfig env = None ->
    RunShape env args
      [EvGetGRPCClient true; EvGetPrivKey false; EvConnClose] Panicked
| ShapeBadHex key a0 a1 :
    args = [a0; a1] ->
    GetGRPCClient env = true ->
    GetPrivKeyFromConfig env = Some key ->
    decodeArg a0 = None \/ decodeArg a1 = None ->
    RunShape env args
      [EvGetGRPCClient true; EvGetPrivKey true; EvConnClose] Panicked
| ShapeAsked key a0 a1 to coin tr ex :
    args = [a0; a1] ->
    GetGRPCClient env = true ->
    GetPrivKeyFromConfig env = Some key ->
    decodeArg a0 = Some to ->
    decodeArg a1 = Some coin ->
    Answered env key to coin tr ex ->
    RunShape env args
      (EvGetGRPCClient true :: EvGetPrivKey true
       :: promptLines to coin ++ EvScanln (Scanln env) :: tr ++ [EvConnClose])
      ex.

(** The answers at the prompt that the command takes for a yes. *)
Definition yesSpellings : list bytes :=
  map bytes_of_string
    ["yes"; "yeS"; "yEs"; "yES"; "Yes"; "YeS"; "YEs"; "YES"]%string.

(** The arguments that the prompt shows for a recipient and a coin. *)
Definition shownArgs (to coin : bytes) : list bytes :=
  [bytes_of_string "0x" ++ fmtHex to; bytes_of_string "0x" ++ fmtHex coin].

(** ** Sample surroundings *)

Definition sampleKey : PrivKey :=
  {| Sign := fun p => Some (x53 :: p); Raw := Some [x50] |}.

(** A user who answers [Yes]. *)
Definition envYes : Env :=
  {| GetGRPCClient := true; GetPrivKeyFromConfig := Some sampleKey;
     Scanln := bytes_of_string "Yes"; SendMessage := fun _ => true |}.

(** A user who answers [y]. *)
Definition envShort : Env :=
  {| GetGRPCClient := true; GetPrivKeyFromConfig := Some sampleKey;
     Scanln := bytes_of_string "y"; SendMessage := fun _ => true |}.

Definition sampleArgs : list bytes :=
  [bytes_of_string "0x0aFF"; bytes_of_string "c0de01"].

(** The sample arguments in another spelling. *)
Definition sampleArgsAgain : list bytes :=
  [bytes_of_string "0Aff"; bytes_of_string "0xC0DE01"].

End Transfer.

(** * Properties *)

(** ** Integers and bytes *)

Lemma uint32_id (z : Z) : is_uint32 z -> uint32 z = z.
Proof. unfold is_uint32, uint32, wrapUnsigned. intros H. apply Z.mod_small. lia. Qed.

Lemma uint32_range (z : Z) : is_uint32 (uint32 z).
Proof. unfold is_uint32, uint32, wrapUnsigned. apply Z.mod_pos_bound. lia. Qed.

Lemma int_id (z : Z) : - 2 ^ 63 <= z < 2 ^ 63 -> int z = z.
Proof.
  unfold int, wrapSigned, intSize. intros H.
  change (2 ^ (64 - 1)) with (2 ^ 63).
  rewrite Z.mod_small; lia.
Qed.

Lemma int_of_uint32 (z : Z) : is_uint32 z -> int z = z.
Proof. unfold is_uint32. intros H. apply int_id. lia. Qed.

Lemma byte_of_congr (a b : Z) : a mod 256 = b mod 256 -> byte_of a = byte_of b.
Proof. unfold byte_of. now intros ->. Qed.

Lemma Z_of_byte_of (z : Z) : Z_of_byte (byte_of z) = z mod 256.
Proof.
  unfold Z_of_byte, byte_of.
  assert (H : 0 <= z mod 256 < 256) by (apply Z.mod_pos_bound; lia).
  destruct (Byte.of_N (Z.to_N (z mod 256))) as [b|] eqn:E.
  - apply Byte.to_of_N in E. rewrite E. lia.
  - apply Byte.of_N_None_iff in E. lia.
Qed.

(** A byte of a wrapped value is the byte of the value itself. *)
Lemma shiftr_wrap_low (w k v : Z) :
  0 <= k -> k + 8 <= w ->
  Z.shiftr (v mod 2 ^ w) k mod 256 = (v / 2 ^ k) mod 256.
Proof.
  intros Hk Hw.
  rewrite Z.shiftr_div_pow2 by lia.
  change 256 with (2 ^ 8).
  apply Z.bits_inj'. intros n Hn.
  destruct (Z_lt_ge_dec n 8) as [Hlt|Hge].
  - rewrite !Z.mod_pow2_bits_low by lia.
    rewrite <- !Z.shiftr_div_pow2 by lia.
    rewrite !Z.shiftr_spec by lia.
    rewrite Z.mod_pow2_bits_low by lia. reflexivity.
  - rewrite !Z.mod_pow2_bits_high by lia. reflexivity.
Qed.

Lemma byte_of_wrap_low (w v : Z) : 8 <= w -> byte_of (v mod 2 ^ w) = byte_of v.
Proof.
  intros Hw. apply byte_of_congr.
  generalize (shiftr_wrap_low (w := w) (k := 0) v).
  rewrite Z.shiftr_0_r, Z.pow_0_r, Z.div_1_r. intros H. apply H; lia.
Qed.

Lemma AppendUint32_wire (b : bytes) (v : Z) :
  BigEndian.AppendUint32 b (uint32 v) = b ++ be32 v.
Proof.
  unfold BigEndian.AppendUint32, be32, uint32, wrapUnsigned. f_equal.
  repeat (f_equal; [ apply byte_of_congr, shiftr_wrap_low; lia | ]).
  f_equal. apply byte_of_wrap_low; lia.
Qed.

Lemma AppendUint32_wire_raw (b : bytes) (v : Z) :
  BigEndian.AppendUint32 b v = b ++ be32 v.
Proof.
  unfold BigEndian.AppendUint32, be32.
  now rewrite !Z.shiftr_div_pow2 by lia.
Qed.

Lemma AppendUint64_wire (b : bytes) (v : Z) :
  BigEndian.AppendUint64 b (uint64 v) = b ++ be64 v.
Proof.
  unfold BigEndian.AppendUint64, be64, uint64, wrapUnsigned. f_equal.
  repeat (f_equal; [ apply byte_of_congr, shiftr_wrap_low; lia | ]).
  f_equal. apply byte_of_wrap_low; lia.
Qed.

(** The source's framing is the wire format. *)
Lemma frameProof_wire (i : Z) (r : DataTimeProof) :
  frameProof i r = wireFrame i r.
Proof.
  unfold frameProof, wireFrame, len.
  rewrite AppendUint32_wire, AppendUint32_wire_raw, !AppendUint64_wire.
  simpl app at 1. now rewrite <- !app_assoc.
Qed.

Lemma bytes_Equal_eq (a b : bytes) : bytes_Equal a b = true <-> a = b.
Proof.
  revert b. induction a as [|x a IH]; intros [|y b]; simpl; split;
    try congruence; try easy.
  - intros H. apply andb_true_iff in H as [Hx Hab].
    apply Byte.byte_dec_bl in Hx. apply IH in Hab. congruence.
  - intros H. injection H as -> ->. apply andb_true_iff. split.
    + now apply Byte.byte_dec_lb.
    + now apply IH.
Qed.

Lemma bytes_Equal_neq (a b : bytes) : bytes_Equal a b = false <-> a <> b.
Proof.
  split.
  - intros H E. apply bytes_Equal_eq in E. congruence.
  - intros H. destruct (bytes_Equal a b) eqn:E; trivial.
    apply bytes_Equal_eq in E. contradiction.
Qed.

Lemma mintPayload_concat (proofs : list bytes) :
  mintPayload proofs = bytes_of_string "mint" ++ List.concat proofs.
Proof.
  unfold mintPayload. generalize (bytes_of_string "mint") as acc.
  induction proofs as [|p proofs IH]; intros acc; simpl.
  - now rewrite app_nil_r.
  - now rewrite IH, app_assoc.
Qed.

(** ** Traces *)

Lemma fst_emit (A : Type) (evs : trace) (x : trace * A) :
  fst (emit evs x) = evs ++ fst x.
Proof. reflexivity. Qed.

Lemma snd_emit (A : Type) (evs : trace) (x : trace * A) :
  snd (emit evs x) = snd x.
Proof. reflexivity. Qed.

Lemma lookups_app (t1 t2 : trace) : lookups (t1 ++ t2) = lookups t1 ++ lookups t2.
Proof.
  induction t1 as [|e t1 IH]; simpl; trivial.
  destruct e; simpl; now rewrite IH.
Qed.

Lemma submissions_app (t1 t2 : trace) :
  submissions (t1 ++ t2) = submissions t1 ++ submissions t2.
Proof.
  induction t1 as [|e t1 IH]; simpl; trivial.
  destruct e; simpl; now rewrite IH.
Qed.

Lemma statusCalls_app (t1 t2 : trace) :
  statusCalls (t1 ++ t2) = (statusCalls t1 + statusCalls t2)%nat.
Proof.
  induction t1 as [|e t1 IH]; simpl; trivial.
  destruct e; simpl; now rewrite IH.
Qed.

Lemma lookups_foundEvents (i : Z) (k : nat) :
  lookups (foundEvents i k) = countdown i k.
Proof.
  unfold foundEvents. revert i. induction k as [|k IH]; intros i; simpl; trivial.
  now rewrite IH.
Qed.

Lemma submissions_foundEvents (i : Z) (k : nat) :
  submissions (foundEvents i k) = [].
Proof.
  unfold foundEvents. revert i. induction k as [|k IH]; intros i; simpl; trivial.
Qed.

Lemma statusCalls_foundEvents (i : Z) (k : nat) :
  statusCalls (foundEvents i k) = O.
Proof.
  unfold foundEvents. revert i. induction k as [|k IH]; intros i; simpl; trivial.
Qed.

Lemma Forall_foundEvents (P : event -> Prop) (i : Z) (k : nat) :
  (forall j, P (EvGetDataTimeProof j true)) -> Forall P (foundEvents i k).
Proof.
  intros H. unfold foundEvents. apply Forall_forall. intros e He.
  apply in_map_iff in He as [j [<- _]]. apply H.
Qed.

Lemma countdown_In (i : Z) (k : nat) (j : Z) :
  In j (countdown i k) <-> i - Z.of_nat k < j <= i.
Proof.
  revert i. induction k as [|k IH]; intros i; simpl.
  - split; [tauto | lia].
  - rewrite IH. lia.
Qed.

Lemma wireFrames_length (store : Z -> option DataTimeProof) (i : Z) (k : nat)
      (fs : list bytes) :
  wireFrames store i k = Some fs -> List.length fs = k.
Proof.
  revert i fs. induction k as [|k IH]; intros i fs; simpl.
  - now intros [= <-].
  - destruct (store i); [|discriminate].
    destruct (wireFrames store (i - 1) k) eqn:E; [|discriminate].
    intros [= <-]. simpl. f_equal. eauto.
Qed.

(** ** The batch loop *)

Section BatchLoop.

Variable env : Env.

Lemma batchLoop_BatchRun (fuel : nat) (st : State) (i c : Z)
      (proofs : list bytes) :
  is_uint32 i -> 0 <= c <= 2 ^ 62 - i -> (Z.to_nat i + 2 <= fuel)%nat ->
  BatchRun env st i c proofs (fst (batchLoop env fuel st i c proofs))
                         (snd (batchLoop env fuel st i c proofs)).
Proof.
  revert i c proofs. induction fuel as [|fuel IH]; intros i c proofs Hi Hc Hf.
  - lia.
  - assert (Hi' := Hi). unfold is_uint32 in Hi'. simpl.
    destruct (i >=? 0) eqn:Hge; [|lia].
    rewrite (uint32_id Hi).
    destruct (GetDataTimeProof env i) as [r|] eqn:Hr.
    + rewrite (int_id (z := c + 1)) by lia.
      rewrite fst_emit, snd_emit.
      destruct ((c + 1 =? 200) || (i =? 0)) eqn:Hclose.
      * cbn [app]. apply BatchPublish; trivial; [lia|].
        apply orb_true_iff in Hclose as [H|H]; apply Z.eqb_eq in H; auto.
      * apply orb_false_iff in Hclose as [Hc1 Hi0].
        apply Z.eqb_neq in Hc1, Hi0.
        rewrite (int_id (z := i - 1)) by lia.
        cbn [app]. apply BatchNext with (r := r); [lia | assumption | assumption | ].
        apply IH; unfold is_uint32; lia.
    + simpl. apply BatchMissing; trivial; lia.
Qed.

(** The outcome of [publishBatch], by the answers of the signer and of the
    remote. *)

Lemma publishBatch_cases (st : State) (i : Z) (proofs : list bytes) :
  let tr := fst (publishBatch env st i proofs) in
  let ex := snd (publishBatch env st i proofs) in
  (SignMessage env (mintPayload proofs) = None /\
   tr = announceEvents proofs ++ [EvClose] /\ ex = LoopPanic)
  \/
  (exists sig,
      SignMessage env (mintPayload proofs) = Some sig /\
      let req := mintRequest env proofs sig in
      match HandlePreMidnightMint env (nMint st) req with
      | None =>
          tr = announceEvents proofs
               ++ [EvHandleMint req None;
                   EvError "got error response, waiting..."; EvClose; EvSleep]
          /\ ex = LoopBreak (afterMint st (resume st) (increment st))
      | Some a =>
          (i = 0 /\ ex = LoopReturn Submitted /\
           tr = announceEvents proofs
                ++ [EvHandleMint req (Some a);
                    EvInfo "pre-midnight proofs submitted, returning";
                    EvClose])
          \/
          (i <> 0 /\
           tr = announceEvents proofs ++ [EvHandleMint req (Some a)] /\
           ex = LoopBreak (afterMint st a (uint32 (uint32 i - 1))))
      end).
Proof.
  unfold publishBatch. cbv zeta.
  destruct (SignMessage env (mintPayload proofs)) as [sig|] eqn:Hsig.
  - right. exists sig. split; trivial. fold (mintRequest env proofs sig).
    destruct (HandlePreMidnightMint env (nMint st) (mintRequest env proofs sig))
      as [a|] eqn:Hm.
    + destruct (i =? 0) eqn:Hi0.
      * left. apply Z.eqb_eq in Hi0. repeat split; trivial.
      * right. apply Z.eqb_neq in Hi0. repeat split; trivial.
    + repeat split.
  - left. repeat split.
Qed.

(** How far a run of the loop gets: it reads [k] records counting down
    from [i], then either misses the next one or publishes the batch, and
    it publishes exactly when the batch is full or increment 0 was read. *)
Lemma BatchRun_shape (st : State) (i c : Z) (proofs : list bytes)
      (tr : trace) (ex : loop_exit) :
  BatchRun env st i c proofs tr ex -> 0 <= c < 200 ->
  exists k fs,
    wireFrames (GetDataTimeProof env) i k = Some fs /\
    ((Z.of_nat k < Z.min (200 - c) (i + 1) /\
      GetDataTimeProof env (i - Z.of_nat k) = None /\
      tr = foundEvents i k ++ missingEvents (i - Z.of_nat k) /\
      ex = LoopReturn (MissingRecord (i - Z.of_nat k)))
     \/
     (Z.of_nat k = Z.min (200 - c) (i + 1) /\
      tr = foundEvents i k
           ++ fst (publishBatch env st (i - Z.of_nat k + 1) (proofs ++ fs)) /\
      ex = snd (publishBatch env st (i - Z.of_nat k + 1) (proofs ++ fs)))).
Proof.
  induction 1 as [i c proofs Hi Hr | i c proofs r Hi Hr Hclose
                 | i c proofs r tr ex Hi Hr Hc1 Hrun IH]; intros Hc.
  - exists O, []. split; [reflexivity|]. left.
    change (Z.of_nat 0) with 0. rewrite Z.sub_0_r.
    repeat split; trivial. lia.
  - exists 1%nat, [wireFrame i r]. split.
    + simpl. now rewrite Hr.
    + right. change (Z.of_nat 1) with 1.
      replace (i - 1 + 1) with i by lia.
      rewrite <- frameProof_wire. repeat split. lia.
  - destruct IH as (k & fs & Hfs & Hcases); [lia|].
    exists (S k), (wireFrame i r :: fs). split.
    + simpl. now rewrite Hr, Hfs.
    + rewrite Nat2Z.inj_succ.
      replace (i - Z.succ (Z.of_nat k)) with (i - 1 - Z.of_nat k) by lia.
      replace (proofs ++ wireFrame i r :: fs)
        with ((proofs ++ [frameProof i r]) ++ fs)
        by (now rewrite <- app_assoc, frameProof_wire).
      unfold foundEvents in *. cbn [map countdown app].
      destruct Hcases as [(Hk & Hnone & -> & ->) | (Hk & -> & ->)].
      * left. repeat split; trivial. lia.
      * right. repeat split; trivial. lia.
Qed.

(** One pass from a cursor whose increment is a [uint32] goes one of the
    five ways of [BatchOutcome]; in particular it never runs out of fuel
    and never finds the loop condition false. *)
Lemma runBatch_outcome (st : State) :
  is_uint32 (increment st) ->
  BatchOutcome env st (fst (runBatch env st)) (snd (runBatch env st)).
Proof.
  intros Hn. assert (Hn' := Hn). unfold is_uint32 in Hn'.
  unfold runBatch. cbv zeta. rewrite (int_of_uint32 Hn).
  assert (Hrun := @batchLoop_BatchRun (loopFuel (increment st)) st
                    (increment st) 0 (freshBatch (resume st)) Hn).
  destruct (BatchRun_shape (Hrun ltac:(lia) ltac:(unfold loopFuel; lia))
              ltac:(lia))
    as (k & fs & Hfs & [(Hk & Hnone & Htr & Hex) | (Hk & Htr & Hex)]);
    clear Hrun;
    destruct (batchLoop env (loopFuel (increment st)) st (increment st) 0
                (freshBatch (resume st))) as [tr ex];
    cbn [fst snd] in Htr, Hex; subst tr ex.
  - cbn [afterLoop fst snd]. now apply OutcomeMissing with (fs := fs).
  - rewrite Z.sub_0_r in Hk.
    destruct (publishBatch_cases st (increment st - Z.of_nat k + 1)
                (freshBatch (resume st) ++ fs))
      as [(Hsig & -> & ->) | (sig & Hsig & Hmint)].
    + cbn [afterLoop fst snd]. now apply OutcomeSignFails.
    + cbv zeta in Hmint.
      destruct (HandlePreMidnightMint env (nMint st)
                  (mintRequest env (freshBatch (resume st) ++ fs) sig))
        as [a|] eqn:Hresp.
      * destruct Hmint as [(Hj & -> & ->) | (Hj & -> & ->)];
          cbn [afterLoop fst snd].
        -- now apply OutcomeSubmitted.
        -- replace (uint32 (uint32 (increment st - Z.of_nat k + 1) - 1))
             with (increment st - Z.of_nat k).
           ++ rewrite <- !app_assoc. cbn [app]. now apply OutcomeMore.
           ++ rewrite (@uint32_id (increment st - Z.of_nat k + 1))
                by (unfold is_uint32; lia).
              rewrite uint32_id by (unfold is_uint32; lia). lia.
      * destruct Hmint as [-> ->]. cbn [afterLoop fst snd].
        rewrite <- !app_assoc. cbn [app]. now apply OutcomeMintFails.
Qed.

(** One turn from an acceptable cursor goes one of the ways of [TurnRun],
    and leaves an acceptable cursor. *)
Lemma sessionTurn_TurnRun (peerId addr : bytes) (st : State) :
  cursorOK st ->
  TurnRun env peerId addr st (fst (sessionTurn env peerId addr st))
                             (snd (sessionTurn env peerId addr st)).
Proof.
  intros Hst. unfold sessionTurn.
  destruct (GetDirectChannel env (nChannel st)) eqn:Hch.
  - unfold resolveResume. cbn [resume countChannel nStatus].
    destruct (bytes_Equal (resume st) (make_bytes 32)) eqn:Heq.
    + apply bytes_Equal_eq in Heq.
      destruct (GetPreMidnightMintStatus env (nStatus st) addr) as [s|] eqn:Hs.
      * cbn [emit fst snd app].
        destruct (statusIncrement s =? 0) eqn:Hz; cbn [negb].
        -- apply TurnStatus; trivial.
           replace (afterStatus (countChannel st) s)
             with {| resume := statusAddress s; increment := 0;
                     nChannel := nChannel (countChannel st);
                     nStatus := S (nStatus st);
                     nMint := nMint (countChannel st) |}
             by (unfold afterStatus; now rewrite Hz).
           apply runBatch_outcome. cbn. unfold is_uint32. lia.
        -- apply TurnStatus; trivial.
           replace (afterStatus (countChannel st) s)
             with {| resume := statusAddress s;
                     increment := uint32 (statusIncrement s - 1);
                     nChannel := nChannel (countChannel st);
                     nStatus := S (nStatus st);
                     nMint := nMint (countChannel st) |}
             by (unfold afterStatus; now rewrite Hz).
           apply runBatch_outcome. cbn. apply uint32_range.
      * cbn [emit fst snd app]. now apply TurnNoStatus.
    + apply bytes_Equal_neq in Heq. cbn [emit fst snd app].
      apply TurnCarried; trivial.
      apply runBatch_outcome. destruct Hst as [H|H]; [exact H | contradiction].
  - cbn [fst snd]. now apply TurnNoChannel.
Qed.

Lemma BatchOutcome_increment (st st' : State) (tr : trace) :
  is_uint32 (increment st) ->
  BatchOutcome env st tr (TurnAgain st') ->
  is_uint32 (increment st').
Proof.
  unfold is_uint32. intros Hn Hrun. inversion Hrun; subst; cbn; trivial.
  unfold closesAt in *. lia.
Qed.

Lemma TurnRun_cursorOK (peerId addr : bytes) (st st' : State) (tr : trace) :
  cursorOK st ->
  TurnRun env peerId addr st tr (TurnAgain st') ->
  cursorOK st'.
Proof.
  intros Hst Hrun. inversion Hrun as [Hch | Hch Hres Hs | s tr' ex Hch Hres Hs Hb
                                     | tr' ex Hch Hres Hb]; subst.
  - exact Hst.
  - exact Hst.
  - left. apply (BatchOutcome_increment (st := afterStatus (countChannel st) s)
                   (tr := tr')); trivial.
    unfold afterStatus. cbn.
    destruct (statusIncrement s =? 0).
    + unfold is_uint32. lia.
    + apply uint32_range.
  - left. apply (BatchOutcome_increment (st := countChannel st) (tr := tr'));
      trivial.
    destruct Hst as [H|H]; [exact H | contradiction].
Qed.

Lemma TurnRun_fuel (peerId addr : bytes) (st : State) (tr : trace) :
  ~ TurnRun env peerId addr st tr TurnNoFuel.
Proof.
  intros Hrun.
  inversion Hrun as [| | s tr' ex Hch Hres Hs Hb | tr' ex Hch Hres Hb];
    subst; inversion Hb.
Qed.

(** The session loop is a sequence of turns. *)
Lemma sessionLoop_SessionRun (fuel : nat) (peerId addr : bytes) (st : State) :
  cursorOK st ->
  SessionRun env peerId addr st (fst (sessionLoop env fuel peerId addr st))
                                (snd (sessionLoop env fuel peerId addr st)).
Proof.
  revert st. induction fuel as [|fuel IH]; intros st Hst; cbn [sessionLoop].
  - apply SessionStopped.
  - assert (Hturn := sessionTurn_TurnRun peerId addr Hst).
    destruct (sessionTurn env peerId addr st) as [evs [st'| o | |]];
      cbn [fst snd] in Hturn.
    + rewrite fst_emit, snd_emit.
      apply SessionAgain with (st' := st'); trivial.
      apply IH. eapply TurnRun_cursorOK; eassumption.
    + now apply SessionReturn.
    + now apply SessionPanic.
    + now apply TurnRun_fuel in Hturn.
Qed.

End BatchLoop.

(** ** What is signed and sent *)

Section Submissions.

Variable env : Env.
Variable tokOK : bytes -> Prop.
Hypothesis remote_ok : remoteAnswers env tokOK.

Lemma closed_batch_wf (tok : bytes) (n : Z) (k : nat) (fs : list bytes) :
  tokOK tok -> is_uint32 n -> closesAt n k ->
  wireFrames (GetDataTimeProof env) n k = Some fs ->
  batchWellFormed (GetDataTimeProof env) tokOK (freshBatch tok ++ fs).
Proof.
  unfold is_uint32, closesAt. intros Htok Hn Hk Hfs.
  exists tok, n, k. repeat split; trivial; try lia.
  exists fs. split; trivial.
Qed.

Lemma BatchOutcome_submissions (st : State) (tr : trace) (ex : turn_exit) :
  is_uint32 (increment st) -> tokOK (resume st) ->
  BatchOutcome env st tr ex ->
  Forall (submissionOK env tokOK) tr /\
  (forall st', ex = TurnAgain st' -> tokOK (resume st')).
Proof.
  intros Hn Htok Hrun. destruct remote_ok as [_ Hmint].
  assert (Hfound : forall k, Forall (submissionOK env tokOK)
                               (foundEvents (increment st) k))
    by (intros k; now apply Forall_foundEvents).
  inversion Hrun as [k fs Hfs Hk Hnone | k fs Hfs Hk Hsig
                    | k fs sig Hfs Hk Hsig Hresp
                    | k fs sig a Hfs Hk Hj Hsig Hresp
                    | k fs sig a Hfs Hk Hj Hsig Hresp]; subst;
    (split; [| intros st' [= <-]; cbn; eauto; try discriminate]);
    rewrite ?Forall_app; repeat split; trivial;
    try (repeat constructor; fail);
    assert (Hwf := closed_batch_wf Htok Hn Hk Hfs);
    rewrite mintPayload_concat in Hsig;
    repeat constructor; cbn [submissionOK reqProofs mintRequest reqPublicKey
                             reqSignature]; trivial;
    try (eexists; split; [exact Hwf | apply mintPayload_concat]).
Qed.

Lemma TurnRun_submissions (peerId addr : bytes) (st : State) (tr : trace)
      (ex : turn_exit) :
  cursorOK st -> tokOK (resume st) ->
  TurnRun env peerId addr st tr ex ->
  Forall (submissionOK env tokOK) tr /\
  (forall st', ex = TurnAgain st' -> tokOK (resume st')).
Proof.
  intros Hst Htok Hrun. destruct remote_ok as [Hstatus _].
  inversion Hrun as [Hch | Hch Hres Hs | s tr' ex' Hch Hres Hs Hb
                    | tr' ex' Hch Hres Hb]; subst.
  - split; [repeat constructor|]. now intros st' [= <-].
  - split; [repeat constructor|]. now intros st' [= <-].
  - apply BatchOutcome_submissions in Hb as [Hall Hnext].
    + split; [repeat constructor; exact Hall | exact Hnext].
    + unfold afterStatus. cbn. destruct (statusIncrement s =? 0).
      * unfold is_uint32. lia.
      * apply uint32_range.
    + cbn. eapply Hstatus, Hs.
  - apply BatchOutcome_submissions in Hb as [Hall Hnext].
    + split; [repeat constructor; exact Hall | exact Hnext].
    + destruct Hst as [H|H]; [exact H | contradiction].
    + exact Htok.
Qed.

Lemma SessionRun_submissions (peerId addr : bytes) (st : State) (tr : trace)
      (r : result) :
  SessionRun env peerId addr st tr r ->
  cursorOK st -> tokOK (resume st) ->
  Forall (submissionOK env tokOK) tr.
Proof.
  induction 1 as [st | st tr st' tr' r Hturn Hrest IH | st tr o Hturn
                 | st tr Hturn]; intros Hst Htok.
  - constructor.
  - destruct (TurnRun_submissions Hst Htok Hturn) as [Hall Hnext].
    apply Forall_app. split; trivial.
    apply IH; [eapply TurnRun_cursorOK; eassumption | now apply Hnext].
  - now apply (TurnRun_submissions Hst Htok Hturn).
  - now apply (TurnRun_submissions Hst Htok Hturn).
Qed.

End Submissions.

(** ** The resume cursor *)

Lemma tokenAfter_app (tok : bytes) (t1 t2 : trace) :
  tokenAfter tok (t1 ++ t2) = tokenAfter (tokenAfter tok t1) t2.
Proof.
  revert tok. induction t1 as [|e t1 IH]; intros tok; cbn [app tokenAfter].
  - reflexivity.
  - destruct e as [| | | | | | ? [?|] | | | ? [?|]]; apply IH.
Qed.

Lemma followsCursor_app (tok : bytes) (t1 t2 : trace) :
  followsCursor tok (t1 ++ t2) <->
  followsCursor tok t1 /\ followsCursor (tokenAfter tok t1) t2.
Proof.
  revert tok. induction t1 as [|e t1 IH]; intros tok.
  - cbn. tauto.
  - destruct e as [| | | | | | ? [?|] | | | ? [?|]];
      cbn [app followsCursor tokenAfter]; rewrite IH; tauto.
Qed.

Lemma tokenAfter_local (tok : bytes) (tr : trace) :
  forallb (fun e => negb (isRemoteCall e)) tr = true ->
  tokenAfter tok tr = tok.
Proof.
  induction tr as [|e tr IH]; cbn [forallb tokenAfter]; trivial.
  intros H. apply andb_true_iff in H as [He Htr].
  destruct e; try discriminate; now apply IH.
Qed.

Lemma followsCursor_local (tok : bytes) (tr : trace) :
  forallb (fun e => negb (isRemoteCall e)) tr = true ->
  followsCursor tok tr.
Proof.
  induction tr as [|e tr IH]; cbn [forallb followsCursor]; trivial.
  intros H. apply andb_true_iff in H as [He Htr].
  destruct e; try discriminate; now apply IH.
Qed.

Lemma foundEvents_local (i : Z) (k : nat) :
  forallb (fun e => negb (isRemoteCall e)) (foundEvents i k) = true.
Proof.
  unfold foundEvents. revert i. induction k as [|k IH]; intros i; cbn; auto.
Qed.

Lemma quiet_local (tr : trace) :
  Forall quiet tr -> forallb (fun e => negb (isRemoteCall e)) tr = true.
Proof.
  induction 1 as [|e tr He _ IH]; cbn; trivial.
  rewrite IH. now destruct e.
Qed.

Section Cursor.

Variable env : Env.

Lemma BatchOutcome_cursor (st : State) (tr : trace) (ex : turn_exit) :
  BatchOutcome env st tr ex ->
  followsCursor (resume st) tr /\
  (forall st', ex = TurnAgain st' -> tokenAfter (resume st) tr = resume st').
Proof.
  intros Hrun.
  inversion Hrun; subst;
    rewrite followsCursor_app, tokenAfter_app,
      (tokenAfter_local _ _ (foundEvents_local _ _));
    (split; [split; [apply followsCursor_local, foundEvents_local|]
            | intros st' [= <-]]);
    cbn; auto.
Qed.

Lemma TurnRun_cursor (peerId addr : bytes) (st : State) (tr : trace)
      (ex : turn_exit) :
  TurnRun env peerId addr st tr ex ->
  followsCursor (resume st) tr /\
  (forall st', ex = TurnAgain st' -> tokenAfter (resume st) tr = resume st').
Proof.
  intros Hrun.
  inversion Hrun as [Hch | Hch Hres Hs | s tr' ex' Hch Hres Hs Hb
                    | tr' ex' Hch Hres Hb]; subst.
  - cbn. split; trivial. now intros st' [= <-].
  - cbn. split; auto. now intros st' [= <-].
  - apply BatchOutcome_cursor in Hb. cbn in *. tauto.
  - apply BatchOutcome_cursor in Hb. cbn in *. tauto.
Qed.

Lemma SessionRun_cursor (peerId addr : bytes) (st : State) (tr : trace)
      (r : result) :
  SessionRun env peerId addr st tr r -> followsCursor (resume st) tr.
Proof.
  induction 1 as [st | st tr st' tr' r Hturn Hrest IH | st tr o Hturn
                 | st tr Hturn].
  - exact I.
  - destruct (TurnRun_cursor Hturn) as [Hfollows Hnext].
    apply followsCursor_app. split; trivial.
    now rewrite (Hnext st' eq_refl).
  - apply (TurnRun_cursor Hturn).
  - apply (TurnRun_cursor Hturn).
Qed.

End Cursor.

(** ** A record that is absent *)

Section Missing.

Variable env : Env.

Lemma foundEvents_collecting (i : Z) (k : nat) :
  Forall collecting (foundEvents i k).
Proof. now apply Forall_foundEvents. Qed.

Lemma foundEvents_noFailedLookup (i : Z) (k : nat) :
  noFailedLookup (foundEvents i k).
Proof. now apply Forall_foundEvents. Qed.

Lemma BatchOutcome_missing (st : State) (tr : trace) (ex : turn_exit) :
  BatchOutcome env st tr ex ->
  noFailedLookup tr
  \/ exists k j,
      GetDataTimeProof env j = None /\
      tr = foundEvents (increment st) k ++ missingEvents j /\
      ex = TurnReturn (MissingRecord j).
Proof.
  intros Hrun. inversion Hrun; subst.
  - right. eauto.
  - left. apply Forall_app. split; [apply foundEvents_noFailedLookup|].
    repeat constructor.
  - left. apply Forall_app. split; [apply foundEvents_noFailedLookup|].
    repeat constructor.
  - left. apply Forall_app. split; [apply foundEvents_noFailedLookup|].
    repeat constructor.
  - left. apply Forall_app. split; [apply foundEvents_noFailedLookup|].
    repeat constructor.
Qed.

Lemma TurnRun_missing (peerId addr : bytes) (st : State) (tr : trace)
      (ex : turn_exit) :
  TurnRun env peerId addr st tr ex ->
  noFailedLookup tr
  \/ exists cur j,
      GetDataTimeProof env j = None /\
      Forall collecting cur /\
      tr = EvGetDirectChannel peerId true :: cur ++ missingEvents j /\
      ex = TurnReturn (MissingRecord j).
Proof.
  intros Hrun.
  inversion Hrun as [Hch | Hch Hres Hs | s tr' ex' Hch Hres Hs Hb
                    | tr' ex' Hch Hres Hb]; subst.
  - left. repeat constructor.
  - left. repeat constructor.
  - destruct (BatchOutcome_missing Hb) as [Hno | (k & j & Hj & -> & ->)].
    + left. repeat constructor. exact Hno.
    + right.
      exists (EvStatus addr (Some s)
                :: foundEvents (increment (afterStatus (countChannel st) s)) k), j.
      repeat split; trivial.
      constructor; [exact I | apply foundEvents_collecting].
  - destruct (BatchOutcome_missing Hb) as [Hno | (k & j & Hj & -> & ->)].
    + left. repeat constructor. exact Hno.
    + right. exists (foundEvents (increment (countChannel st)) k), j.
      repeat split; trivial. apply foundEvents_collecting.
Qed.

Lemma SessionRun_missing (peerId addr : bytes) (st : State) (tr : trace)
      (r : result) :
  SessionRun env peerId addr st tr r ->
  noFailedLookup tr
  \/ exists pre cur j,
      GetDataTimeProof env j = None /\
      noFailedLookup pre /\ Forall collecting cur /\
      tr = pre ++ EvGetDirectChannel peerId true :: cur ++ missingEvents j /\
      r = Returned (MissingRecord j).
Proof.
  induction 1 as [st | st tr st' tr' r Hturn Hrest IH | st tr o Hturn
                 | st tr Hturn].
  - left. constructor.
  - destruct (TurnRun_missing Hturn) as [Hno | (cur & j & _ & _ & _ & [=])].
    destruct IH as [Hno' | (pre & cur & j & Hj & Hpre & Hcur & -> & ->)].
    + left. now apply Forall_app.
    + right. exists (tr ++ pre), cur, j. rewrite <- app_assoc.
      repeat split; trivial. now apply Forall_app.
  - destruct (TurnRun_missing Hturn) as [Hno | (cur & j & Hj & Hcur & -> & [= ->])].
    + now left.
    + right. exists [], cur, j. repeat split; trivial. constructor.
  - destruct (TurnRun_missing Hturn) as [Hno | (cur & j & _ & _ & _ & [=])].
    now left.
Qed.

End Missing.

(** ** The session loop never asks the coin store *)

Section NoOwnerQuery.

Variable env : Env.

Lemma BatchOutcome_sessionOnly (st : State) (tr : trace) (ex : turn_exit) :
  BatchOutcome env st tr ex -> sessionOnly tr.
Proof.
  intros Hrun. inversion Hrun; subst; apply Forall_app;
    (split; [now apply Forall_foundEvents | repeat constructor]).
Qed.

Lemma TurnRun_sessionOnly (peerId addr : bytes) (st : State) (tr : trace)
      (ex : turn_exit) :
  TurnRun env peerId addr st tr ex -> sessionOnly tr.
Proof.
  intros Hrun.
  inversion Hrun as [Hch | Hch Hres Hs | s tr' ex' Hch Hres Hs Hb
                    | tr' ex' Hch Hres Hb]; subst;
    repeat constructor; eapply BatchOutcome_sessionOnly; eassumption.
Qed.

Lemma SessionRun_sessionOnly (peerId addr : bytes) (st : State) (tr : trace)
      (r : result) :
  SessionRun env peerId addr st tr r -> sessionOnly tr.
Proof.
  induction 1 as [st | st tr st' tr' r Hturn Hrest IH | st tr o Hturn
                 | st tr Hturn].
  - constructor.
  - apply Forall_app. split; trivial. eapply TurnRun_sessionOnly; eassumption.
  - eapply TurnRun_sessionOnly; eassumption.
  - eapply TurnRun_sessionOnly; eassumption.
Qed.

End NoOwnerQuery.

(** ** Before the session loop *)

Section Gate.

Variable env : Env.

Lemma waitForEngine_quiet (fuel k : nat) :
  Forall quiet (fst (waitForEngine env fuel k)).
Proof.
  revert k. induction fuel as [|fuel IH]; intros k; cbn [waitForEngine].
  - constructor.
  - destruct (engineState env k <? EngineStateCollecting env).
    + rewrite fst_emit. repeat constructor. apply IH.
    + constructor.
Qed.

(** The wait for the coin store, by what the store answers. *)
Lemma checkAlreadyMinted_cases (fuel k : nat) (addr : bytes) :
  let tr := fst (checkAlreadyMinted env fuel k addr) in
  let owned := GetPreCoinProofsForOwner env addr in
  Forall quiet tr /\
  (forall a, In (EvQueryOwner a) tr -> a = addr) /\
  match snd (checkAlreadyMinted env fuel k addr) with
  | GateNoFuel => ~ In (EvQueryOwner addr) tr
  | GateReady => snd owned <> Some ErrOther /\ fst owned = []
  | GateReturn o =>
      (snd owned = Some ErrOther /\ o = OwnerQueryFailed /\
       In (EvError "error while fetching pre-coin proofs") tr)
      \/ (snd owned <> Some ErrOther /\ fst owned <> [] /\
          o = AlreadyCompleted)
  end.
Proof.
  cbv zeta. revert k.
  induction fuel as [|fuel IH]; intros k; cbn [checkAlreadyMinted].
  - cbn. split; [constructor|]. split; [intros a []|]. intros [].
  - destruct (GetFrameProverTries env k =? 0)%nat.
    + rewrite fst_emit, snd_emit. destruct (IH (S k)) as (Hq & Ha & Hcase).
      split; [repeat constructor; exact Hq|]. split.
      * intros a [H|[H|H]]; try discriminate. now apply Ha.
      * destruct (snd (checkAlreadyMinted env fuel (S k) addr)).
        -- exact Hcase.
        -- destruct Hcase as [(H1 & H2 & H3) | H]; [left | right; exact H].
           repeat split; trivial. now right; right.
        -- intros [H|[H|H]]; try discriminate. now apply Hcase.
    + rewrite fst_emit, snd_emit.
      destruct (GetPreCoinProofsForOwner env addr) as [prfs err] eqn:Hown.
      destruct err as [[|]|]; [destruct prfs as [|p prfs] | |
                               destruct prfs as [|p prfs]];
        cbn; (split; [repeat constructor|]);
        (split; [intros a Hin; intuition congruence|]).
      * split; [discriminate | reflexivity].
      * right. repeat split; discriminate.
      * left. repeat split. now right; left.
      * split; [discriminate | reflexivity].
      * right. repeat split; discriminate.
Qed.

Lemma waitForEngine_no_query (fuel k : nat) (a : bytes) :
  ~ In (EvQueryOwner a) (fst (waitForEngine env fuel k)).
Proof.
  revert k. induction fuel as [|fuel IH]; intros k; cbn [waitForEngine].
  - intros [].
  - destruct (engineState env k <? EngineStateCollecting env).
    + rewrite fst_emit. intros [H|[H|H]]; try discriminate. now apply IH in H.
    + intros [].
Qed.

(** The worker either ends before the session loop, having touched
    neither the proof store nor the remote, or runs the session loop from
    the initial cursor, after the coin store had nothing for its address. *)
Lemma worker_phases (fuel : nat) :
  let tr := fst (runPreMidnightProofWorker env fuel) in
  let r := snd (runPreMidnightProofWorker env fuel) in
  (Forall quiet tr /\ earlyResult r /\
   forall a, In (EvQueryOwner a) tr -> gateVerdict env a tr r)
  \/
  (exists pre inc peerId addr,
      Forall quiet pre /\
      GetLatestDataTimeProof env = inl inc /\
      (forall a, In (EvQueryOwner a) pre -> a = addr) /\
      snd (GetPreCoinProofsForOwner env addr) <> Some ErrOther /\
      fst (GetPreCoinProofsForOwner env addr) = [] /\
      tr = pre ++ fst (sessionLoop env fuel peerId addr (initialCursor inc)) /\
      r = snd (sessionLoop env fuel peerId addr (initialCursor inc))).
Proof.
  cbv zeta. unfold runPreMidnightProofWorker.
  destruct (GetLatestDataTimeProof env) as [inc|[|]].
  2-3: left; cbn; split; [repeat constructor | split; [exact I|]];
       intros a H; repeat destruct H as [H|H]; discriminate || contradiction.
  assert (Hwait := waitForEngine_quiet fuel O).
  assert (Hnoq := waitForEngine_no_query fuel O).
  destruct (waitForEngine env fuel O) as [evs [|]]; cbn [fst] in Hwait, Hnoq.
  2: { left. cbn. split; [repeat constructor; exact Hwait|].
       split; [exact I|]. intros a [H|H]; [discriminate | now apply Hnoq in H]. }
  assert (Hpanic : forall A (x : A),
             Forall quiet (fst (emit [EvInfo "checking for pre-2.0 proofs"]
                                  (emit evs ([], x)))) /\
             forall a, ~ In (EvQueryOwner a)
                         (fst (emit [EvInfo "checking for pre-2.0 proofs"]
                                 (emit evs ([], x))))).
  { intros A x. cbn. rewrite app_nil_r. split; [now constructor|].
    intros a [H|H]; [discriminate | now apply Hnoq in H]. }
  destruct (poseidonHashBytes env (GetPeerID env)) as [addrBI|].
  2: { left. destruct (Hpanic _ Panicked) as [H1 H2].
       split; [exact H1 | split; [exact I|]]. intros a H. now apply H2 in H. }
  destruct (FillBytes addrBI 32) as [addr|].
  2: { left. destruct (Hpanic _ Panicked) as [H1 H2].
       split; [exact H1 | split; [exact I|]]. intros a H. now apply H2 in H. }
  destruct (UnmarshalBeaconKey env) as [pub|].
  2: { left. destruct (Hpanic _ Panicked) as [H1 H2].
       split; [exact H1 | split; [exact I|]]. intros a H. now apply H2 in H. }
  destruct (IDFromPublicKey env pub) as [peerId|].
  2: { left. destruct (Hpanic _ Panicked) as [H1 H2].
       split; [exact H1 | split; [exact I|]]. intros a H. now apply H2 in H. }
  clear Hpanic.
  destruct (checkAlreadyMinted_cases fuel O addr) as (Hq & Haddr & Hcase).
  assert (Hpre : forall a,
             In (EvQueryOwner a)
                (EvInfo "checking for pre-2.0 proofs"
                   :: evs ++ fst (checkAlreadyMinted env fuel O addr)) ->
             a = addr /\
             In (EvQueryOwner addr) (fst (checkAlreadyMinted env fuel O addr))).
  { intros a [H|H]; [discriminate|].
    apply in_app_or in H as [H|H]; [now apply Hnoq in H|].
    assert (a = addr) by now apply Haddr. subst a. now split. }
  destruct (checkAlreadyMinted env fuel O addr) as [evs' [| o |]];
    cbn [fst snd] in Hq, Hcase, Hpre, Haddr.
  - right. exists (EvInfo "checking for pre-2.0 proofs" :: evs ++ evs').
    exists inc, peerId, addr. rewrite !fst_emit, !snd_emit.
    destruct Hcase as [Herr Hnone].
    repeat split; trivial.
    + constructor; [exact I|]. now apply Forall_app.
    + intros a H. now apply Hpre in H.
    + cbn [app]. now rewrite <- app_assoc.
  - left. cbn [emit fst snd app]. split; [|split].
    + constructor; [exact I|]. now apply Forall_app.
    + destruct Hcase as [(_ & -> & _) | (_ & _ & ->)]; exact I.
    + intros a H. apply Hpre in H as [-> _]. unfold gateVerdict. cbv zeta.
      destruct Hcase as [(H1 & H2 & H3) | (H1 & H2 & H3)]; [left | right];
        subst o; repeat split; trivial.
      right. apply in_or_app. now right.
  - left. cbn [emit fst snd app]. split; [|split; [exact I|]].
    + constructor; [exact I|]. now apply Forall_app.
    + intros a H. now apply Hpre in H as [_ H].
Qed.

End Gate.

(** ** The whole worker *)

Lemma initialCursor_ok (inc : Z) : cursorOK (initialCursor inc).
Proof. now right. Qed.

Lemma worker_submissions (env : Env) (tokOK : bytes -> Prop) (fuel : nat) :
  remoteAnswers env tokOK -> tokOK (make_bytes 32) ->
  Forall (submissionOK env tokOK) (fst (runPreMidnightProofWorker env fuel)).
Proof.
  intros Hremote Hzero.
  assert (Hquiet : forall tr, Forall quiet tr ->
                              Forall (submissionOK env tokOK) tr).
  { intros tr. apply Forall_impl. now intros []. }
  destruct (worker_phases env fuel)
    as [[Hq _] | (pre & inc & peerId & addr & Hq & _ & _ & _ & _ & -> & _)].
  - now apply Hquiet.
  - apply Forall_app. split; [now apply Hquiet|].
    eapply SessionRun_submissions with (st := initialCursor inc);
      [ exact Hremote | apply sessionLoop_SessionRun, initialCursor_ok
      | apply initialCursor_ok | exact Hzero ].
Qed.

Lemma worker_cursor (env : Env) (fuel : nat) :
  followsCursor (make_bytes 32) (fst (runPreMidnightProofWorker env fuel)).
Proof.
  destruct (worker_phases env fuel)
    as [[Hq _] | (pre & inc & peerId & addr & Hq & _ & _ & _ & _ & -> & _)].
  - now apply followsCursor_local, quiet_local.
  - apply followsCursor_app. split.
    + now apply followsCursor_local, quiet_local.
    + rewrite (tokenAfter_local _ _ (quiet_local Hq)).
      apply (SessionRun_cursor
               (sessionLoop_SessionRun env fuel peerId addr
                  (initialCursor_ok inc))).
Qed.



Lemma quiet_noFailedLookup (tr : trace) : Forall quiet tr -> noFailedLookup tr.
Proof. apply Forall_impl. now intros []. Qed.

(** C7: when a lookup in the proof store reports the record at increment
    [i] absent, the worker returns for good with that increment; nothing
    follows the failed lookup but the error log and the release of the
    session, and in that session, from its opening to the failed lookup,
    the worker only called the status operation and read records: nothing
    was signed or sent and the worker did not sleep. *)
Theorem C7_missing_record_stops_the_worker (env : Env) (fuel : nat) (i : Z) :
  let tr := fst (runPreMidnightProofWorker env fuel) in
  let r := snd (runPreMidnightProofWorker env fuel) in
  In (EvGetDataTimeProof i false) tr ->
  GetDataTimeProof env i = None /\
  r = Returned (MissingRecord i) /\
  exists pre peerId cur,
    tr = pre ++ EvGetDirectChannel peerId true :: cur
             ++ [EvGetDataTimeProof i false;
                 EvError "could not find data time proof for peer and increment, stopping worker";
                 EvClose] /\
    noFailedLookup pre /\
    Forall collecting cur.
Proof.
  cbv zeta. intros Hin.
  assert (Hclean : forall tr, noFailedLookup tr ->
                              ~ In (EvGetDataTimeProof i false) tr).
  { intros tr Hno H. unfold noFailedLookup in Hno.
    rewrite Forall_forall in Hno. now apply Hno in H. }
  destruct (worker_phases env fuel)
    as [[Hq _] | (pre & inc & peerId & addr & Hq & _ & _ & _ & _ & Htr & Hr)].
  - now apply quiet_noFailedLookup, Hclean in Hq.
  - rewrite Htr in Hin |- *. rewrite Hr.
    destruct (SessionRun_missing
                (sessionLoop_SessionRun env fuel peerId addr
                   (initialCursor_ok inc)))
      as [Hno | (pre' & cur & j & Hj & Hpre & Hcur & Hs & Hr')].
    + exfalso. revert Hin. apply Hclean.
      apply Forall_app. split; trivial. now apply quiet_noFailedLookup.
    + rewrite Hs in Hin |- *. rewrite Hr'.
      assert (Hij : i = j).
      { apply in_app_or in Hin as [H|H];
          [now apply quiet_noFailedLookup, Hclean in Hq|].
        apply in_app_or in H as [H|H]; [now apply Hclean in Hpre|].
        destruct H as [H|H]; [discriminate|].
        apply in_app_or in H as [H|H].
        - rewrite Forall_forall in Hcur. now apply Hcur in H.
        - destruct H as [[= ->]|[[=]|[[=]|[]]]]. reflexivity. }
      subst j. repeat split; trivial.
      exists (pre ++ pre'), peerId, cur. rewrite <- app_assoc.
      repeat split; trivial.
      apply Forall_app. split; trivial. now apply quiet_noFailedLookup.
Qed.

(** C9: once the worker has asked the coin store for the proofs owned by
    its address: if the store answers with any proof (and no error other
    than not-found), the worker returns as already completed and never
    tries to open a session; if it answers with an error other than
    not-found, the worker logs the error and returns, again without a
    session; and if it answers with no proof, the worker goes on to the
    session loop, from the all-zero token and the latest increment. *)
Theorem C9_ownership_gate (env : Env) (fuel : nat) (addr : bytes) :
  let tr := fst (runPreMidnightProofWorker env fuel) in
  let r := snd (runPreMidnightProofWorker env fuel) in
  In (EvQueryOwner addr) tr ->
  match GetPreCoinProofsForOwner env addr with
  | (_, Some ErrOther) =>
      r = Returned OwnerQueryFailed /\
      In (EvError "error while fetching pre-coin proofs") tr /\
      forall p ok, ~ In (EvGetDirectChannel p ok) tr
  | (_ :: _, _) =>
      r = Returned AlreadyCompleted /\
      forall p ok, ~ In (EvGetDirectChannel p ok) tr
  | ([], _) =>
      exists pre inc peerId,
        GetLatestDataTimeProof env = inl inc /\
        Forall quiet pre /\
        tr = pre ++ fst (sessionLoop env fuel peerId addr (initialCursor inc)) /\
        r = snd (sessionLoop env fuel peerId addr (initialCursor inc))
  end.
Proof.
  cbv zeta. intros Hin.
  assert (Hquiet : forall tr, Forall quiet tr ->
                              forall p ok, ~ In (EvGetDirectChannel p ok) tr).
  { intros tr Hq p ok H. rewrite Forall_forall in Hq. now apply Hq in H. }
  destruct (worker_phases env fuel)
    as [(Hq & _ & Hverdict)
       | (pre & inc & peerId & addr' & Hq & Hinc & Haddr & Herr & Hnone
          & Htr & Hr)].
  - apply Hverdict in Hin. unfold gateVerdict in Hin. cbv zeta in Hin.
    destruct (GetPreCoinProofsForOwner env addr) as [prfs err].
    cbn [fst snd] in Hin.
    destruct Hin as [(-> & Hr & Hlog) | (Herr & Hprfs & Hr)].
    + destruct prfs; auto.
    + destruct prfs as [|p prfs]; [contradiction|].
      destruct err as [[|]|]; auto. contradiction.
  - assert (addr = addr').
    { rewrite Htr in Hin. apply in_app_or in Hin as [H|H]; [now apply Haddr|].
      assert (Hs := SessionRun_sessionOnly
                      (sessionLoop_SessionRun env fuel peerId addr'
                         (initialCursor_ok inc))).
      unfold sessionOnly in Hs. rewrite Forall_forall in Hs.
      now apply Hs in H. }
    subst addr'.
    destruct (GetPreCoinProofsForOwner env addr) as [prfs err].
    cbn [fst snd] in Herr, Hnone. subst prfs.
    destruct err as [[|]|]; try contradiction; exists pre, inc, peerId; auto.
Qed.

(** ** One turn of the session loop *)

Lemma bytes_Equal_refl (a : bytes) : bytes_Equal a a = true.
Proof. now apply bytes_Equal_eq. Qed.

Lemma sessionTurn_status (env : Env) (peerId addr : bytes) (st : State)
      (s : MintStatus) :
  resume st = make_bytes 32 ->
  GetDirectChannel env (nChannel st) = true ->
  GetPreMidnightMintStatus env (nStatus st) addr = Some s ->
  sessionTurn env peerId addr st
  = emit [EvGetDirectChannel peerId true; EvStatus addr (Some s)]
      (runBatch env (afterStatus (countChannel st) s)).
Proof.
  intros Hres Hch Hs. unfold sessionTurn, resolveResume.
  rewrite Hch. cbn [resume countChannel nStatus nChannel nMint].
  rewrite Hres, bytes_Equal_refl, Hs. unfold afterStatus.
  cbn [resume countChannel nStatus nChannel nMint increment emit fst snd app].
  now destruct (statusIncrement s =? 0).
Qed.

Lemma sessionTurn_carried (env : Env) (peerId addr : bytes) (st : State) :
  resume st <> make_bytes 32 ->
  GetDirectChannel env (nChannel st) = true ->
  sessionTurn env peerId addr st
  = emit [EvGetDirectChannel peerId true] (runBatch env (countChannel st)).
Proof.
  intros Hres Hch. unfold sessionTurn, resolveResume.
  rewrite Hch. cbn [resume countChannel].
  apply bytes_Equal_neq in Hres. rewrite Hres.
  now destruct (runBatch env (countChannel st)).
Qed.

Lemma BatchOutcome_statusCalls (env : Env) (st : State) (tr : trace)
      (ex : turn_exit) :
  BatchOutcome env st tr ex -> statusCalls tr = O.
Proof.
  intros Hrun.
  inversion Hrun; subst; now rewrite statusCalls_app, statusCalls_foundEvents.
Qed.

Lemma BatchOutcome_first_lookup (env : Env) (st : State) (tr : trace)
      (ex : turn_exit) :
  is_uint32 (increment st) ->
  BatchOutcome env st tr ex ->
  exists found rest, tr = EvGetDataTimeProof (increment st) found :: rest.
Proof.
  unfold is_uint32. intros Hn Hrun.
  inversion Hrun as [k fs Hfs Hk Hnone | k fs Hfs Hk Hsig
                    | k fs sig Hfs Hk Hsig Hresp
                    | k fs sig a Hfs Hk Hj Hsig Hresp
                    | k fs sig a Hfs Hk Hj Hsig Hresp]; subst;
    unfold closesAt in *;
    (destruct k as [|k];
     [ try lia; change (Z.of_nat 0) with 0; rewrite Z.sub_0_r
     | unfold foundEvents; cbn [countdown map app] ]);
    eexists; eexists; reflexivity.
Qed.

(** C4: in a turn that starts with the all-zero token, on an open session
    and an answered status call, the worker batches from the cursor whose
    token is the address of the answer and whose increment is the
    increment of the answer less one, or 0 when that increment is 0. *)
Theorem C4_status_sets_the_cursor (env : Env) (peerId addr : bytes)
        (st : State) (s : MintStatus) :
  resume st = make_bytes 32 ->
  GetDirectChannel env (nChannel st) = true ->
  GetPreMidnightMintStatus env (nStatus st) addr = Some s ->
  is_uint32 (statusIncrement s) ->
  exists st',
    resume st' = statusAddress s /\
    increment st' = (if statusIncrement s =? 0 then 0
                     else statusIncrement s - 1) /\
    sessionTurn env peerId addr st
    = emit [EvGetDirectChannel peerId true; EvStatus addr (Some s)]
        (runBatch env st').
Proof.
  intros Hres Hch Hs Hinc.
  exists (afterStatus (countChannel st) s). repeat split.
  - unfold afterStatus. cbn.
    destruct (statusIncrement s =? 0) eqn:Hz; trivial.
    apply Z.eqb_neq in Hz. apply uint32_id.
    unfold is_uint32 in *. lia.
  - now apply sessionTurn_status.
Qed.

(** C8: in a turn that starts with a token other than the all-zero
    sentinel, the worker makes no status call; when the session opens, the
    turn is the batch loop run from the cursor as the previous turn left
    it, so the first thing after the opening is the lookup of the carried
    increment. *)
Theorem C8_no_status_call_on_resume (env : Env) (peerId addr : bytes)
        (st : State) :
  resume st <> make_bytes 32 ->
  is_uint32 (increment st) ->
  statusCalls (fst (sessionTurn env peerId addr st)) = O /\
  (GetDirectChannel env (nChannel st) = true ->
   sessionTurn env peerId addr st
   = emit [EvGetDirectChannel peerId true] (runBatch env (countChannel st)) /\
   resume (countChannel st) = resume st /\
   increment (countChannel st) = increment st /\
   exists found rest,
     fst (sessionTurn env peerId addr st)
     = EvGetDirectChannel peerId true
         :: EvGetDataTimeProof (increment st) found :: rest).
Proof.
  intros Hres Hn.
  assert (Hb := @runBatch_outcome env (countChannel st) Hn).
  destruct (GetDirectChannel env (nChannel st)) eqn:Hch.
  - rewrite (@sessionTurn_carried env peerId addr st Hres Hch).
    rewrite fst_emit, statusCalls_app, (BatchOutcome_statusCalls Hb).
    split; [reflexivity|]. intros _. repeat split.
    destruct (@BatchOutcome_first_lookup env (countChannel st) _ _ Hn Hb)
      as (found & rest & Htr).
    exists found, rest. now rewrite Htr.
  - split; [|discriminate]. unfold sessionTurn. now rewrite Hch.
Qed.

Lemma In_foundEvents (e : event) (i : Z) (k : nat) :
  In e (foundEvents i k) -> exists j, e = EvGetDataTimeProof j true.
Proof.
  unfold foundEvents. intros H. apply in_map_iff in H as (j & <- & _). eauto.
Qed.

(** The batch of a pass carries the token of its cursor, and a pass that
    leads to another turn has sent exactly one batch, whose answer decides
    the next token. *)
Lemma BatchOutcome_mint (env : Env) (st : State) (tr : trace) (ex : turn_exit) :
  BatchOutcome env st tr ex ->
  (forall req resp,
      In (EvHandleMint req resp) tr ->
      nth_error (reqProofs req) 1 = Some (resume st)) /\
  (forall st',
      ex = TurnAgain st' ->
      exists req resp,
        In (EvHandleMint req resp) tr /\
        resume st' = match resp with Some a => a | None => resume st end).
Proof.
  intros Hrun.
  inversion Hrun as [k fs Hfs Hk Hnone | k fs Hfs Hk Hsig
                    | k fs sig Hfs Hk Hsig Hresp
                    | k fs sig a Hfs Hk Hj Hsig Hresp
                    | k fs sig a Hfs Hk Hj Hsig Hresp]; subst; split;
    try (intros st' [= <-]);
    try (intros req resp Hin; apply in_app_or in Hin as [Hin|Hin];
         [ apply In_foundEvents in Hin as [j [=]]
         | cbn in Hin;
           repeat (destruct Hin as [Hin|Hin];
                   [ try discriminate; injection Hin as <- <-; reflexivity | ]);
           contradiction ]).
  - eexists; exists None. split; [|reflexivity].
    apply in_or_app. right. cbn. right. right. left. reflexivity.
  - eexists; exists (Some a). split; [|reflexivity].
    apply in_or_app. right. cbn. right. right. left. reflexivity.
Qed.

Lemma sessionTurn_sentinel_calls_status (env : Env) (peerId addr : bytes)
      (st : State) :
  resume st = make_bytes 32 ->
  GetDirectChannel env (nChannel st) = true ->
  exists resp rest,
    fst (sessionTurn env peerId addr st)
    = EvGetDirectChannel peerId true :: EvStatus addr resp :: rest.
Proof.
  intros Hres Hch.
  destruct (GetPreMidnightMintStatus env (nStatus st) addr) as [s|] eqn:Hs.
  - rewrite (sessionTurn_status env peerId addr st Hres Hch Hs).
    now exists (Some s), (fst (runBatch env (afterStatus (countChannel st) s))).
  - unfold sessionTurn, resolveResume. rewrite Hch.
    cbn [resume countChannel nStatus]. rewrite Hres, bytes_Equal_refl, Hs.
    now exists None, [EvError "got error response, waiting..."; EvSleep; EvClose].
Qed.


(** ** Runs in which nothing fails *)

Lemma countdown_app (i : Z) (a b : nat) :
  countdown i (a + b) = countdown i a ++ countdown (i - Z.of_nat a) b.
Proof.
  revert i. induction a as [|a IH]; intros i.
  - cbn [countdown app Nat.add]. now rewrite Z.sub_0_r.
  - cbn [countdown app Nat.add]. rewrite IH. do 3 f_equal. lia.
Qed.

Section GoodRuns.

Variable env : Env.

Hypothesis sign_ok : forall payload, SignMessage env payload <> None.

(** A pass that finds every record, on a remote that answers: it reads
    [min 200 (n + 1)] records, sends them as one batch, and either is done
    (the batch ends at increment 0) or leaves the cursor at the answer of
    the remote and the next increment. *)
Lemma good_pass (st : State) (tr : trace) (ex : turn_exit) :
  is_uint32 (increment st) ->
  presentUpTo env (increment st) ->
  (forall req, HandlePreMidnightMint env (nMint st) req <> None) ->
  BatchOutcome env st tr ex ->
  exists k fs sig a,
    closesAt (increment st) k /\
    wireFrames (GetDataTimeProof env) (increment st) k = Some fs /\
    SignMessage env (mintPayload (freshBatch (resume st) ++ fs)) = Some sig /\
    HandlePreMidnightMint env (nMint st)
      (mintRequest env (freshBatch (resume st) ++ fs) sig) = Some a /\
    lookups tr = countdown (increment st) k /\
    submissions tr = [mintRequest env (freshBatch (resume st) ++ fs) sig] /\
    ((increment st - Z.of_nat k + 1 = 0 /\ ex = TurnReturn Submitted)
     \/ (increment st - Z.of_nat k + 1 <> 0 /\
         ex = TurnAgain (afterMint st a (increment st - Z.of_nat k)))).
Proof.
  unfold is_uint32. intros Hn Hpresent Hmint Hrun.
  inversion Hrun as [k fs Hfs Hk Hnone | k fs Hfs Hk Hsig
                    | k fs sig Hfs Hk Hsig Hresp
                    | k fs sig a Hfs Hk Hj Hsig Hresp
                    | k fs sig a Hfs Hk Hj Hsig Hresp]; subst.
  - exfalso. apply (Hpresent (increment st - Z.of_nat k)); trivial. lia.
  - exfalso. now apply (sign_ok _ Hsig).
  - exfalso. now apply (Hmint _ Hresp).
  - exists k, fs, sig, a.
    rewrite lookups_app, submissions_app, lookups_foundEvents,
      submissions_foundEvents. cbn. rewrite app_nil_r. auto 10.
  - exists k, fs, sig, a.
    rewrite lookups_app, submissions_app, lookups_foundEvents,
      submissions_foundEvents. cbn. rewrite app_nil_r. auto 10.
Qed.

Hypothesis channel_ok : forall k, GetDirectChannel env k = true.
Hypothesis mint_ok :
  forall k req, exists a,
    HandlePreMidnightMint env k req = Some a /\ a <> make_bytes 32.

(** From a token that is not the sentinel, the session loop reads the
    whole range downwards and returns. *)
Lemma good_session (peerId addr : bytes) (fuel : nat) (st : State) :
  is_uint32 (increment st) ->
  (Z.to_nat (increment st) < fuel)%nat ->
  resume st <> make_bytes 32 ->
  presentUpTo env (increment st) ->
  lookups (fst (sessionLoop env fuel peerId addr st))
  = countdown (increment st) (Z.to_nat (increment st + 1)) /\
  snd (sessionLoop env fuel peerId addr st) = Returned Submitted.
Proof.
  revert st. induction fuel as [|fuel IH]; intros st Hn Hfuel Hres Hpresent.
  - lia.
  - cbn [sessionLoop].
    rewrite (@sessionTurn_carried env peerId addr st Hres (channel_ok _)).
    assert (Hrun := @runBatch_outcome env (countChannel st) Hn).
    destruct (runBatch env (countChannel st)) as [tr ex].
    cbn [fst snd] in Hrun.
    apply good_pass in Hrun; trivial.
    2: { intros req H. destruct (mint_ok (nMint (countChannel st)) req)
           as (a & Ha & _). congruence. }
    destruct Hrun as (k & fs & sig & a & Hk & _ & _ & Ha & Hlook & _ & Hex).
    cbn [increment countChannel resume] in *.
    unfold closesAt, is_uint32 in *.
    destruct Hex as [[Hlast ->] | [Hlast ->]]; cbn [emit fst snd app].
    + split; trivial. cbn [lookups]. rewrite Hlook. f_equal. lia.
    + destruct (IH (afterMint (countChannel st) a (increment st - Z.of_nat k)))
        as [Hrest Hdone]; cbn [afterMint increment resume];
        unfold is_uint32; try lia.
      * destruct (mint_ok (nMint (countChannel st))
                    (mintRequest env (freshBatch (resume st) ++ fs) sig))
          as (a' & Ha' & Hnz). congruence.
      * intros i Hi. apply Hpresent. lia.
      * split; trivial. cbn [app lookups]. rewrite lookups_app, Hlook, Hrest.
        cbn [afterMint increment].
        replace (Z.to_nat (increment st + 1))
          with (k + Z.to_nat (increment st - Z.of_nat k + 1))%nat by lia.
        now rewrite countdown_app.
Qed.

End GoodRuns.

Lemma BatchOutcome_lookups (env : Env) (st : State) (tr : trace)
      (ex : turn_exit) :
  is_uint32 (increment st) ->
  BatchOutcome env st tr ex ->
  exists k,
    (1 <= k)%nat /\ Z.of_nat k <= Z.min 200 (increment st + 1) /\
    lookups tr = countdown (increment st) k.
Proof.
  unfold is_uint32. intros Hn Hrun.
  inversion Hrun as [k fs Hfs Hk Hnone | k fs Hfs Hk Hsig
                    | k fs sig Hfs Hk Hsig Hresp
                    | k fs sig a Hfs Hk Hj Hsig Hresp
                    | k fs sig a Hfs Hk Hj Hsig Hresp]; subst;
    unfold closesAt in *; rewrite lookups_app, lookups_foundEvents.
  - exists (k + 1)%nat. rewrite countdown_app. cbn. repeat split; lia.
  - exists k. cbn. rewrite app_nil_r. repeat split; lia.
  - exists k. cbn. rewrite app_nil_r. repeat split; lia.
  - exists k. cbn. rewrite app_nil_r. repeat split; lia.
  - exists k. cbn. rewrite app_nil_r. repeat split; lia.
Qed.


(** ** The worker that gets to the session loop *)

Lemma waitForEngine_ready (env : Env) (k fuel k0 : nat) :
  (k < fuel)%nat ->
  (forall j, (j < k)%nat ->
             engineState env (k0 + j) < EngineStateCollecting env) ->
  EngineStateCollecting env <= engineState env (k0 + k) ->
  snd (waitForEngine env fuel k0) = true.
Proof.
  revert fuel k0. induction k as [|k IH]; intros [|fuel] k0 Hf Hwait Hready;
    try lia; cbn [waitForEngine].
  - rewrite Nat.add_0_r in Hready.
    destruct (engineState env k0 <? EngineStateCollecting env) eqn:E;
      [apply Z.ltb_lt in E; lia | reflexivity].
  - assert (H0 := Hwait O ltac:(lia)). rewrite Nat.add_0_r in H0.
    apply Z.ltb_lt in H0. rewrite H0, snd_emit.
    apply IH; try lia.
    + intros j Hj. replace (S k0 + j)%nat with (k0 + S j)%nat by lia.
      apply Hwait. lia.
    + now replace (S k0 + k)%nat with (k0 + S k)%nat by lia.
Qed.

Lemma checkAlreadyMinted_ready (env : Env) (addr : bytes) (k fuel k0 : nat) :
  (k < fuel)%nat ->
  (forall j, (j < k)%nat -> GetFrameProverTries env (k0 + j) = O) ->
  GetFrameProverTries env (k0 + k) <> O ->
  fst (GetPreCoinProofsForOwner env addr) = [] ->
  snd (GetPreCoinProofsForOwner env addr) <> Some ErrOther ->
  snd (checkAlreadyMinted env fuel k0 addr) = GateReady.
Proof.
  intros Hf Hwait Hready Hnone Herr. revert fuel k0 Hf Hwait Hready.
  induction k as [|k IH]; intros [|fuel] k0 Hf Hwait Hready;
    try lia; cbn [checkAlreadyMinted].
  - rewrite Nat.add_0_r in Hready. apply Nat.eqb_neq in Hready.
    rewrite Hready, snd_emit.
    destruct (GetPreCoinProofsForOwner env addr) as [prfs [[|]|]];
      cbn [fst snd] in Hnone, Herr; subst prfs; try reflexivity.
    contradiction.
  - assert (H0 := Hwait O ltac:(lia)). rewrite Nat.add_0_r in H0.
    rewrite H0. cbn [Nat.eqb]. rewrite snd_emit.
    apply IH; try lia.
    + intros j Hj. replace (S k0 + j)%nat with (k0 + S j)%nat by lia.
      apply Hwait. lia.
    + now replace (S k0 + k)%nat with (k0 + S k)%nat by lia.
Qed.

Lemma gate_passes (env : Env) (fuel : nat) (inc : Z) (peerId addr : bytes) :
  gatePasses env fuel inc peerId addr ->
  exists pre,
    Forall quiet pre /\
    runPreMidnightProofWorker env fuel
    = emit pre (sessionLoop env fuel peerId addr (initialCursor inc)).
Proof.
  intros (Hlatest & (ke & Hke & Hwait & Hready) & (addrBI & Hhash & Hfill)
          & (pub & Hpub & Hid) & (kt & Hkt & Htries & Hsome) & Hnone & Herr).
  unfold runPreMidnightProofWorker.
  rewrite Hlatest.
  assert (Hw := @waitForEngine_ready env ke fuel O Hke Hwait Hready).
  assert (Hwq := waitForEngine_quiet env fuel O).
  destruct (waitForEngine env fuel O) as [evs b]. cbn [fst snd] in Hw, Hwq.
  subst b. rewrite Hhash, Hfill, Hpub, Hid.
  assert (Hc := @checkAlreadyMinted_ready env addr kt fuel O Hkt Htries Hsome
                  Hnone Herr).
  destruct (checkAlreadyMinted_cases env fuel O addr) as (Hcq & _).
  destruct (checkAlreadyMinted env fuel O addr) as [evs' g].
  cbn [fst snd] in Hc, Hcq. subst g.
  exists (EvInfo "checking for pre-2.0 proofs" :: evs ++ evs'). split.
  - constructor; [exact I|]. now apply Forall_app.
  - unfold emit. cbn [fst snd app]. now rewrite <- app_assoc.
Qed.

Lemma lookups_quiet (tr : trace) : Forall quiet tr -> lookups tr = [].
Proof. induction 1 as [|e tr He _ IH]; trivial. now destruct e. Qed.

Lemma submissions_quiet (tr : trace) : Forall quiet tr -> submissions tr = [].
Proof. induction 1 as [|e tr He _ IH]; trivial. now destruct e. Qed.

(** C5, at the sample surroundings: with proofs at increments 0 to 5 and a
    status answer that carries increment 3, the one batch the worker sends
    covers the increments 2, 1, 0, not 3, 2, 1, 0. *)
Lemma C5_status_increment_3_counterexample :
  map batchIncrements
      (submissions (fst (runPreMidnightProofWorker env5 3)))
  = [[Some 2; Some 1; Some 0]]
  /\ snd (runPreMidnightProofWorker env5 3) = Returned Submitted
  /\ map batchIncrements
         (submissions (fst (runPreMidnightProofWorker env5 3)))
     <> [[Some 3; Some 2; Some 1; Some 0]].
Proof.
  assert (H : map batchIncrements
                  (submissions (fst (runPreMidnightProofWorker env5 3)))
              = [[Some 2; Some 1; Some 0]]) by (vm_compute; reflexivity).
  split; [exact H|]. split; [vm_compute; reflexivity|].
  rewrite H. discriminate.
Qed.

(** C5, as the code has it: when the worker gets to the session loop with
    proofs stored at increments 0 to 5, the first session opens, the status
    answer carries increment 3, and signing and the mint call succeed, the
    worker looks up the increments 2, 1, 0, sends exactly one batch, which
    holds the tag, the address of the status answer and the frames of the
    records at 2, 1, 0 in that order, and returns. *)
Theorem C5_status_increment_3_covers_2_1_0 (env : Env) (fuel : nat)
        (peerId addr : bytes) (s : MintStatus) :
  gatePasses env fuel 5 peerId addr ->
  presentUpTo env 5 ->
  GetDirectChannel env O = true ->
  GetPreMidnightMintStatus env O addr = Some s ->
  statusIncrement s = 3 ->
  (forall payload, SignMessage env payload <> None) ->
  (forall req, HandlePreMidnightMint env O req <> None) ->
  let tr := fst (runPreMidnightProofWorker env fuel) in
  exists r2 r1 r0 sig,
    GetDataTimeProof env 2 = Some r2 /\
    GetDataTimeProof env 1 = Some r1 /\
    GetDataTimeProof env 0 = Some r0 /\
    lookups tr = [2; 1; 0] /\
    submissions tr
    = [mintRequest env
         [bytes_of_string "pre-dusk"; statusAddress s;
          wireFrame 2 r2; wireFrame 1 r1; wireFrame 0 r0] sig] /\
    snd (runPreMidnightProofWorker env fuel) = Returned Submitted.
Proof.
  intros Hgate Hpresent Hch Hs Hinc Hsign Hmint. cbv zeta.
  assert (Hfuel : (0 < fuel)%nat).
  { destruct Hgate as (_ & (k & Hk & _) & _). lia. }
  destruct (gate_passes Hgate) as (pre & Hq & ->).
  rewrite fst_emit, snd_emit, lookups_app, submissions_app,
    (lookups_quiet Hq), (submissions_quiet Hq). cbn [app].
  destruct fuel as [|fuel]; [lia|]. cbn [sessionLoop].
  rewrite (@sessionTurn_status env peerId addr (initialCursor 5) s eq_refl Hch Hs).
  set (st1 := afterStatus (countChannel (initialCursor 5)) s).
  assert (Hn : increment st1 = 2).
  { unfold st1, afterStatus. cbn. now rewrite Hinc. }
  assert (Hn32 : is_uint32 (increment st1))
    by (rewrite Hn; unfold is_uint32; lia).
  assert (Hrun := @runBatch_outcome env st1 Hn32).
  destruct (runBatch env st1) as [tr ex]. cbn [fst snd] in Hrun.
  apply (good_pass Hsign Hn32) in Hrun.
  - destruct Hrun as (k & fs & sig & a & Hk & Hfs & Hsig & Ha & Hlook & Hsub
                      & Hex).
    rewrite Hn in *. unfold closesAt in Hk.
    assert (k = 3%nat) by lia. subst k.
    destruct Hex as [[_ ->] | [Hlast _]]; [|lia].
    cbn [wireFrames] in Hfs.
    destruct (GetDataTimeProof env 2) as [r2|]; [|discriminate].
    destruct (GetDataTimeProof env (2 - 1)) as [r1|] eqn:H1; [|discriminate].
    destruct (GetDataTimeProof env (2 - 1 - 1)) as [r0|] eqn:H0;
      [|discriminate].
    injection Hfs as <-.
    exists r2, r1, r0, sig. cbn [emit fst snd app lookups submissions].
    rewrite Hlook, Hsub. repeat split; trivial.
  - rewrite Hn. intros i Hi. apply Hpresent. lia.
  - exact Hmint.
Qed.


(** ** The address of a pre-coin proof *)

Lemma be32_inj (a b : Z) :
  is_uint32 a -> is_uint32 b -> be32 a = be32 b -> a = b.
Proof.
  unfold is_uint32, be32. intros Ha Hb H.
  injection H as H3 H2 H1 H0.
  apply (f_equal Z_of_byte) in H3, H2, H1, H0.
  rewrite !Z_of_byte_of in H3, H2, H1, H0.
  change (2 ^ 24) with 16777216 in *. change (2 ^ 16) with 65536 in *.
  change (2 ^ 8) with 256 in *. change (2 ^ 32) with 4294967296 in *.
  Z.div_mod_to_equations. lia.
Qed.

Lemma be_bytes_length (n : nat) (x : Z) : List.length (be_bytes n x) = n.
Proof. induction n as [|n IH]; cbn [be_bytes List.length]; auto. Qed.

(** The bytes that are hashed, in the order of the interface description. *)
Lemma preCoinProofEval_wire (TOKEN_ADDRESS : bytes) (p : PreCoinProof)
      (owner : bytes) :
  preCoinProofEval TOKEN_ADDRESS p owner
  = TOKEN_ADDRESS ++ Amount p ++ be32 (Index p) ++ IndexProof p
    ++ Commitment p ++ Proof p ++ be32 (Parallelism p)
    ++ be32 (Difficulty p) ++ be32 0 ++ owner.
Proof.
  unfold preCoinProofEval. cbv zeta.
  rewrite !AppendUint32_wire_raw. cbn [app]. now rewrite <- !app_assoc.
Qed.

(** C2, at a sample proof: the index proof [[1]] and the commitment
    [[1; 1]] are different fields of a well-formed proof; exchanging them
    gives another proof with the same address, whatever the domain tag and
    the hash are. *)
Lemma C2_swapped_fields_counterexample :
  wf_PreCoinProof sampleProofFields /\
  swapIndexProofCommitment sampleProofFields <> sampleProofFields /\
  forall TOKEN_ADDRESS HashBytes,
    GetAddressOfPreCoinProof TOKEN_ADDRESS HashBytes
      (swapIndexProofCommitment sampleProofFields)
    = GetAddressOfPreCoinProof TOKEN_ADDRESS HashBytes sampleProofFields.
Proof.
  split; [|split].
  - constructor; try (unfold is_uint32; cbn; lia).
    now exists (tokenOf x07).
  - discriminate.
  - intros TOKEN_ADDRESS HashBytes. unfold GetAddressOfPreCoinProof.
    cbn [ownerImplicitAddress Owner swapIndexProofCommitment sampleProofFields].
    now rewrite !preCoinProofEval_wire.
Qed.

(** C2, as the code has it: for a well-formed proof whose hash succeeds
    with a value that fits 32 bytes, the function returns exactly 32 bytes,
    the big-endian encoding of the hash of the domain tag, the amount, the
    big-endian 32-bit index, the index proof, the commitment, the proof,
    the big-endian 32-bit parallelism and difficulty, a 32-bit zero and the
    owner's address, joined in this order.  The result depends on the
    fields through these bytes only: a proof with the same bytes has the
    same address.  Exchanging parallelism and difficulty changes the bytes
    whenever the two differ. *)
Theorem C2_address_of_pre_coin_proof (TOKEN_ADDRESS : bytes)
        (HashBytes : bytes -> option Z) (p : PreCoinProof) (owner : bytes)
        (h : Z) :
  wf_PreCoinProof p ->
  ownerImplicitAddress p = Some owner ->
  HashBytes (TOKEN_ADDRESS ++ Amount p ++ be32 (Index p) ++ IndexProof p
             ++ Commitment p ++ Proof p ++ be32 (Parallelism p)
             ++ be32 (Difficulty p) ++ be32 0 ++ owner) = Some h ->
  0 <= h < 2 ^ 256 ->
  (exists address,
      GetAddressOfPreCoinProof TOKEN_ADDRESS HashBytes p = Ok address /\
      List.length address = 32%nat /\
      address = be_bytes 32 h)
  /\
  (forall q owner',
      ownerImplicitAddress q = Some owner' ->
      preCoinProofEval TOKEN_ADDRESS q owner'
      = preCoinProofEval TOKEN_ADDRESS p owner ->
      GetAddressOfPreCoinProof TOKEN_ADDRESS HashBytes q
      = GetAddressOfPreCoinProof TOKEN_ADDRESS HashBytes p)
  /\
  (Parallelism p <> Difficulty p ->
   preCoinProofEval TOKEN_ADDRESS (swapParallelismDifficulty p) owner
   <> preCoinProofEval TOKEN_ADDRESS p owner).
Proof.
  intros Hwf Howner Hhash Hh. split; [|split].
  - exists (be_bytes 32 h). split; [|split; [apply be_bytes_length | reflexivity]].
    unfold GetAddressOfPreCoinProof.
    rewrite Howner, preCoinProofEval_wire, Hhash. unfold FillBytes.
    rewrite Z.abs_eq by lia.
    change (2 ^ (8 * Z.of_nat 32)) with (2 ^ 256).
    destruct (h <? 2 ^ 256) eqn:E; [reflexivity | apply Z.ltb_ge in E; lia].
  - intros q owner' Hq Heval. unfold GetAddressOfPreCoinProof.
    now rewrite Hq, Howner, Heval.
  - intros Hneq Heval. rewrite !preCoinProofEval_wire in Heval.
    cbn [swapParallelismDifficulty Amount Index IndexProof Commitment Proof
         Parallelism Difficulty] in Heval.
    do 6 apply app_inv_head in Heval.
    assert (H4 : firstn 4 (be32 (Difficulty p) ++ be32 (Parallelism p)
                           ++ be32 0 ++ owner)
                 = firstn 4 (be32 (Parallelism p) ++ be32 (Difficulty p)
                             ++ be32 0 ++ owner)) by now rewrite Heval.
    cbn in H4. apply Hneq. symmetry.
    apply be32_inj; [apply (wf_Difficulty Hwf) | apply (wf_Parallelism Hwf)|].
    exact H4.
Qed.

(** ** The theorems at the sample surroundings *)

Lemma sampleCursor_uint32 : is_uint32 (increment sampleCursor).
Proof. unfold is_uint32. cbn. lia. Defined.

Lemma denseStore_present (top n : Z) :
  n <= top -> forall i, 0 <= i <= n -> denseStore top i <> None.
Proof.
  intros Hn i Hi. unfold denseStore.
  destruct (0 <=? i) eqn:E0; [|apply Z.leb_gt in E0; lia].
  destruct (i <=? top) eqn:E1; [|apply Z.leb_gt in E1; lia].
  discriminate.
Defined.

Lemma env5_gate : gatePasses env5 3 5 [x42] sampleAddr.
Proof.
  split; [reflexivity|]. split.
  { exists 1%nat. split; [lia|]. split.
    - intros j Hj. assert (j = O) by lia. subst j. cbn. lia.
    - cbn. lia. }
  split; [exists 8; split; reflexivity|].
  split; [exists [x42]; split; reflexivity|]. split.
  { exists 1%nat. split; [lia|]. split.
    - intros j Hj. assert (j = O) by lia. subst j. reflexivity.
    - discriminate. }
  split; [reflexivity | discriminate].
Defined.


(** C2 at the sample proof, with a sample tag and hash. *)
Lemma C2_address_witness :
  exists address,
    GetAddressOfPreCoinProof (tokenOf x54) sampleHash sampleProofFields
    = Ok address /\
    List.length address = 32%nat /\
    address = be_bytes 32 92.
Proof.
  apply (@C2_address_of_pre_coin_proof (tokenOf x54) sampleHash
           sampleProofFields (tokenOf x07) 92).
  - constructor; try (unfold is_uint32; cbn; lia). now exists (tokenOf x07).
  - reflexivity.
  - vm_compute. reflexivity.
  - lia.
Defined.

Lemma env5_remote : remoteAnswers env5 (fun a => List.length a = 32%nat).
Proof.
  split.
  - intros k owner s H. injection H as <-. reflexivity.
  - intros k req a H. injection H as <-. reflexivity.
Defined.


(** C4 at the sample surroundings: the status answer carries increment 3
    and the cursor is set to 2. *)
Lemma C4_status_witness :
  exists st',
    resume st' = tokenOf x09 /\
    increment st' = 2 /\
    sessionTurn env5 [x42] sampleAddr (initialCursor 5)
    = emit [EvGetDirectChannel [x42] true;
            EvStatus sampleAddr (Some sampleStatus)]
        (runBatch env5 st').
Proof.
  apply (@C4_status_sets_the_cursor env5 [x42] sampleAddr
           (initialCursor 5) sampleStatus).
  - reflexivity.
  - reflexivity.
  - reflexivity.
  - unfold is_uint32. cbn. lia.
Defined.

(** C5 for the run at the sample surroundings. *)
Lemma C5_covers_2_1_0_witness :
  lookups (fst (runPreMidnightProofWorker env5 3)) = [2; 1; 0] /\
  snd (runPreMidnightProofWorker env5 3) = Returned Submitted.
Proof.
  destruct (@C5_status_increment_3_covers_2_1_0 env5 3 [x42] sampleAddr
              sampleStatus env5_gate)
    as (r2 & r1 & r0 & sig & _ & _ & _ & Hlook & _ & Hdone).
  - exact (@denseStore_present 5 5 ltac:(lia)).
  - reflexivity.
  - reflexivity.
  - reflexivity.
  - discriminate.
  - discriminate.
  - split; assumption.
Defined.

(** C7 for the store without the record at increment 1. *)
Lemma C7_missing_record_witness :
  GetDataTimeProof envGap 1 = None /\
  snd (runPreMidnightProofWorker envGap 4) = Returned (MissingRecord 1).
Proof.
  destruct (@C7_missing_record_stops_the_worker envGap 4 1) as (H1 & H2 & _).
  - vm_compute. repeat (first [left; reflexivity | right]).
  - split; assumption.
Defined.

(** C8 from the sample cursor, whose token is not the sentinel. *)
Lemma C8_no_status_witness :
  statusCalls (fst (sessionTurn env5 [x42] sampleAddr sampleCursor)) = O.
Proof.
  apply (@C8_no_status_call_on_resume env5 [x42] sampleAddr sampleCursor).
  - discriminate.
  - exact sampleCursor_uint32.
Defined.

(** C9 for the coin store that already holds a proof. *)
Lemma C9_already_completed_witness :
  snd (runPreMidnightProofWorker envOwned 4) = Returned AlreadyCompleted /\
  forall p ok,
    ~ In (EvGetDirectChannel p ok) (fst (runPreMidnightProofWorker envOwned 4)).
Proof.
  apply (@C9_ownership_gate envOwned 4 sampleAddr).
  vm_compute. repeat (first [left; reflexivity | right]).
Defined.



(** * Further properties of the worker *)

(** ** The session handle *)

Lemma sessionDiscipline_app (open : bool) (t1 t2 : trace) :
  sessionDiscipline open (t1 ++ t2) <->
  sessionDiscipline open t1 /\ sessionDiscipline (openAfter open t1) t2.
Proof.
  revert open. induction t1 as [|e t1 IH]; intros open.
  - cbn. tauto.
  - destruct e; cbn [app sessionDiscipline openAfter]; rewrite IH; tauto.
Qed.

Lemma openAfter_app (open : bool) (t1 t2 : trace) :
  openAfter open (t1 ++ t2) = openAfter (openAfter open t1) t2.
Proof.
  revert open. induction t1 as [|e t1 IH]; intros open; cbn [app openAfter].
  - reflexivity.
  - destruct e; apply IH.
Qed.

Lemma keepsSession_discipline (open : bool) (tr : trace) :
  forallb keepsSession tr = true ->
  sessionDiscipline open tr /\ openAfter open tr = open.
Proof.
  induction tr as [|e tr IH]; cbn [forallb]; [now split|].
  intros H. apply andb_true_iff in H as [He Htr].
  destruct e; try discriminate; cbn [sessionDiscipline openAfter]; auto.
Qed.

Lemma foundEvents_keepsSession (i : Z) (k : nat) :
  forallb keepsSession (foundEvents i k) = true.
Proof.
  unfold foundEvents. revert i. induction k as [|k IH]; intros i; cbn; auto.
Qed.

Lemma quiet_keepsSession (tr : trace) :
  Forall quiet tr -> forallb keepsSession tr = true.
Proof.
  induction 1 as [|e tr He _ IH]; cbn; trivial.
  rewrite IH. now destruct e.
Qed.

Lemma BatchOutcome_session (env : Env) (st : State) (tr : trace)
      (ex : turn_exit) :
  BatchOutcome env st tr ex ->
  sessionDiscipline true tr /\ openAfter true tr = false.
Proof.
  intros Hrun.
  inversion Hrun; subst;
    rewrite sessionDiscipline_app, openAfter_app;
    destruct (keepsSession_discipline true _ (foundEvents_keepsSession
                                                (increment st) k))
      as [Hd ->];
    cbn; auto.
Qed.

Lemma TurnRun_session (env : Env) (peerId addr : bytes) (st : State)
      (tr : trace) (ex : turn_exit) :
  TurnRun env peerId addr st tr ex ->
  sessionDiscipline false tr /\ openAfter false tr = false.
Proof.
  intros Hrun.
  inversion Hrun as [Hch | Hch Hres Hs | s tr' ex' Hch Hres Hs Hb
                    | tr' ex' Hch Hres Hb]; subst.
  - cbn. auto.
  - cbn. auto.
  - apply BatchOutcome_session in Hb. cbn. tauto.
  - apply BatchOutcome_session in Hb. cbn. tauto.
Qed.

Lemma SessionRun_session (env : Env) (peerId addr : bytes) (st : State)
      (tr : trace) (r : result) :
  SessionRun env peerId addr st tr r ->
  sessionDiscipline false tr /\ openAfter false tr = false.
Proof.
  induction 1 as [st | st tr st' tr' r Hturn Hrest IH | st tr o Hturn
                 | st tr Hturn].
  - now split.
  - destruct (TurnRun_session Hturn) as [Hd Ho].
    rewrite sessionDiscipline_app, openAfter_app, Ho. tauto.
  - apply (TurnRun_session Hturn).
  - apply (TurnRun_session Hturn).
Qed.

(** X1: in every run, however it ends and however far the fuel reaches,
    the worker opens a session only while none is open, calls the status
    and mint operations only on an open session, and leaves no session
    open at the end: every exit of the session loop, the returns, the
    panic after a failed signature and every retry, comes after
    [cc.Close()]. *)
Theorem X1_sessions_are_released (env : Env) (fuel : nat) :
  sessionDiscipline false (fst (runPreMidnightProofWorker env fuel)) /\
  openAfter false (fst (runPreMidnightProofWorker env fuel)) = false.
Proof.
  destruct (worker_phases env fuel)
    as [[Hq _] | (pre & inc & peerId & addr & Hq & _ & _ & _ & _ & -> & _)].
  - now apply keepsSession_discipline, quiet_keepsSession.
  - destruct (keepsSession_discipline false _ (quiet_keepsSession Hq))
      as [Hd Ho].
    rewrite sessionDiscipline_app, openAfter_app, Ho.
    destruct (SessionRun_session
                (sessionLoop_SessionRun env fuel peerId addr
                   (initialCursor_ok inc))) as [Hd' Ho'].
    tauto.
Qed.

(** ** The increment of the latest local proof *)

(** Two cursors that carry the sentinel token and agree on the numbers of
    calls made: the session loop cannot tell them apart, because the
    status step sets the increment before the first lookup. *)
Lemma sessionLoop_sentinel_increment (env : Env) (fuel : nat)
      (peerId addr : bytes) (st1 st2 : State) :
  resume st1 = make_bytes 32 -> resume st2 = make_bytes 32 ->
  nChannel st1 = nChannel st2 -> nStatus st1 = nStatus st2 ->
  nMint st1 = nMint st2 ->
  sessionLoop env fuel peerId addr st1 = sessionLoop env fuel peerId addr st2.
Proof.
  revert st1 st2. induction fuel as [|fuel IH];
    intros st1 st2 H1 H2 Hc Hs Hm; cbn [sessionLoop]; trivial.
  unfold sessionTurn, resolveResume. rewrite <- Hc.
  destruct (GetDirectChannel env (nChannel st1)).
  - cbn [resume countChannel nStatus nChannel nMint].
    rewrite H1, H2, bytes_Equal_refl, <- Hs, <- Hm, <- Hc.
    destruct (GetPreMidnightMintStatus env (nStatus st1) addr) as [s|].
    + reflexivity.
    + cbn [emit fst snd app].
      rewrite (IH (countStatus (countChannel st1))
                  (countStatus (countChannel st2)));
        cbn [resume countStatus countChannel nChannel nStatus nMint];
        congruence.
  - rewrite (IH (countChannel st1) (countChannel st2));
      cbn [resume countStatus countChannel nChannel nStatus nMint];
      congruence.
Qed.

(** The session loop and the waits do not read the latest proof. *)
Lemma sessionLoop_withLatest (env : Env) (latest : Z + store_error)
      (fuel : nat) (peerId addr : bytes) (st : State) :
  sessionLoop (withLatest env latest) fuel peerId addr st
  = sessionLoop env fuel peerId addr st.
Proof. reflexivity. Qed.

Lemma waitForEngine_withLatest (env : Env) (latest : Z + store_error)
      (fuel k : nat) :
  waitForEngine (withLatest env latest) fuel k = waitForEngine env fuel k.
Proof. reflexivity. Qed.

Lemma checkAlreadyMinted_withLatest (env : Env) (latest : Z + store_error)
      (fuel k : nat) (addr : bytes) :
  checkAlreadyMinted (withLatest env latest) fuel k addr
  = checkAlreadyMinted env fuel k addr.
Proof. reflexivity. Qed.

(** X2: the increment that line 25 reads from the local proof store has
    no effect on what the worker does: two surroundings that differ only
    in that increment give the same run.  The session loop starts from the
    sentinel token, so the status call replaces the increment before the
    first lookup, and every retry before that keeps the sentinel; the
    range the worker submits is set by the remote alone. *)
Theorem X2_latest_increment_is_not_used (env : Env) (fuel : nat) (a b : Z) :
  runPreMidnightProofWorker (withLatest env (inl a)) fuel
  = runPreMidnightProofWorker (withLatest env (inl b)) fuel.
Proof.
  unfold runPreMidnightProofWorker.
  cbn [GetLatestDataTimeProof poseidonHashBytes GetPeerID UnmarshalBeaconKey
       IDFromPublicKey withLatest].
  rewrite !waitForEngine_withLatest.
  destruct (waitForEngine env fuel O) as [evs [|]]; trivial.
  destruct (poseidonHashBytes env (GetPeerID env)) as [addrBI|]; trivial.
  destruct (FillBytes addrBI 32) as [addr|]; trivial.
  destruct (UnmarshalBeaconKey env) as [pub|]; trivial.
  destruct (IDFromPublicKey env pub) as [peerId|]; trivial.
  rewrite !checkAlreadyMinted_withLatest.
  destruct (checkAlreadyMinted env fuel O addr) as [evs' [| |]]; trivial.
  rewrite !sessionLoop_withLatest.
  now rewrite (sessionLoop_sentinel_increment env fuel peerId addr
                 (initialCursor a) (initialCursor b)).
Qed.

(** ** A migration in which nothing fails *)

Lemma wireFrames_app (store : Z -> option DataTimeProof) (i : Z) (a b : nat)
      (fa fb : list bytes) :
  wireFrames store i a = Some fa ->
  wireFrames store (i - Z.of_nat a) b = Some fb ->
  wireFrames store i (a + b) = Some (fa ++ fb).
Proof.
  revert i fa. induction a as [|a IH]; intros i fa.
  - cbn [wireFrames Nat.add]. intros [= <-]. now rewrite Z.sub_0_r.
  - cbn [wireFrames Nat.add]. destruct (store i) as [r|]; [|discriminate].
    destruct (wireFrames store (i - 1) a) as [fa'|] eqn:Ha; [|discriminate].
    intros [= <-] Hb.
    rewrite (IH (i - 1) fa' Ha).
    + reflexivity.
    + now replace (i - 1 - Z.of_nat a) with (i - Z.of_nat (S a)) by lia.
Qed.

Section WholeMigration.

Variable env : Env.
Hypothesis sign_ok : forall payload, SignMessage env payload <> None.
Hypothesis channel_ok : forall k, GetDirectChannel env k = true.
Hypothesis mint_ok :
  forall k req, exists a,
    HandlePreMidnightMint env k req = Some a /\ a <> make_bytes 32.

Lemma good_session_frames (peerId addr : bytes) (fuel : nat) (st : State) :
  is_uint32 (increment st) ->
  (Z.to_nat (increment st) < fuel)%nat ->
  resume st <> make_bytes 32 ->
  presentUpTo env (increment st) ->
  exists fs,
    wireFrames (GetDataTimeProof env) (increment st)
      (Z.to_nat (increment st + 1)) = Some fs /\
    sentFrames (fst (sessionLoop env fuel peerId addr st)) = fs /\
    Z.of_nat (List.length (submissions
                             (fst (sessionLoop env fuel peerId addr st))))
    = (increment st + 200) / 200.
Proof.
  revert st. induction fuel as [|fuel IH]; intros st Hn Hfuel Hres Hpresent.
  - lia.
  - cbn [sessionLoop].
    rewrite (@sessionTurn_carried env peerId addr st Hres (channel_ok _)).
    assert (Hrun := @runBatch_outcome env (countChannel st) Hn).
    destruct (runBatch env (countChannel st)) as [tr ex].
    cbn [fst snd] in Hrun.
    apply good_pass in Hrun; trivial.
    2: { intros req H. destruct (mint_ok (nMint (countChannel st)) req)
           as (a & Ha & _). congruence. }
    destruct Hrun as (k & fs & sig & a & Hk & Hfs & _ & Ha & _ & Hsub & Hex).
    cbn [increment countChannel resume] in *.
    unfold closesAt, is_uint32 in *.
    destruct Hex as [[Hlast ->] | [Hlast ->]]; cbn [emit fst snd app].
    + exists fs. replace (Z.to_nat (increment st + 1)) with k by lia.
      split; [exact Hfs|]. unfold sentFrames.
      cbn [submissions]. rewrite Hsub. cbn. rewrite app_nil_r.
      split; [reflexivity|].
      apply Z.div_unique with (r := increment st); lia.
    + destruct (IH (afterMint (countChannel st) a (increment st - Z.of_nat k)))
        as (fs' & Hfs' & Hsent & Hcount); cbn [afterMint increment resume];
        unfold is_uint32; try lia.
      * destruct (mint_ok (nMint (countChannel st))
                    (mintRequest env (freshBatch (resume st) ++ fs) sig))
          as (a' & Ha' & Hnz). congruence.
      * intros i Hi. apply Hpresent. lia.
      * cbn [afterMint increment] in Hfs', Hsent, Hcount.
        exists (fs ++ fs').
        replace (Z.to_nat (increment st + 1))
          with (k + Z.to_nat (increment st - Z.of_nat k + 1))%nat by lia.
        split; [now apply wireFrames_app|].
        unfold sentFrames in *. cbn [submissions].
        rewrite submissions_app, Hsub. cbn [app map List.concat].
        rewrite Hsent. cbn [freshBatch app skipn List.length].
        split; [reflexivity|].
        rewrite Nat2Z.inj_succ, Hcount.
        replace (increment st + 200)
          with (increment st - Z.of_nat k + 200 + 1 * 200) by lia.
        rewrite Z.div_add by lia. lia.
Qed.

End WholeMigration.

(** X3: from a token that is not the sentinel and increment [n], when
    every record from [n] down to 0 is stored and no call fails, the
    batches the worker sends hold, taken together and in order, the frame
    of every record from [n] down to 0 exactly once, and the worker sends
    one batch for every 200 records: [(n + 200) / 200] batches in all. *)
Theorem X3_every_record_is_sent_once (env : Env) (peerId addr : bytes)
        (fuel : nat) (st : State) :
  is_uint32 (increment st) ->
  (Z.to_nat (increment st) < fuel)%nat ->
  resume st <> make_bytes 32 ->
  presentUpTo env (increment st) ->
  (forall payload, SignMessage env payload <> None) ->
  (forall k, GetDirectChannel env k = true) ->
  (forall k req, exists a,
        HandlePreMidnightMint env k req = Some a /\ a <> make_bytes 32) ->
  exists fs,
    wireFrames (GetDataTimeProof env) (increment st)
      (Z.to_nat (increment st + 1)) = Some fs /\
    sentFrames (fst (sessionLoop env fuel peerId addr st)) = fs /\
    Z.of_nat (List.length (submissions
                             (fst (sessionLoop env fuel peerId addr st))))
    = (increment st + 200) / 200.
Proof.
  intros Hn Hfuel Hres Hpresent Hsign Hch Hmint.
  now apply good_session_frames.
Qed.

(** X3 for proofs at 0 to 450: three batches, of 200, 200 and 51 frames. *)
Lemma X3_three_batches_witness :
  Z.of_nat (List.length (submissions
                           (fst (sessionLoop env450 451 [x42] sampleAddr
                                   cursor450)))) = 3 /\
  map (fun req => List.length (skipn 2 (reqProofs req)))
      (submissions (fst (sessionLoop env450 451 [x42] sampleAddr cursor450)))
  = [200; 200; 51]%nat.
Proof.
  destruct (@X3_every_record_is_sent_once env450 [x42] sampleAddr 451
              cursor450) as (fs & _ & _ & Hcount).
  - unfold is_uint32. cbn. lia.
  - cbn. lia.
  - discriminate.
  - exact (@denseStore_present 450 450 ltac:(lia)).
  - discriminate.
  - reflexivity.
  - intros k req. eexists. split; [reflexivity | discriminate].
  - split; [exact Hcount | vm_compute; reflexivity].
Defined.

(** ** A submission that fails *)

Lemma wireFrames_present (store : Z -> option DataTimeProof) (i : Z) (k : nat)
      (fs : list bytes) :
  wireFrames store i k = Some fs ->
  forall j, i - Z.of_nat k < j <= i -> store j <> None.
Proof.
  revert i fs. induction k as [|k IH]; intros i fs; cbn [wireFrames].
  - intros _ j Hj. lia.
  - destruct (store i) as [r|] eqn:Hr; [|discriminate].
    destruct (wireFrames store (i - 1) k) as [fs'|] eqn:Hk; [|discriminate].
    intros _ j Hj. destruct (Z.eq_dec j i) as [->|Hne]; [congruence|].
    apply (IH (i - 1) fs' Hk). lia.
Qed.

(** Which event of a pass is a mint call, by the way the pass goes. *)
Ltac in_pass H :=
  apply in_app_or in H as [H|H];
  [ apply In_foundEvents in H as [? H]; discriminate
  | cbn in H;
    repeat (destruct H as [H|H]; [try discriminate|]);
    try contradiction ].



(** ** Turns that lead to another turn *)

Lemma countdown_last (i : Z) (k : nat) (d : Z) :
  last (countdown i (S k)) d = i - Z.of_nat k.
Proof.
  revert i. induction k as [|k IH]; intros i.
  - cbn. lia.
  - change (countdown i (S (S k))) with (i :: countdown (i - 1) (S k)).
    change (last (i :: countdown (i - 1) (S k)) d)
      with (last (countdown (i - 1) (S k)) d).
    rewrite IH. lia.
Qed.

Lemma BatchOutcome_again (env : Env) (st st' : State) (tr : trace) :
  is_uint32 (increment st) ->
  BatchOutcome env st tr (TurnAgain st') ->
  In EvSleep tr
  \/ exists req a,
      In (EvHandleMint req (Some a)) tr /\
      resume st' = a /\
      List.length (lookups tr) = 200%nat /\
      last (lookups tr) 0 = increment st' + 1.
Proof.
  unfold is_uint32. intros Hn Hrun.
  inversion Hrun as [ | | k fs sig Hfs Hk Hsig Hresp
                    | | k fs sig a Hfs Hk Hj Hsig Hresp]; subst.
  - left. apply in_or_app. right. cbn. auto 10.
  - right. exists (mintRequest env (freshBatch (resume st) ++ fs) sig), a.
    unfold closesAt in Hk. assert (k = 200%nat) by lia. subst k.
    rewrite lookups_app, lookups_foundEvents. cbn [announceEvents app lookups].
    rewrite app_nil_r. repeat split.
    + apply in_or_app. right. right. right. left. reflexivity.
    + rewrite countdown_last. cbn [afterMint increment]. lia.
Qed.

(** X5: a turn of the session loop that leads to another turn either
    contains the 10-second sleep (the session did not open, the status
    call or the mint call failed) or had a batch accepted by the remote;
    in that case the batch held 200 proofs and the next turn starts from
    the answered token, just below the last increment sent.  The worker
    never goes round the loop without waiting or moving on. *)
Theorem X5_a_turn_waits_or_moves_on (env : Env) (peerId addr : bytes)
        (st st' : State) :
  cursorOK st ->
  snd (sessionTurn env peerId addr st) = TurnAgain st' ->
  In EvSleep (fst (sessionTurn env peerId addr st))
  \/ exists req a,
      In (EvHandleMint req (Some a)) (fst (sessionTurn env peerId addr st)) /\
      resume st' = a /\
      List.length (lookups (fst (sessionTurn env peerId addr st))) = 200%nat /\
      last (lookups (fst (sessionTurn env peerId addr st))) 0
      = increment st' + 1.
Proof.
  intros Hst Hex.
  assert (Hturn := sessionTurn_TurnRun env peerId addr Hst).
  rewrite Hex in Hturn.
  destruct (sessionTurn env peerId addr st) as [tr ex]. cbn [fst snd] in *.
  inversion Hturn as [Hch | Hch Hres Hs | s tr' ex' Hch Hres Hs Hb
                     | tr' ex' Hch Hres Hb]; subst.
  - left. cbn. auto.
  - left. cbn. auto 10.
  - apply BatchOutcome_again in Hb.
    + destruct Hb as [Hsleep | (req & a & Hin & Hres' & Hlen & Hlast)].
      * left. now right; right.
      * right. exists req, a. repeat split; trivial. now right; right.
    + unfold afterStatus. cbn. destruct (statusIncrement s =? 0).
      * unfold is_uint32. lia.
      * apply uint32_range.
  - apply BatchOutcome_again in Hb.
    + destruct Hb as [Hsleep | (req & a & Hin & Hres' & Hlen & Hlast)].
      * left. now right.
      * right. exists req, a. repeat split; trivial. now right.
    + destruct Hst as [H|H]; [exact H | contradiction].
Qed.

(** ** Whom the worker talks to *)

Lemma FillBytes_length (x : Z) (n : nat) (b : bytes) :
  FillBytes x n = Some b -> List.length b = n.
Proof.
  unfold FillBytes. destruct (Z.abs x <? 2 ^ (8 * Z.of_nat n)); [|discriminate].
  intros [= <-]. apply be_bytes_length.
Qed.

Lemma BatchOutcome_addressedTo (env : Env) (peerId addr : bytes) (st : State)
      (tr : trace) (ex : turn_exit) :
  BatchOutcome env st tr ex -> Forall (addressedTo peerId addr) tr.
Proof.
  intros Hrun. inversion Hrun; subst; apply Forall_app;
    (split; [now apply Forall_foundEvents | repeat constructor]).
Qed.

Lemma SessionRun_addressedTo (env : Env) (peerId addr : bytes) (st : State)
      (tr : trace) (r : result) :
  SessionRun env peerId addr st tr r -> Forall (addressedTo peerId addr) tr.
Proof.
  assert (Hturn : forall st tr ex,
             TurnRun env peerId addr st tr ex ->
             Forall (addressedTo peerId addr) tr).
  { intros st0 tr0 ex0 Hrun.
    inversion Hrun as [Hch | Hch Hres Hs | s tr' ex' Hch Hres Hs Hb
                      | tr' ex' Hch Hres Hb]; subst;
      repeat constructor; eapply BatchOutcome_addressedTo; eassumption. }
  induction 1 as [st | st tr st' tr' r Ht Hrest IH | st tr o Ht | st tr Ht].
  - constructor.
  - apply Forall_app. eauto.
  - eauto.
  - eauto.
Qed.

(** X6: in every run, every query of the coin store and every status
    request is about the address the worker derived from its own peer id,
    the hash of the peer id as exactly 32 big-endian bytes, and every
    channel is opened to the peer id of the beacon key of the genesis
    configuration. *)
Theorem X6_requests_carry_the_own_address (env : Env) (fuel : nat) :
  Forall (addressedRight env) (fst (runPreMidnightProofWorker env fuel)).
Proof.
  assert (Hquiet : forall tr,
             Forall quiet tr -> (forall a, ~ In (EvQueryOwner a) tr) ->
             Forall (addressedRight env) tr).
  { intros tr Hq Hno. apply Forall_forall. intros e He.
    rewrite Forall_forall in Hq. specialize (Hq e He).
    destruct e; try exact I; try contradiction. now apply Hno in He. }
  unfold runPreMidnightProofWorker.
  destruct (GetLatestDataTimeProof env) as [inc|[|]];
    [| repeat constructor ..].
  assert (Hwait := waitForEngine_quiet env fuel O).
  assert (Hnoq := waitForEngine_no_query env fuel O).
  destruct (waitForEngine env fuel O) as [evs [|]]; cbn [fst] in Hwait, Hnoq.
  2: { cbn. constructor; [exact I | now apply Hquiet]. }
  assert (Hevs : Forall (addressedRight env) evs) by now apply Hquiet.
  destruct (poseidonHashBytes env (GetPeerID env)) as [addrBI|] eqn:Hhash.
  2: { cbn. rewrite app_nil_r. now constructor. }
  destruct (FillBytes addrBI 32) as [addr|] eqn:Hfill.
  2: { cbn. rewrite app_nil_r. now constructor. }
  destruct (UnmarshalBeaconKey env) as [pub|] eqn:Hpub.
  2: { cbn. rewrite app_nil_r. now constructor. }
  destruct (IDFromPublicKey env pub) as [peerId|] eqn:Hid.
  2: { cbn. rewrite app_nil_r. now constructor. }
  assert (Haddr : exists h, Some addrBI = Some h /\ FillBytes h 32 = Some addr
                            /\ List.length addr = 32%nat).
  { exists addrBI. repeat split; trivial. eapply FillBytes_length, Hfill. }
  destruct (checkAlreadyMinted_cases env fuel O addr) as (Hq & Hown & _).
  assert (Hgate : Forall (addressedRight env)
                    (fst (checkAlreadyMinted env fuel O addr))).
  { apply Forall_forall. intros e He.
    rewrite Forall_forall in Hq. specialize (Hq e He).
    destruct e; try exact I; try contradiction.
    apply Hown in He. subst addr0. cbn. rewrite Hhash. exact Haddr. }
  destruct (checkAlreadyMinted env fuel O addr) as [evs' [| o |]];
    cbn [fst] in Hgate.
  - rewrite !fst_emit. cbn [app]. constructor; [exact I|].
    apply Forall_app. split; trivial. apply Forall_app. split; trivial.
    assert (Hs := SessionRun_addressedTo
                    (sessionLoop_SessionRun env fuel peerId addr
                       (initialCursor_ok inc))).
    revert Hs. apply Forall_impl. intros e He.
    destruct e; try exact I; cbn in He |- *; subst.
    + rewrite Hhash. exact Haddr.
    + exists pub. now split.
    + rewrite Hhash. exact Haddr.
  - cbn. constructor; [exact I|]. now apply Forall_app.
  - cbn. constructor; [exact I|]. now apply Forall_app.
Qed.

(** ** What the result of the worker says *)

Lemma wireFrames_last (store : Z -> option DataTimeProof) (i : Z) (k : nat)
      (fs : list bytes) (d : bytes) :
  wireFrames store i (S k) = Some fs ->
  exists r, store (i - Z.of_nat k) = Some r /\
            last fs d = wireFrame (i - Z.of_nat k) r.
Proof.
  revert i fs. induction k as [|k IH]; intros i fs.
  - cbn [wireFrames]. destruct (store i) as [r|] eqn:Hr; [|discriminate].
    intros [= <-]. exists r. change (Z.of_nat 0) with 0.
    rewrite Z.sub_0_r. now split.
  - change (wireFrames store i (S (S k)))
      with (match store i, wireFrames store (i - 1) (S k) with
            | Some r, Some fs' => Some (wireFrame i r :: fs')
            | _, _ => None
            end).
    destruct (store i) as [r|]; [|discriminate].
    destruct (wireFrames store (i - 1) (S k)) as [fs'|] eqn:Hk; [|discriminate].
    intros [= <-].
    destruct (IH (i - 1) fs' Hk) as (r' & Hr' & Hlast).
    exists r'. replace (i - Z.of_nat (S k)) with (i - 1 - Z.of_nat k) by lia.
    split; trivial.
    assert (Hlen := wireFrames_length _ _ _ Hk).
    destruct fs' as [|f fs']; [discriminate|]. exact Hlast.
Qed.

Lemma last_app_nonempty (A : Type) (l1 l2 : list A) (d : A) :
  l2 <> [] -> last (l1 ++ l2) d = last l2 d.
Proof.
  intros Hne. induction l1 as [|x l1 IH]; trivial.
  cbn [app]. destruct (l1 ++ l2) eqn:E.
  - apply app_eq_nil in E as [_ E]. contradiction.
  - rewrite <- E in *. cbn [last]. rewrite E. now rewrite <- E.
Qed.

Lemma BatchOutcome_outcome (env : Env) (st : State) (tr : trace)
      (ex : turn_exit) :
  is_uint32 (increment st) ->
  BatchOutcome env st tr ex ->
  match ex with
  | TurnReturn o => forall pre, outcomeHolds env (pre ++ tr) (Returned o)
  | TurnPanic => forall pre, outcomeHolds env (pre ++ tr) Panicked
  | _ => True
  end.
Proof.
  unfold is_uint32. intros Hn Hrun.
  inversion Hrun as [k fs Hfs Hk Hnone | k fs Hfs Hk Hsig
                    | k fs sig Hfs Hk Hsig Hresp
                    | k fs sig a Hfs Hk Hj Hsig Hresp
                    | k fs sig a Hfs Hk Hj Hsig Hresp]; subst; trivial;
    intros pre; cbn [outcomeHolds].
  - exists (pre ++ foundEvents (increment st) k).
    now rewrite <- app_assoc.
  - exists (pre ++ foundEvents (increment st) k
                ++ [EvInfo "publishing proof batch"]).
    exists (mintPayload (freshBatch (resume st) ++ fs)).
    split; trivial. now rewrite <- !app_assoc.
  - unfold closesAt in Hk. destruct k as [|k]; [lia|].
    destruct (wireFrames_last _ _ _ [] Hfs) as (r0 & Hr0 & Hlast).
    replace (increment st - Z.of_nat k) with 0 in Hr0, Hlast by lia.
    exists (pre ++ foundEvents (increment st) (S k)
                ++ announceEvents (freshBatch (resume st) ++ fs)).
    exists (mintRequest env (freshBatch (resume st) ++ fs) sig), a, r0.
    split; [now rewrite <- !app_assoc|]. split; trivial.
    cbn [reqProofs mintRequest]. rewrite last_app_nonempty; trivial.
    assert (Hlen := wireFrames_length _ _ _ Hfs).
    destruct fs; [discriminate | discriminate].
Qed.

Lemma SessionRun_outcome (env : Env) (peerId addr : bytes) (st : State)
      (tr : trace) (r : result) :
  SessionRun env peerId addr st tr r ->
  cursorOK st ->
  forall pre, outcomeHolds env (pre ++ tr) r.
Proof.
  assert (Hturn : forall st tr ex,
             cursorOK st -> TurnRun env peerId addr st tr ex ->
             match ex with
             | TurnReturn o => forall pre, outcomeHolds env (pre ++ tr) (Returned o)
             | TurnPanic => forall pre, outcomeHolds env (pre ++ tr) Panicked
             | _ => True
             end).
  { intros st0 tr0 ex0 Hst Hrun.
    inversion Hrun as [Hch | Hch Hres Hs | s tr' ex' Hch Hres Hs Hb
                      | tr' ex' Hch Hres Hb]; subst; trivial.
    - apply BatchOutcome_outcome in Hb.
      + destruct ex0; trivial; intros pre;
          specialize (Hb (pre ++ [EvGetDirectChannel peerId true;
                                  EvStatus addr (Some s)]));
          now rewrite <- app_assoc in Hb.
      + unfold afterStatus. cbn. destruct (statusIncrement s =? 0).
        * unfold is_uint32. lia.
        * apply uint32_range.
    - apply BatchOutcome_outcome in Hb.
      + destruct ex0; trivial; intros pre;
          specialize (Hb (pre ++ [EvGetDirectChannel peerId true]));
          now rewrite <- app_assoc in Hb.
      + destruct Hst as [H|H]; [exact H | contradiction]. }
  induction 1 as [st | st tr st' tr' r Ht Hrest IH | st tr o Ht | st tr Ht];
    intros Hst pre.
  - exact I.
  - rewrite app_assoc. apply IH. eapply TurnRun_cursorOK; eassumption.
  - apply (Hturn _ _ _ Hst Ht).
  - apply (Hturn _ _ _ Hst Ht).
Qed.

(** X7: the worker returns "submitted" only after the remote accepted a
    batch whose last entry is the frame of the record at increment 0: the
    run then ends with that mint call, the log line and the release of the
    session.  It returns "missing record [i]" only after the lookup of
    [i], absent from the store, as its last action before the log and the
    release of the session. *)
Theorem X7_results_are_earned (env : Env) (fuel : nat) :
  let tr := fst (runPreMidnightProofWorker env fuel) in
  let r := snd (runPreMidnightProofWorker env fuel) in
  (r = Returned Submitted ->
   exists pre req a r0,
     tr = pre ++ [EvHandleMint req (Some a);
                  EvInfo "pre-midnight proofs submitted, returning";
                  EvClose] /\
     GetDataTimeProof env 0 = Some r0 /\
     last (reqProofs req) [] = wireFrame 0 r0)
  /\
  (forall i,
      r = Returned (MissingRecord i) ->
      GetDataTimeProof env i = None /\
      exists pre,
        tr = pre ++ [EvGetDataTimeProof i false;
                     EvError "could not find data time proof for peer and increment, stopping worker";
                     EvClose]).
Proof.
  cbv zeta.
  destruct (worker_phases env fuel)
    as [(Hq & Hearly & _)
       | (pre & inc & peerId & addr & Hq & _ & _ & _ & _ & Htr & Hr)].
  - split; [|intros i]; intros Hr; rewrite Hr in Hearly; contradiction.
  - assert (Hout := SessionRun_outcome
                      (sessionLoop_SessionRun env fuel peerId addr
                         (initialCursor_ok inc))
                      (initialCursor_ok inc) pre).
    rewrite <- Htr, <- Hr in Hout.
    split; [|intros i]; intros Hres; rewrite Hres in Hout;
      cbn [outcomeHolds] in Hout.
    + exact Hout.
    + destruct Hout as (pre' & Htr' & Hnone). split; trivial. now exists pre'.
Qed.

(** ** A signature that fails *)

Lemma foundEvents_signedFine (env : Env) (i : Z) (k : nat) :
  signedFine env (foundEvents i k).
Proof. now apply Forall_foundEvents. Qed.

Lemma BatchOutcome_signs (env : Env) (st : State) (tr : trace)
      (ex : turn_exit) :
  BatchOutcome env st tr ex ->
  signedFine env tr
  \/ exists pre p,
      signedFine env pre /\ tr = pre ++ [EvSignMessage p; EvClose] /\
      SignMessage env p = None /\ ex = TurnPanic.
Proof.
  intros Hrun.
  inversion Hrun as [k fs Hfs Hk Hnone | k fs Hfs Hk Hsig
                    | k fs sig Hfs Hk Hsig Hresp
                    | k fs sig a Hfs Hk Hj Hsig Hresp
                    | k fs sig a Hfs Hk Hj Hsig Hresp]; subst.
  - left. apply Forall_app. split; [apply foundEvents_signedFine|].
    repeat constructor.
  - right. exists (foundEvents (increment st) k
                     ++ [EvInfo "publishing proof batch"]).
    exists (mintPayload (freshBatch (resume st) ++ fs)).
    repeat split; trivial.
    + apply Forall_app. split; [apply foundEvents_signedFine|].
      repeat constructor.
    + now rewrite <- app_assoc.
  - left. apply Forall_app. split; [apply foundEvents_signedFine|].
    repeat constructor. congruence.
  - left. apply Forall_app. split; [apply foundEvents_signedFine|].
    repeat constructor. congruence.
  - left. apply Forall_app. split; [apply foundEvents_signedFine|].
    repeat constructor. congruence.
Qed.

Lemma TurnRun_signs (env : Env) (peerId addr : bytes) (st : State)
      (tr : trace) (ex : turn_exit) :
  TurnRun env peerId addr st tr ex ->
  signedFine env tr
  \/ exists pre p,
      signedFine env pre /\ tr = pre ++ [EvSignMessage p; EvClose] /\
      SignMessage env p = None /\ ex = TurnPanic.
Proof.
  intros Hrun.
  inversion Hrun as [Hch | Hch Hres Hs | s tr' ex' Hch Hres Hs Hb
                    | tr' ex' Hch Hres Hb]; subst.
  - left. repeat constructor.
  - left. repeat constructor.
  - destruct (BatchOutcome_signs Hb) as [Hok | (pre & p & Hpre & -> & Hp & ->)].
    + left. repeat constructor. exact Hok.
    + right. exists (EvGetDirectChannel peerId true
                       :: EvStatus addr (Some s) :: pre), p.
      repeat split; trivial. repeat constructor. exact Hpre.
  - destruct (BatchOutcome_signs Hb) as [Hok | (pre & p & Hpre & -> & Hp & ->)].
    + left. repeat constructor. exact Hok.
    + right. exists (EvGetDirectChannel peerId true :: pre), p.
      repeat split; trivial. repeat constructor. exact Hpre.
Qed.

Lemma SessionRun_signs (env : Env) (peerId addr : bytes) (st : State)
      (tr : trace) (r : result) :
  SessionRun env peerId addr st tr r ->
  signedFine env tr
  \/ exists pre p,
      signedFine env pre /\ tr = pre ++ [EvSignMessage p; EvClose] /\
      SignMessage env p = None /\ r = Panicked.
Proof.
  induction 1 as [st | st tr st' tr' r Ht Hrest IH | st tr o Ht | st tr Ht].
  - left. constructor.
  - destruct (TurnRun_signs Ht) as [Hok | (pre & p & _ & _ & _ & [=])].
    destruct IH as [Hok' | (pre & p & Hpre & -> & Hp & ->)].
    + left. now apply Forall_app.
    + right. exists (tr ++ pre), p. rewrite <- app_assoc.
      repeat split; trivial. now apply Forall_app.
  - destruct (TurnRun_signs Ht) as [Hok | (pre & p & _ & _ & _ & [=])].
    now left.
  - destruct (TurnRun_signs Ht) as [Hok | (pre & p & Hpre & -> & Hp & _)].
    + now left.
    + right. now exists pre, p.
Qed.

(** X8: when the signer refuses the payload of a batch, the worker closes
    the session and panics: the run ends with that call of [SignMessage]
    and [cc.Close()], so the batch is not sent and nothing is retried. *)
Theorem X8_failed_signature_panics (env : Env) (fuel : nat) (payload : bytes) :
  let tr := fst (runPreMidnightProofWorker env fuel) in
  In (EvSignMessage payload) tr ->
  SignMessage env payload = None ->
  snd (runPreMidnightProofWorker env fuel) = Panicked /\
  exists pre,
    tr = pre ++ [EvSignMessage payload; EvClose] /\
    signedFine env pre.
Proof.
  cbv zeta. intros Hin Hnone.
  assert (Hfine : forall tr, signedFine env tr ->
                             ~ In (EvSignMessage payload) tr).
  { intros tr Hok H. unfold signedFine in Hok. rewrite Forall_forall in Hok.
    now apply Hok in H. }
  assert (Hquiet : forall tr, Forall quiet tr -> signedFine env tr).
  { intros tr. apply Forall_impl. now intros []. }
  destruct (worker_phases env fuel)
    as [(Hq & _ & _)
       | (pre & inc & peerId & addr & Hq & _ & _ & _ & _ & Htr & Hr)].
  - now apply Hquiet, Hfine in Hq.
  - rewrite Htr in Hin |- *. rewrite Hr.
    destruct (SessionRun_signs
                (sessionLoop_SessionRun env fuel peerId addr
                   (initialCursor_ok inc)))
      as [Hok | (pre' & p & Hpre & Hs & Hp & Hpanic)].
    + exfalso. revert Hin. apply Hfine.
      apply Forall_app. split; [now apply Hquiet | exact Hok].
    + rewrite Hs in Hin |- *. rewrite Hpanic.
      assert (payload = p).
      { apply in_app_or in Hin as [H|H]; [now apply Hquiet, Hfine in Hq|].
        apply in_app_or in H as [H|H]; [now apply Hfine in Hpre|].
        destruct H as [[= ->]|[[=]|[]]]. reflexivity. }
      subst p. split; trivial.
      exists (pre ++ pre'). rewrite <- app_assoc. split; trivial.
      apply Forall_app. split; [now apply Hquiet | exact Hpre].
Qed.

(** ** Frames can be told apart *)

Lemma be64_inj (a b : Z) :
  0 <= a < 2 ^ 64 -> 0 <= b < 2 ^ 64 -> be64 a = be64 b -> a = b.
Proof.
  unfold be64. intros Ha Hb H.
  injection H as H7 H6 H5 H4 H3 H2 H1 H0.
  apply (f_equal Z_of_byte) in H7, H6, H5, H4, H3, H2, H1, H0.
  rewrite !Z_of_byte_of in *.
  change (2 ^ 56) with 72057594037927936 in *.
  change (2 ^ 48) with 281474976710656 in *.
  change (2 ^ 40) with 1099511627776 in *.
  change (2 ^ 32) with 4294967296 in *.
  change (2 ^ 24) with 16777216 in *. change (2 ^ 16) with 65536 in *.
  change (2 ^ 8) with 256 in *. change (2 ^ 64) with 18446744073709551616 in *.
  Z.div_mod_to_equations. lia.
Qed.

Lemma app_same_length (A : Type) (a b x y : list A) :
  List.length a = List.length b -> a ++ x = b ++ y -> a = b /\ x = y.
Proof.
  revert b. induction a as [|u a IH]; intros [|v b] Hlen H;
    try discriminate; [now split|].
  injection H as -> H. injection Hlen as Hlen.
  destruct (IH b Hlen H) as [-> ->]. now split.
Qed.

(** A frame followed by anything can be split in one way only. *)
Lemma frameProof_prefix_free (i i' : Z) (r r' : DataTimeProof)
      (rest rest' : bytes) :
  is_uint32 i -> is_uint32 i' -> framable r -> framable r' ->
  frameProof i r ++ rest = frameProof i' r' ++ rest' ->
  i = i' /\ r = r' /\ rest = rest'.
Proof.
  intros Hi Hi' (Hp & Hin & Hout) (Hp' & Hin' & Hout') H.
  rewrite !frameProof_wire in H. unfold wireFrame in H.
  rewrite <- !app_assoc in H.
  apply app_same_length in H as [H1 H]; [|reflexivity].
  apply app_same_length in H as [H2 H]; [|reflexivity].
  apply app_same_length in H as [H3 H]; [|reflexivity].
  apply be32_inj in H1; trivial. apply be32_inj in H2; trivial.
  apply be64_inj in H3; try lia.
  apply app_same_length in H as [H4 H]; [|lia].
  apply app_same_length in H as [H5 H]; [|reflexivity].
  apply be64_inj in H5; try lia.
  apply app_same_length in H as [H6 H]; [|lia].
  destruct r, r'. cbn in *. subst. auto.
Qed.

Lemma frames_inj (recs recs' : list (Z * DataTimeProof)) :
  Forall framableEntry recs -> Forall framableEntry recs' ->
  List.concat (map frameOf recs) = List.concat (map frameOf recs') ->
  recs = recs'.
Proof.
  assert (Hne : forall i r rest, frameProof i r ++ rest <> []).
  { intros i r rest. rewrite frameProof_wire. discriminate. }
  intros Hwf. revert recs'.
  induction Hwf as [|[i r] recs [Hi Hr] _ IH]; intros recs' Hwf' H.
  - destruct Hwf' as [|[i' r'] recs' _ _]; trivial.
    symmetry in H. now apply Hne in H.
  - destruct Hwf' as [|[i' r'] recs' [Hi' Hr'] Hwf'].
    + now apply Hne in H.
    + change (frameProof i r ++ List.concat (map frameOf recs)
              = frameProof i' r' ++ List.concat (map frameOf recs')) in H.
      apply frameProof_prefix_free in H; trivial.
      destruct H as (-> & -> & H). f_equal. now apply IH.
Qed.

(** X9: the payload that is signed determines the batch.  Tokens of one
    length and records whose fields fit their fixed-width integers cannot
    give the same payload in two ways: the length prefixes of the frames
    of lines 142-148 make a frame end where it says, so equal payloads
    have the same token and the same increments and records, in the same
    order. *)
Theorem X9_signed_payload_determines_the_batch
        (tok tok' : bytes) (recs recs' : list (Z * DataTimeProof)) :
  List.length tok = List.length tok' ->
  Forall framableEntry recs -> Forall framableEntry recs' ->
  mintPayload (freshBatch tok ++ map frameOf recs)
  = mintPayload (freshBatch tok' ++ map frameOf recs') ->
  tok = tok' /\ recs = recs'.
Proof.
  intros Hlen Hwf Hwf' H.
  rewrite !mintPayload_concat in H. apply app_inv_head in H.
  cbn [freshBatch app List.concat] in H. apply app_inv_head in H.
  apply app_same_length in H as [-> H]; trivial.
  split; trivial. now apply frames_inj.
Qed.

Lemma X9_payload_witness :
  tokenOf x09 = tokenOf x09 /\
  [(1, sampleProof 1); (0, sampleProof 0)]
  = [(1, sampleProof 1); (0, sampleProof 0)].
Proof.
  apply (@X9_signed_payload_determines_the_batch (tokenOf x09) (tokenOf x09)
           [(1, sampleProof 1); (0, sampleProof 0)]
           [(1, sampleProof 1); (0, sampleProof 0)]).
  - reflexivity.
  - repeat constructor; cbn; lia.
  - repeat constructor; cbn; lia.
  - reflexivity.
Defined.


(** ** The further properties at the sample surroundings *)

(** X5 for the first turn over proofs at 0 to 450: the batch of 200 is
    accepted and the next turn starts at 250. *)
Lemma X5_next_turn_witness :
  let tr := fst (sessionTurn env450 [x42] sampleAddr cursor450) in
  In EvSleep tr
  \/ exists req a,
      In (EvHandleMint req (Some a)) tr /\
      resume cursor250 = a /\
      List.length (lookups tr) = 200%nat /\
      last (lookups tr) 0 = increment cursor250 + 1.
Proof.
  apply (@X5_a_turn_waits_or_moves_on env450 [x42] sampleAddr cursor450
           cursor250).
  - left. unfold is_uint32. cbn. lia.
  - vm_compute. reflexivity.
Defined.

(** X7 at the sample surroundings: the run over proofs at 0 to 5 is
    submitted, the run over the store without increment 1 stops there. *)
Lemma X7_results_witness :
  (exists pre req a r0,
      fst (runPreMidnightProofWorker env5 3)
      = pre ++ [EvHandleMint req (Some a);
                EvInfo "pre-midnight proofs submitted, returning";
                EvClose] /\
      GetDataTimeProof env5 0 = Some r0 /\
      last (reqProofs req) [] = wireFrame 0 r0)
  /\
  (GetDataTimeProof envGap 1 = None /\
   exists pre,
     fst (runPreMidnightProofWorker envGap 4)
     = pre ++ [EvGetDataTimeProof 1 false;
               EvError "could not find data time proof for peer and increment, stopping worker";
               EvClose]).
Proof.
  split.
  - apply (proj1 (X7_results_are_earned env5 3)). vm_compute. reflexivity.
  - apply (proj2 (X7_results_are_earned envGap 4) 1). vm_compute. reflexivity.
Defined.

(** X8 for the signer that refuses every payload. *)
Lemma X8_refused_witness :
  snd (runPreMidnightProofWorker envNoSigner 3) = Panicked /\
  exists pre,
    fst (runPreMidnightProofWorker envNoSigner 3)
    = pre ++ [EvSignMessage samplePayload; EvClose] /\
    signedFine envNoSigner pre.
Proof.
  apply (@X8_failed_signature_panics envNoSigner 3 samplePayload).
  - vm_compute. repeat (first [left; reflexivity | right]).
  - reflexivity.
Defined.


(** ** The waits before the first session *)

Lemma waitForEngine_trace (env : Env) (k fuel k0 : nat) :
  (k < fuel)%nat ->
  (forall j, (j < k)%nat ->
             engineState env (k0 + j) < EngineStateCollecting env) ->
  EngineStateCollecting env <= engineState env (k0 + k) ->
  waitForEngine env fuel k0
  = (waits "waiting for node to finish starting" k, true).
Proof.
  revert fuel k0. induction k as [|k IH]; intros [|fuel] k0 Hf Hwait Hready;
    try lia; cbn [waitForEngine].
  - rewrite Nat.add_0_r in Hready.
    destruct (engineState env k0 <? EngineStateCollecting env) eqn:E;
      [apply Z.ltb_lt in E; lia | reflexivity].
  - assert (H0 := Hwait O ltac:(lia)). rewrite Nat.add_0_r in H0.
    apply Z.ltb_lt in H0. rewrite H0.
    rewrite (IH fuel (S k0)); try lia.
    + reflexivity.
    + intros j Hj. replace (S k0 + j)%nat with (k0 + S j)%nat by lia.
      apply Hwait. lia.
    + now replace (S k0 + k)%nat with (k0 + S k)%nat by lia.
Qed.

Lemma checkAlreadyMinted_trace (env : Env) (addr : bytes) (k fuel k0 : nat) :
  (k < fuel)%nat ->
  (forall j, (j < k)%nat -> GetFrameProverTries env (k0 + j) = O) ->
  GetFrameProverTries env (k0 + k) <> O ->
  exists rest,
    fst (checkAlreadyMinted env fuel k0 addr)
    = waits "waiting for more frame info to appear" k
      ++ EvQueryOwner addr :: rest /\
    sessionOnly rest /\
    (snd (checkAlreadyMinted env fuel k0 addr) = GateReady -> rest = []).
Proof.
  revert fuel k0. induction k as [|k IH]; intros [|fuel] k0 Hf Hwait Hready;
    try lia; cbn [checkAlreadyMinted].
  - rewrite Nat.add_0_r in Hready. apply Nat.eqb_neq in Hready.
    rewrite Hready, fst_emit, snd_emit. eexists. split; [reflexivity|].
    destruct (GetPreCoinProofsForOwner env addr) as [prfs [[|]|]];
      try destruct (negb (len prfs =? 0));
      cbn [fst snd]; split; try discriminate; trivial;
        repeat constructor.
  - assert (H0 := Hwait O ltac:(lia)). rewrite Nat.add_0_r in H0.
    rewrite H0. cbn [Nat.eqb]. rewrite fst_emit, snd_emit.
    destruct (IH fuel (S k0)) as (rest & Htr & Hq & Hr); try lia.
    + intros j Hj. replace (S k0 + j)%nat with (k0 + S j)%nat by lia.
      apply Hwait. lia.
    + now replace (S k0 + k)%nat with (k0 + S k)%nat by lia.
    + exists rest. rewrite Htr. repeat split; trivial.
Qed.

(** X19: before its first session the worker waits in rounds of 10
    seconds, first for the engine to collect and then for prover tries to
    appear, and asks the coin store once, after exactly as many rounds as
    the two took; nothing after that asks the coin store again. *)
Theorem X19_the_waits_before_the_first_session
        (env : Env) (fuel : nat) (inc : Z) (ke kt : nat)
        (addrBI : Z) (addr pub peerId : bytes) :
  GetLatestDataTimeProof env = inl inc ->
  (ke < fuel)%nat ->
  (forall j, (j < ke)%nat ->
             engineState env j < EngineStateCollecting env) ->
  EngineStateCollecting env <= engineState env ke ->
  poseidonHashBytes env (GetPeerID env) = Some addrBI ->
  FillBytes addrBI 32 = Some addr ->
  UnmarshalBeaconKey env = Some pub ->
  IDFromPublicKey env pub = Some peerId ->
  (kt < fuel)%nat ->
  (forall j, (j < kt)%nat -> GetFrameProverTries env j = O) ->
  GetFrameProverTries env kt <> O ->
  exists rest,
    fst (runPreMidnightProofWorker env fuel)
    = EvInfo "checking for pre-2.0 proofs"
      :: waits "waiting for node to finish starting" ke
      ++ waits "waiting for more frame info to appear" kt
      ++ EvQueryOwner addr :: rest /\
    sessionOnly rest.
Proof.
  intros Hlatest Hke Hwait Hready Hhash Hfill Hpub Hid Hkt Htries Hsome.
  unfold runPreMidnightProofWorker.
  rewrite Hlatest, (@waitForEngine_trace env ke fuel O Hke Hwait Hready).
  rewrite Hhash, Hfill, Hpub, Hid.
  destruct (@checkAlreadyMinted_trace env addr kt fuel O Hkt Htries Hsome)
    as (rest & Htr & Hq & Hr).
  destruct (checkAlreadyMinted env fuel O addr) as [evs g].
  cbn [fst snd] in Htr, Hr. subst evs.
  destruct g as [| o |].
  2, 3: (exists rest; split; trivial).
  - rewrite (Hr eq_refl).
    exists (fst (sessionLoop env fuel peerId addr (initialCursor inc))).
    split.
    + cbn [emit fst snd app]. now rewrite <- !app_assoc.
    + eapply SessionRun_sessionOnly.
      apply sessionLoop_SessionRun, initialCursor_ok.
Qed.

Lemma X19_waits_witness :
  exists rest,
    fst (runPreMidnightProofWorker env5 3)
    = EvInfo "checking for pre-2.0 proofs"
      :: waits "waiting for node to finish starting" 1
      ++ waits "waiting for more frame info to appear" 1
      ++ EvQueryOwner sampleAddr :: rest /\
    sessionOnly rest.
Proof.
  apply (@X19_the_waits_before_the_first_session env5 3 5 1 1 8 sampleAddr
           [x42] [x42]); try reflexivity; try lia; try discriminate.
  - intros j Hj. assert (j = O) by lia. subst j. cbn. lia.
  - intros j Hj. assert (j = O) by lia. subst j. reflexivity.
Defined.

(** ** The address keeps the hash *)

Lemma be_bytes_S (n : nat) (x : Z) :
  be_bytes (S n) x = byte_of (Z.shiftr x (8 * Z.of_nat n)) :: be_bytes n x.
Proof. reflexivity. Qed.

Lemma be_bytes_mod (k m : nat) (x : Z) :
  (k <= m)%nat -> be_bytes k (x mod 2 ^ (8 * Z.of_nat m)) = be_bytes k x.
Proof.
  induction k as [|k IH]; intros Hk; [reflexivity|].
  rewrite !be_bytes_S, IH by lia. f_equal.
  apply byte_of_congr. change 256 with (2 ^ 8).
  apply Z.bits_inj'. intros n Hn.
  destruct (Z.ltb_spec n 8).
  - rewrite !Z.mod_pow2_bits_low, !Z.shiftr_spec by lia.
    apply Z.mod_pow2_bits_low. lia.
  - now rewrite !Z.mod_pow2_bits_high by lia.
Qed.

Lemma be_bytes_inj (n : nat) (x y : Z) :
  0 <= x < 2 ^ (8 * Z.of_nat n) -> 0 <= y < 2 ^ (8 * Z.of_nat n) ->
  be_bytes n x = be_bytes n y -> x = y.
Proof.
  revert x y. induction n as [|n IH]; intros x y Hx Hy H.
  - cbn in Hx, Hy. lia.
  - rewrite !be_bytes_S in H.
    assert (Hcons : forall (a b : byte) l l',
               a :: l = b :: l' -> a = b /\ l = l')
      by (intros a b l l' [= -> ->]; now split).
    apply Hcons in H as [Hhd Htl]. clear Hcons.
    assert (Hp : 0 < 2 ^ (8 * Z.of_nat n)) by (apply Z.pow_pos_nonneg; lia).
    assert (Hpow : 2 ^ (8 * Z.of_nat (S n)) = 2 ^ (8 * Z.of_nat n) * 256).
    { replace (8 * Z.of_nat (S n)) with (8 * Z.of_nat n + 8) by lia.
      rewrite Z.pow_add_r by lia. reflexivity. }
    rewrite Hpow in Hx, Hy.
    apply (f_equal Z_of_byte) in Hhd. rewrite !Z_of_byte_of in Hhd.
    rewrite !Z.shiftr_div_pow2 in Hhd by lia.
    rewrite !Z.mod_small in Hhd
      by (split; [apply Z.div_pos; lia
                 | apply Z.div_lt_upper_bound; lia]).
    rewrite <- (be_bytes_mod (m := n) x), <- (be_bytes_mod (m := n) y) in Htl
      by lia.
    apply IH in Htl; try (apply Z.mod_pos_bound; lia).
    rewrite (Z.div_mod x (2 ^ (8 * Z.of_nat n))),
      (Z.div_mod y (2 ^ (8 * Z.of_nat n))) by lia.
    now rewrite Hhd, Htl.
Qed.

(** X20: the address keeps the whole hash.  When the hash is never
    negative, two proofs that are given the same address have evaluation
    strings with the same hash: the 32 bytes lose nothing of a hash that
    fits them, and a hash that does not fit gives no address. *)
Theorem X20_the_address_keeps_the_hash
        (TOKEN_ADDRESS : bytes) (HashBytes : bytes -> option Z)
        (p q : PreCoinProof) (address : bytes) :
  (forall b h, HashBytes b = Some h -> 0 <= h) ->
  GetAddressOfPreCoinProof TOKEN_ADDRESS HashBytes p = Ok address ->
  GetAddressOfPreCoinProof TOKEN_ADDRESS HashBytes q = Ok address ->
  exists h ownerP ownerQ,
    ownerImplicitAddress p = Some ownerP /\
    ownerImplicitAddress q = Some ownerQ /\
    HashBytes (preCoinProofEval TOKEN_ADDRESS p ownerP) = Some h /\
    HashBytes (preCoinProofEval TOKEN_ADDRESS q ownerQ) = Some h /\
    0 <= h < 2 ^ 256 /\
    address = be_bytes 32 h.
Proof.
  intros Hpos Hp Hq. unfold GetAddressOfPreCoinProof in Hp, Hq.
  destruct (ownerImplicitAddress p) as [ownerP|]; [|discriminate].
  destruct (ownerImplicitAddress q) as [ownerQ|]; [|discriminate].
  destruct (HashBytes (preCoinProofEval TOKEN_ADDRESS p ownerP))
    as [h|] eqn:Hh; [|discriminate].
  destruct (HashBytes (preCoinProofEval TOKEN_ADDRESS q ownerQ))
    as [h'|] eqn:Hh'; [|discriminate].
  apply Hpos in Hh as Hge. apply Hpos in Hh' as Hge'.
  unfold FillBytes in Hp, Hq. rewrite Z.abs_eq in Hp, Hq by trivial.
  destruct (h <? 2 ^ (8 * Z.of_nat 32)) eqn:E; [|discriminate].
  destruct (h' <? 2 ^ (8 * Z.of_nat 32)) eqn:E'; [|discriminate].
  apply Z.ltb_lt in E, E'.
  injection Hp as Hp. injection Hq as Hq.
  assert (h' = h).
  { apply (@be_bytes_inj 32); try lia.
    transitivity address; [exact Hq | symmetry; exact Hp]. }
  subst h'. exists h, ownerP, ownerQ. repeat split; trivial.
  symmetry. exact Hp.
Qed.

Lemma X20_address_witness :
  exists h ownerP ownerQ,
    ownerImplicitAddress sampleProofFields = Some ownerP /\
    ownerImplicitAddress (swapIndexProofCommitment sampleProofFields)
    = Some ownerQ /\
    sampleHash (preCoinProofEval (tokenOf x54) sampleProofFields ownerP)
    = Some h /\
    sampleHash
      (preCoinProofEval (tokenOf x54)
         (swapIndexProofCommitment sampleProofFields) ownerQ)
    = Some h /\
    0 <= h < 2 ^ 256 /\
    be_bytes 32 92 = be_bytes 32 h.
Proof.
  apply (@X20_the_address_keeps_the_hash (tokenOf x54) sampleHash
           sampleProofFields (swapIndexProofCommitment sampleProofFields)
           (be_bytes 32 92)).
  - intros b h H. injection H as <-. unfold len. lia.
  - vm_compute. reflexivity.
  - vm_compute. reflexivity.
Defined.

(** * Properties of the transfer command *)

Section TransferProperties.
Import Transfer.

(** ** Hexadecimal digits *)

Lemma byte_of_Z_of_byte (c : byte) : byte_of (Z_of_byte c) = c.
Proof.
  unfold byte_of, Z_of_byte.
  assert (H := Byte.to_N_bounded c).
  rewrite Z.mod_small, N2Z.id, Byte.of_to_N by lia. reflexivity.
Qed.

Lemma hexDigits_decode (c : byte) : decodesBack c = true.
Proof.
  assert (H : forallb (fun n => decodesBack (byte_of (Z.of_nat n)))
                (seq 0 256) = true) by (vm_compute; reflexivity).
  rewrite forallb_forall in H.
  rewrite <- (byte_of_Z_of_byte c).
  assert (Hc := Byte.to_N_bounded c).
  replace (Z_of_byte c) with (Z.of_nat (Z.to_nat (Z_of_byte c)))
    by (unfold Z_of_byte; lia).
  apply H, in_seq. unfold Z_of_byte. lia.
Qed.

Lemma DecodeString_fmtHexByte (c : byte) (rest : bytes) :
  DecodeString (fmtHexByte c ++ rest)
  = option_map (cons c) (DecodeString rest).
Proof.
  unfold fmtHexByte. cbn [app DecodeString].
  assert (H := hexDigits_decode c). unfold decodesBack, fmtHexByte in H.
  destruct (fromHexChar _) as [a|]; [|discriminate].
  destruct (fromHexChar _) as [b|]; [|discriminate].
  apply Byte.byte_dec_bl in H. rewrite H.
  now destruct (DecodeString rest).
Qed.

Lemma DecodeString_fmtHex (b : bytes) : DecodeString (fmtHex b) = Some b.
Proof.
  induction b as [|c b IH]; [reflexivity|].
  unfold fmtHex. cbn [flat_map]. rewrite DecodeString_fmtHexByte.
  fold (fmtHex b). now rewrite IH.
Qed.

Lemma decodeArg_shown (b : bytes) :
  decodeArg (bytes_of_string "0x" ++ fmtHex b) = Some b.
Proof. apply DecodeString_fmtHex. Qed.

(** ** The shapes of a run *)

Lemma Run_RunShape (env : Env) (args : list bytes) :
  RunShape env args (fst (Run env args)) (snd (Run env args)).
Proof.
  unfold Run. destruct (Nat.eqb (List.length args) 2) eqn:Hlen; cbn [negb].
  2:{ apply Nat.eqb_neq in Hlen. now constructor. }
  apply Nat.eqb_eq in Hlen.
  destruct (GetGRPCClient env) eqn:Hc; [|now constructor].
  destruct (GetPrivKeyFromConfig env) as [key|] eqn:Hk; [|now constructor].
  destruct args as [|a0 [|a1 [|]]]; try discriminate.
  unfold withKey. cbn [rangeArgs Nat.eqb].
  destruct (decodeArg a0) as [to|] eqn:H0.
  2:{ eapply ShapeBadHex; eauto. }
  destruct (decodeArg a1) as [coin|] eqn:H1.
  2:{ eapply ShapeBadHex; eauto. }
  cbn [coinaddr payload toaddr initVars].
  assert (Hans : forall x,
             Answered env key to coin (fst x) (snd x) ->
             RunShape env [a0; a1]
               (fst (emit [EvGetGRPCClient true]
                       (deferClose
                          (emit [EvGetPrivKey true]
                             (emit (promptLines to coin
                                    ++ [EvScanln (Scanln env)]) x)))))
               (snd (emit [EvGetGRPCClient true]
                       (deferClose
                          (emit [EvGetPrivKey true]
                             (emit (promptLines to coin
                                    ++ [EvScanln (Scanln env)]) x)))))).
  { intros [tr ex] H. cbn [emit deferClose fst snd app].
    rewrite <- !app_assoc. cbn [app].
    eapply ShapeAsked; eauto. }
  apply Hans.
  destruct (bytes_Equal (ToLower (Scanln env)) (bytes_of_string "yes")) eqn:Hyes.
  - apply bytes_Equal_eq in Hyes. unfold signAndSend.
    cbn [payload toaddr].
    change (bytes_of_string "transfer" ++ coin) with
      (bytes_of_string "transfer" ++ coin) .
    replace ((bytes_of_string "transfer" ++ coin) ++ to)
      with (transferPayload coin to)
      by (unfold transferPayload; now rewrite app_assoc).
    destruct (Sign key (transferPayload coin to)) as [sig|] eqn:Hs.
    2:{ now constructor. }
    destruct (Raw key) as [pub|] eqn:Hr.
    2:{ cbn [emit fst snd app]. now constructor. }
    destruct (SendMessage env (transferRequest coin to sig pub)) eqn:Hm;
      cbn [emit fst snd app]; now constructor.
  - apply bytes_Equal_neq in Hyes. now constructor.
Qed.

Ltac run_shapes env args :=
  let H := fresh "Hshape" in
  assert (H := Run_RunShape env args);
  destruct (Run env args) as [tr ex]; cbn [fst snd] in *;
  inversion H as [Hlen | Hlen Hc | Hlen Hc Hk | key a0 a1 Ha Hc Hk Hbad
                 | key a0 a1 to coin tr' ex' Ha Hc Hk H0 H1 Hans];
  subst; clear H.

Ltac in_cases H :=
  cbn [In app promptLines] in H;
  repeat (destruct H as [H|H]; try discriminate H); try contradiction.

(** ** What is signed and what is sent *)

(** X10: the command signs at most once, and only when it was given two
    arguments that decode, the key was loaded and the answer at the prompt
    is a yes; the payload is then the tag, the coin of the second argument
    and the recipient of the first, in this order. *)
Theorem X10_what_is_signed (env : Env) (args : list bytes) (p : bytes)
        (s : option bytes) :
  In (EvSign p s) (fst (Run env args)) ->
  exists a0 a1 to coin key,
    args = [a0; a1] /\
    decodeArg a0 = Some to /\ decodeArg a1 = Some coin /\
    GetPrivKeyFromConfig env = Some key /\
    ToLower (Scanln env) = yes /\
    p = transferPayload coin to /\ s = Sign key p /\
    signed (fst (Run env args)) = [p].
Proof.
  run_shapes env args; intros Hin; try (in_cases Hin).
  exists a0, a1, to, coin, key.
  inversion Hans; subst; in_cases Hin; injection Hin as <- <-;
    repeat split; trivial; congruence.
Qed.

Lemma X10_signed_witness :
  exists a0 a1 to coin key,
    sampleArgs = [a0; a1] /\
    decodeArg a0 = Some to /\ decodeArg a1 = Some coin /\
    GetPrivKeyFromConfig envYes = Some key /\
    ToLower (Scanln envYes) = yes /\
    transferPayload [xc0; xde; x01] [x0a; xff] = transferPayload coin to /\
    Some (x53 :: transferPayload [xc0; xde; x01] [x0a; xff])
    = Sign key (transferPayload [xc0; xde; x01] [x0a; xff]) /\
    signed (fst (Run envYes sampleArgs))
    = [transferPayload [xc0; xde; x01] [x0a; xff]].
Proof.
  apply (@X10_what_is_signed envYes sampleArgs
           (transferPayload [xc0; xde; x01] [x0a; xff])
           (Some (x53 :: transferPayload [xc0; xde; x01] [x0a; xff]))).
  vm_compute. repeat (first [left; reflexivity | right]).
Defined.

Lemma Run_sent (env : Env) (args : list bytes) (req : TransferCoinRequest)
      (ok : bool) :
  In (EvSendMessage req ok) (fst (Run env args)) ->
  exists key a0 a1 to coin sig pub post,
    args = [a0; a1] /\
    decodeArg a0 = Some to /\ decodeArg a1 = Some coin /\
    GetPrivKeyFromConfig env = Some key /\
    Sign key (transferPayload coin to) = Some sig /\
    Raw key = Some pub /\
    req = transferRequest coin to sig pub /\
    ok = SendMessage env req /\
    fst (Run env args)
    = (EvGetGRPCClient true :: EvGetPrivKey true
       :: promptLines to coin ++ [EvScanln (Scanln env)])
      ++ EvSign (transferPayload coin to) (Some sig) :: EvRaw (Some pub)
         :: EvSendMessage req ok :: post /\
    Forall keepsConn (removelast post) /\
    signed post = [].
Proof.
  run_shapes env args; intros Hin; try (in_cases Hin).
  exists key, a0, a1, to, coin.
  inversion Hans; subst; in_cases Hin; injection Hin as <- <-;
    exists sig, pub; eexists; repeat split; trivial; try congruence;
    try reflexivity; cbn; repeat constructor.
Qed.

(** X11: the request that is sent carries the signature of the loaded key
    over its own fields.  The account is the implicit account of the first
    argument, the coin is that of the second, the signature is over the
    tag, the coin and the account, and the call comes right after the
    signing and the reading of the public key. *)
Theorem X11_the_request_is_signed_over_its_fields
        (env : Env) (args : list bytes) (req : TransferCoinRequest)
        (ok : bool) :
  In (EvSendMessage req ok) (fst (Run env args)) ->
  exists key pre post,
    GetPrivKeyFromConfig env = Some key /\
    ToAccount req = ImplicitAccount (accountAddress (ToAccount req)) /\
    decodeArg (nth 0 args []) = Some (accountAddress (ToAccount req)) /\
    decodeArg (nth 1 args []) = Some (OfCoin req) /\
    Sign key (transferPayload (OfCoin req) (accountAddress (ToAccount req)))
    = Some (Signature req) /\
    Raw key = Some (PublicKey req) /\
    ok = SendMessage env req /\
    fst (Run env args)
    = pre
      ++ EvSign (transferPayload (OfCoin req) (accountAddress (ToAccount req)))
           (Some (Signature req))
         :: EvRaw (Some (PublicKey req)) :: EvSendMessage req ok :: post.
Proof.
  intros Hin.
  destruct (@Run_sent env args req ok Hin)
    as (key & a0 & a1 & to & coin & sig & pub & post & -> & H0 & H1 & Hk
        & Hs & Hr & -> & -> & Htr & _).
  exists key. eexists. exists post. cbn [nth].
  repeat split; trivial. exact Htr.
Qed.

Lemma X11_request_witness :
  exists key pre post,
    GetPrivKeyFromConfig envYes = Some key /\
    ImplicitAccount [x0a; xff] = ImplicitAccount [x0a; xff] /\
    decodeArg (nth 0 sampleArgs []) = Some [x0a; xff] /\
    decodeArg (nth 1 sampleArgs []) = Some [xc0; xde; x01] /\
    Sign key (transferPayload [xc0; xde; x01] [x0a; xff])
    = Some (x53 :: transferPayload [xc0; xde; x01] [x0a; xff]) /\
    Raw key = Some [x50] /\
    true = SendMessage envYes
             (transferRequest [xc0; xde; x01] [x0a; xff]
                (x53 :: transferPayload [xc0; xde; x01] [x0a; xff]) [x50]) /\
    fst (Run envYes sampleArgs)
    = pre
      ++ EvSign (transferPayload [xc0; xde; x01] [x0a; xff])
           (Some (x53 :: transferPayload [xc0; xde; x01] [x0a; xff]))
         :: EvRaw (Some [x50])
         :: EvSendMessage
              (transferRequest [xc0; xde; x01] [x0a; xff]
                 (x53 :: transferPayload [xc0; xde; x01] [x0a; xff]) [x50])
              true
         :: post.
Proof.
  apply (@X11_the_request_is_signed_over_its_fields envYes sampleArgs
           (transferRequest [xc0; xde; x01] [x0a; xff]
              (x53 :: transferPayload [xc0; xde; x01] [x0a; xff]) [x50])
           true).
  vm_compute. repeat (first [left; reflexivity | right]).
Defined.

(** ** The connection *)

(** X12: a run that obtained the connection closes it, once, as its last
    action, however it ends: the deferred call of line 29 also runs when
    the command panics.  A run that did not obtain it does nothing else
    and panics; with a wrong number of arguments nothing is attempted at
    all. *)
Theorem X12_the_connection_is_closed (env : Env) (args : list bytes) :
  let tr := fst (Run env args) in
  let ex := snd (Run env args) in
  (List.length args <> 2%nat /\ tr = [] /\ ex = Panicked)
  \/ (GetGRPCClient env = false /\ tr = [EvGetGRPCClient false] /\
      ex = Panicked)
  \/ (exists mid,
         tr = EvGetGRPCClient true :: mid ++ [EvConnClose] /\
         Forall keepsConn mid).
Proof.
  cbv zeta. run_shapes env args.
  - left. auto.
  - right. left. auto.
  - right. right. exists [EvGetPrivKey false]. split; trivial.
    repeat constructor.
  - right. right. exists [EvGetPrivKey true]. split; trivial.
    repeat constructor.
  - right. right.
    exists (EvGetPrivKey true :: promptLines to coin
            ++ EvScanln (Scanln env) :: tr').
    split.
    + cbn [app]. now rewrite <- app_assoc.
    + constructor; [exact I|]. apply Forall_app. split.
      * repeat constructor.
      * constructor; [exact I|]. inversion Hans; repeat constructor.
Qed.

(** ** The arguments *)

Lemma rangeArgs_decoded (args args' : list bytes) :
  map decodeArg args = map decodeArg args' ->
  forall i v, rangeArgs i args v = rangeArgs i args' v.
Proof.
  revert args'. induction args as [|a args IH]; intros [|a' args'] H i v;
    try discriminate; trivial.
  cbn [map] in H. injection H as Ha H. cbn [rangeArgs]. rewrite Ha.
  destruct (decodeArg a'); trivial.
  destruct (Nat.eqb i 0); now apply IH.
Qed.

Lemma Run_decoded (env : Env) (args args' : list bytes) :
  map decodeArg args = map decodeArg args' -> Run env args = Run env args'.
Proof.
  intros H. unfold Run, withKey.
  assert (Hlen : List.length args = List.length args').
  { apply (f_equal (@List.length _)) in H. now rewrite !length_map in H. }
  rewrite Hlen, (rangeArgs_decoded _ _ H). reflexivity.
Qed.

(** X13: the command reads its arguments only through their decoded
    bytes: a leading [0x] and the case of the digits make no difference to
    anything it does. *)
Theorem X13_only_the_decoded_bytes_matter (env : Env)
        (args args' : list bytes) :
  map decodeArg args = map decodeArg args' -> Run env args = Run env args'.
Proof.
  intros H.
  assert (Hlen : List.length args = List.length args').
  { rewrite <- (length_map decodeArg args), H. apply length_map. }
  assert (Hloop : rangeArgs 0 args initVars = rangeArgs 0 args' initVars)
    by now apply rangeArgs_decoded.
  unfold Run, withKey. now rewrite Hlen, Hloop.
Qed.

Lemma X13_spelling_witness : Run envYes sampleArgs = Run envYes sampleArgsAgain.
Proof.
  apply (@X13_only_the_decoded_bytes_matter envYes sampleArgs sampleArgsAgain).
  reflexivity.
Defined.

(** X14: what the prompt shows is what is sent.  Before the answer is
    read the command prints the recipient and the coin of the request it
    sends afterwards, and the two values it prints, given back as the
    arguments, lead to the same run. *)
Theorem X14_what_is_shown_is_what_is_sent
        (env : Env) (args : list bytes) (req : TransferCoinRequest)
        (ok : bool) :
  In (EvSendMessage req ok) (fst (Run env args)) ->
  (exists pre post,
      fst (Run env args)
      = pre ++ promptLines (accountAddress (ToAccount req)) (OfCoin req)
            ++ EvScanln (Scanln env) :: post /\
      In (EvSendMessage req ok) post) /\
  Run env (shownArgs (accountAddress (ToAccount req)) (OfCoin req))
  = Run env args.
Proof.
  intros Hin.
  destruct (@Run_sent env args req ok Hin)
    as (key & a0 & a1 & to & coin & sig & pub & post & -> & H0 & H1 & Hk
        & Hs & Hr & -> & -> & Htr & _).
  cbn [transferRequest OfCoin ToAccount accountAddress] in *. split.
  - exists [EvGetGRPCClient true; EvGetPrivKey true]. eexists. split.
    + rewrite Htr. cbn [app]. rewrite <- app_assoc. reflexivity.
    + right. right. now left.
  - apply Run_decoded. unfold shownArgs. cbn [map].
    now rewrite !decodeArg_shown, H0, H1.
Qed.

Lemma X14_shown_witness :
  (exists pre post,
      fst (Run envYes sampleArgs)
      = pre ++ promptLines [x0a; xff] [xc0; xde; x01]
            ++ EvScanln (Scanln envYes) :: post /\
      In (EvSendMessage
            (transferRequest [xc0; xde; x01] [x0a; xff]
               (x53 :: transferPayload [xc0; xde; x01] [x0a; xff]) [x50])
            true) post) /\
  Run envYes (shownArgs [x0a; xff] [xc0; xde; x01]) = Run envYes sampleArgs.
Proof.
  apply (@X14_what_is_shown_is_what_is_sent envYes sampleArgs
           (transferRequest [xc0; xde; x01] [x0a; xff]
              (x53 :: transferPayload [xc0; xde; x01] [x0a; xff]) [x50])
           true).
  vm_compute. repeat (first [left; reflexivity | right]).
Defined.

(** ** The payload and the transfer *)

Lemma signed_sent (env : Env) (args : list bytes) (req : TransferCoinRequest)
      (ok : bool) :
  In (EvSendMessage req ok) (fst (Run env args)) ->
  signed (fst (Run env args))
  = [transferPayload (OfCoin req) (accountAddress (ToAccount req))] /\
  ToAccount req = ImplicitAccount (accountAddress (ToAccount req)).
Proof.
  intros Hin.
  destruct (@Run_sent env args req ok Hin)
    as (key & a0 & a1 & to & coin & sig & pub & post & -> & H0 & H1 & Hk
        & Hs & Hr & -> & -> & Htr & _ & Hpost).
  split; [|reflexivity]. rewrite Htr.
  cbn [app promptLines signed transferRequest OfCoin ToAccount accountAddress].
  now rewrite Hpost.
Qed.

(** X15: among transfers whose coin addresses have one length, the
    payload that is signed determines the transfer: two runs that sign the
    same payload and send send the same coin to the same account. *)
Theorem X15_the_payload_determines_the_transfer
        (env env' : Env) (args args' : list bytes)
        (req req' : TransferCoinRequest) (ok ok' : bool) :
  In (EvSendMessage req ok) (fst (Run env args)) ->
  In (EvSendMessage req' ok') (fst (Run env' args')) ->
  signed (fst (Run env args)) = signed (fst (Run env' args')) ->
  List.length (OfCoin req) = List.length (OfCoin req') ->
  OfCoin req = OfCoin req' /\ ToAccount req = ToAccount req'.
Proof.
  intros Hin Hin' Hsig Hlen.
  destruct (@signed_sent env args req ok Hin) as [Hs Ha].
  destruct (@signed_sent env' args' req' ok' Hin') as [Hs' Ha'].
  rewrite Hs, Hs' in Hsig. injection Hsig as Hsig.
  apply app_same_length in Hsig as [Hc Ht]; trivial.
  split; trivial. rewrite Ha, Ha'. now f_equal.
Qed.

Lemma X15_same_transfer_witness :
  OfCoin (transferRequest [xc0; xde; x01] [x0a; xff]
            (x53 :: transferPayload [xc0; xde; x01] [x0a; xff]) [x50])
  = OfCoin (transferRequest [xc0; xde; x01] [x0a; xff]
              (x53 :: transferPayload [xc0; xde; x01] [x0a; xff]) [x50]) /\
  ToAccount (transferRequest [xc0; xde; x01] [x0a; xff]
               (x53 :: transferPayload [xc0; xde; x01] [x0a; xff]) [x50])
  = ToAccount (transferRequest [xc0; xde; x01] [x0a; xff]
                 (x53 :: transferPayload [xc0; xde; x01] [x0a; xff]) [x50]).
Proof.
  apply (@X15_the_payload_determines_the_transfer envYes envYes
           sampleArgs sampleArgsAgain
           (transferRequest [xc0; xde; x01] [x0a; xff]
              (x53 :: transferPayload [xc0; xde; x01] [x0a; xff]) [x50])
           (transferRequest [xc0; xde; x01] [x0a; xff]
              (x53 :: transferPayload [xc0; xde; x01] [x0a; xff]) [x50])
           true true).
  - vm_compute. repeat (first [left; reflexivity | right]).
  - vm_compute. repeat (first [left; reflexivity | right]).
  - reflexivity.
  - reflexivity.
Defined.

Lemma signed_shown (env : Env) (t c : bytes) :
  signed (fst (Run env (shownArgs t c)))
  = match GetGRPCClient env, GetPrivKeyFromConfig env with
    | true, Some _ =>
        if bytes_Equal (ToLower (Scanln env)) yes
        then [transferPayload c t] else []
    | _, _ => []
    end.
Proof.
  run_shapes env (shownArgs t c); try (now contradiction Hlen).
  - now rewrite Hc.
  - now rewrite Hc, Hk.
  - injection Ha as <- <-.
    destruct Hbad as [Hbad|Hbad];
      [ change (decodeArg (bytes_of_string "0x" ++ fmtHex t) = None) in Hbad
      | change (decodeArg (bytes_of_string "0x" ++ fmtHex c) = None) in Hbad ];
      rewrite decodeArg_shown in Hbad; discriminate.
  - injection Ha as <- <-.
    change (decodeArg (bytes_of_string "0x" ++ fmtHex t) = Some to) in H0.
    change (decodeArg (bytes_of_string "0x" ++ fmtHex c) = Some coin) in H1.
    rewrite decodeArg_shown in H0, H1.
    injection H0 as <-. injection H1 as <-. rewrite Hc, Hk.
    inversion Hans; subst;
      match goal with
      | H : ToLower _ = yes |- _ => apply bytes_Equal_eq in H; rewrite H
      | H : ToLower _ <> yes |- _ => apply bytes_Equal_neq in H; rewrite H
      end; reflexivity.
Qed.

(** X16: the command does not check the length of an address, and the
    payload joins the coin and the recipient without a mark between them:
    two transfers whose coin and recipient join to the same bytes have the
    same payload signed, while each request carries its own coin and
    recipient. *)
Theorem X16_the_payload_has_no_field_marks
        (env : Env) (to coin to' coin' : bytes) :
  coin ++ to = coin' ++ to' ->
  signed (fst (Run env (shownArgs to coin)))
  = signed (fst (Run env (shownArgs to' coin'))) /\
  (forall req ok,
      In (EvSendMessage req ok) (fst (Run env (shownArgs to coin))) ->
      OfCoin req = coin /\ ToAccount req = ImplicitAccount to) /\
  (forall req ok,
      In (EvSendMessage req ok) (fst (Run env (shownArgs to' coin'))) ->
      OfCoin req = coin' /\ ToAccount req = ImplicitAccount to').
Proof.
  intros H.
  assert (Hreq : forall t c req ok,
             In (EvSendMessage req ok) (fst (Run env (shownArgs t c))) ->
             OfCoin req = c /\ ToAccount req = ImplicitAccount t).
  { intros t c req ok Hin.
    destruct (@Run_sent env (shownArgs t c) req ok Hin)
      as (key & a0 & a1 & t0 & c0 & sig & pub & post & Ha & H0 & H1 & _
          & _ & _ & -> & _).
    injection Ha as <- <-.
    change (decodeArg (bytes_of_string "0x" ++ fmtHex t) = Some t0) in H0.
    change (decodeArg (bytes_of_string "0x" ++ fmtHex c) = Some c0) in H1.
    rewrite decodeArg_shown in H0, H1.
    injection H0 as <-. injection H1 as <-. now split. }
  split; [|split; apply Hreq].
  rewrite !signed_shown. unfold transferPayload. now rewrite H.
Qed.

Lemma X16_two_transfers_witness :
  signed (fst (Run envYes (shownArgs [x01; x0a] [xc0; xde])))
  = signed (fst (Run envYes (shownArgs [x0a] [xc0; xde; x01]))) /\
  (forall req ok,
      In (EvSendMessage req ok)
         (fst (Run envYes (shownArgs [x01; x0a] [xc0; xde]))) ->
      OfCoin req = [xc0; xde] /\ ToAccount req = ImplicitAccount [x01; x0a]) /\
  (forall req ok,
      In (EvSendMessage req ok)
         (fst (Run envYes (shownArgs [x0a] [xc0; xde; x01]))) ->
      OfCoin req = [xc0; xde; x01] /\ ToAccount req = ImplicitAccount [x0a]).
Proof.
  apply (@X16_the_payload_has_no_field_marks envYes
           [x01; x0a] [xc0; xde] [x0a] [xc0; xde; x01]).
  reflexivity.
Defined.

(** ** How the command ends *)

(** X17: the command completes only after the node accepted the request,
    as the last call before the closing of the connection; it is
    cancelled only by an answer that is not a yes, after which nothing is
    signed or sent; and without a yes it never completes. *)
Theorem X17_the_end_of_a_run (env : Env) (args : list bytes) :
  let tr := fst (Run env args) in
  let ex := snd (Run env args) in
  (ex = Completed ->
   exists pre req,
     SendMessage env req = true /\
     tr = pre ++ [EvSendMessage req true;
                  EvPrint (bytes_of_string "Transaction completed successfully."
                           ++ newline);
                  EvConnClose])
  /\
  (ex = Cancelled ->
   ToLower (Scanln env) <> yes /\
   exists pre,
     tr = pre ++ [EvScanln (Scanln env);
                  EvPrint (bytes_of_string "Transaction cancelled by user."
                           ++ newline);
                  EvConnClose])
  /\
  (ToLower (Scanln env) <> yes ->
   ex <> Completed /\ signed tr = [] /\
   forall req ok, ~ In (EvSendMessage req ok) tr).
Proof.
  cbv zeta. run_shapes env args.
  1-4: (split; [discriminate|]; split; [discriminate|]; intros _;
        split; [discriminate|]; split; [reflexivity|];
        intros req ok Hin; in_cases Hin).
  inversion Hans; subst; (split; [|split]).
  all: try (intros Hex; discriminate Hex).
  all: try (intros Hno; contradiction).
  - intros _. split; trivial.
    exists (EvGetGRPCClient true :: EvGetPrivKey true :: promptLines to coin).
    reflexivity.
  - intros _. split; [discriminate|]. split; [reflexivity|].
    intros req ok Hin. in_cases Hin.
  - intros _.
    exists (EvGetGRPCClient true :: EvGetPrivKey true
            :: promptLines to coin
            ++ [EvScanln (Scanln env);
                EvSign (transferPayload coin to) (Some sig);
                EvRaw (Some pub)]).
    eexists. split; [eassumption|]. reflexivity.
Qed.

Lemma X17_ends_witness :
  (exists pre req,
      SendMessage envYes req = true /\
      fst (Run envYes sampleArgs)
      = pre ++ [EvSendMessage req true;
                EvPrint (bytes_of_string "Transaction completed successfully."
                         ++ newline);
                EvConnClose])
  /\
  (ToLower (Scanln envShort) <> yes /\
   exists pre,
     fst (Run envShort sampleArgs)
     = pre ++ [EvScanln (Scanln envShort);
               EvPrint (bytes_of_string "Transaction cancelled by user."
                        ++ newline);
               EvConnClose])
  /\
  (snd (Run envShort sampleArgs) <> Completed /\
   signed (fst (Run envShort sampleArgs)) = [] /\
   forall req ok, ~ In (EvSendMessage req ok) (fst (Run envShort sampleArgs))).
Proof.
  split; [|split].
  - apply (proj1 (X17_the_end_of_a_run envYes sampleArgs)). reflexivity.
  - apply (proj1 (proj2 (X17_the_end_of_a_run envShort sampleArgs))).
    reflexivity.
  - apply (proj2 (proj2 (X17_the_end_of_a_run envShort sampleArgs))).
    discriminate.
Defined.

(** ** The answer at the prompt *)

Lemma lowerByte_inv (c d : byte) :
  lowerByte c = d ->
  c = d \/ (65 <= Z_of_byte c <= 90 /\ Z_of_byte d = Z_of_byte c + 32).
Proof.
  unfold lowerByte. intros H.
  destruct ((65 <=? Z_of_byte c) && (Z_of_byte c <=? 90)) eqn:E;
    [|now left].
  right. apply andb_prop in E as [E1 E2].
  apply Z.leb_le in E1, E2. split; [lia|].
  rewrite <- H, Z_of_byte_of. apply Z.mod_small. lia.
Qed.

Lemma Z_of_byte_inj (c d : byte) : Z_of_byte c = Z_of_byte d -> c = d.
Proof.
  intros H. rewrite <- (byte_of_Z_of_byte c), <- (byte_of_Z_of_byte d).
  now rewrite H.
Qed.

Lemma lowerByte_letter (c lo up : byte) :
  Z_of_byte lo = Z_of_byte up + 32 ->
  lowerByte c = lo -> c = lo \/ c = up.
Proof.
  intros Hlo H. apply lowerByte_inv in H as [H | [_ H]]; [now left|].
  right. apply Z_of_byte_inj. lia.
Qed.

Lemma ToLower_yes (r : bytes) : ToLower r = yes -> In r yesSpellings.
Proof.
  destruct r as [|a [|b [|c [|]]]]; try discriminate.
  intros H. injection H as Ha Hb Hc.
  apply (@lowerByte_letter a _ "Y"%byte) in Ha; [|reflexivity].
  apply (@lowerByte_letter b _ "E"%byte) in Hb; [|reflexivity].
  apply (@lowerByte_letter c _ "S"%byte) in Hc; [|reflexivity].
  destruct Ha as [-> | ->], Hb as [-> | ->], Hc as [-> | ->];
    vm_compute; tauto.
Qed.



End TransferProperties.
